(** * multi_pingpong: resolver, prober, round scheduler and history store

    A shallow embedding of [src/multi_pingpong.py] and the properties its
    specification states about it.

    Conventions of the embedding.
    - The latencies of the monitor are exact rationals [Q]: every latency
      is a decimal literal read from the ping utility's output.  The
      functions of [calculate_statistics] are given twice: over [Q], where
      sum, difference, product and quotient are exact, and in module
      [Binary64] over the primitive binary64 floats, where they round as
      Python's do.
    - A [float] taken from the command line is a primitive binary64 float:
      [int] of it truncates the rational it stands for ([exact_value]) and
      raises on an infinity and on [nan], and [timeout + 1] is the sum of
      IEEE 754.
    - Python [int]s are [Z].
    - [str] is [string]; its characters are the code points below 256.
    - A [dict] whose iteration order the program depends on is an
      association list in insertion order ([dict_setitem]); the [histories]
      dict, which is only indexed by key, is a [gmap string history].
    - The operating system is a record of oracles ([system]) and a function
      from a shell command to what the subprocess did ([proc_event]).
    - The exceptions modelled are values of [pyexn], threaded by the
      [result] monad: those the program raises itself, [OSError] of
      [os.get_terminal_size] without a terminal, what [int] raises on an
      infinite or [nan] timeout, and what [socket.gethostbyname] raises on
      a name it cannot encode.  Errors of [print] and of the interpreter
      itself are outside the model.  [asyncio.gather] over independent probes is
      the list of their results in task order.  The screen is the list of
      its rows and warnings; the colour functions, the latency bar and the
      width of the name column are functions of their own.  Padding,
      number formatting and the interrupt handler are not modelled, nor
      is the time a round or the sleep after it takes: a run is the
      sequence of its rounds. *)

From Stdlib Require Import ZArith QArith Qabs Lia List String Ascii Bool.
From Stdlib Require Import Floats.
From Stdlib Require Import Permutation DecimalString Sorted.
From Stdlib Require OrderedTypeEx.
From Stdlib Require Import Lqa.
From stdpp Require Import gmap strings list.

(** ** Exceptions *)

Inductive pyexn :=
| KeyError (key : string)
| IndexError
| SystemExit (status : Z) (message : string)
| OSError
| OverflowError
| ValueError
| UnicodeError.

Inductive result (A : Type) :=
| Ok (a : A)
| Raise (e : pyexn).

Arguments Ok {A} a.
Arguments Raise {A} e.

#[global] Instance result_ret : MRet result := fun _ a => Ok a.

#[global] Instance result_bind : MBind result :=
  fun _ _ f m => match m with Ok a => f a | Raise e => Raise e end.

#[global] Instance result_fmap : FMap result :=
  fun _ _ f m => match m with Ok a => Ok (f a) | Raise e => Raise e end.

(** ** Insertion-ordered dictionaries *)

Section PyDict.
Context {K V : Type} `{EqDecision K}.

(** [d[k] = v]: an existing key keeps its place and takes the new value, a
    new key goes last. *)
Fixpoint dict_setitem (k : K) (v : V) (d : list (K * V)) : list (K * V) :=
  match d with
  | [] => [(k, v)]
  | (k', v') :: d' =>
      if decide (k' = k) then (k', v) :: d' else (k', v') :: dict_setitem k v d'
  end.

(** [{k: v for k, v in items}] *)
Definition dict_of_items (its : list (K * V)) : list (K * V) :=
  foldl (fun d kv => dict_setitem kv.1 kv.2 d) [] its.

Definition dict_keys (d : list (K * V)) : list K := d.*1.

Definition dict_values (d : list (K * V)) : list V := d.*2.

Fixpoint dict_getitem (k : K) (d : list (K * V)) : option V :=
  match d with
  | [] => None
  | (k', v) :: d' => if decide (k' = k) then Some v else dict_getitem k d'
  end.

End PyDict.

(** [enumerate(xs)] *)
Definition enumerate {A : Type} (xs : list A) : list (nat * A) :=
  imap (fun i x => (i, x)) xs.

(** [sorted(xs)] on strings: insertion into an ordered list, comparing code
    points as Python does. *)
Fixpoint insert_sorted (x : string) (xs : list string) : list string :=
  match xs with
  | [] => [x]
  | y :: ys => if String.leb x y then x :: y :: ys else y :: insert_sorted x ys
  end.

Definition sorted (xs : list string) : list string :=
  foldr insert_sorted [] xs.

(** ** Configuration settings (lines 36-41) *)

Definition MAX_HISTORY : nat := 50.
Definition UPDATE_INTERVAL : float := 1%float.
Definition TIMEOUT : float := 2%float.
Definition LOSS_THRESHOLD : Q := 20.
Definition LATENCY_THRESHOLD : Q := 200.

(** ** The operating system *)

(** What [socket.gethostbyname] does: it returns the first IPv4 address the
    name resolves to, raises [socket.gaierror] when the lookup fails, or
    raises before any lookup because the name cannot be passed on:
    [UnicodeError] for a name with an empty label or a label of more than
    63 characters, [ValueError] for a name with a null character. *)
Inductive lookup_outcome :=
| Resolved (first_address : string)
| gaierror
| label_empty_or_too_long
| embedded_null_character.

(** A file named on the command line. *)
Inductive file_state :=
| Missing
| Readable (lines : list string)
| Unreadable.

(** [get_terminal_size] is the number of columns [os.get_terminal_size]
    reports, or [None] when standard output is not a terminal and the call
    raises [OSError]. *)
Record system := System {
  is_windows : bool;
  ip_address_parses : string -> bool;
  gethostbyname : string -> lookup_outcome;
  file_system : string -> file_state;
  get_terminal_size : option nat
}.

(** ** Resolver *)

(** [validate_ip] (lines 70-87).  [ipaddress.ip_address] raises [ValueError]
    exactly when the text is neither an IPv4 nor an IPv6 literal; of what
    [socket.gethostbyname] raises, line 86 catches [socket.gaierror] only. *)
Definition validate_ip (sys : system) (ip_or_domain : string)
  : result (option string) :=
  if ip_address_parses sys ip_or_domain then Ok (Some ip_or_domain)
  else
    match gethostbyname sys ip_or_domain with
    | Resolved resolved_ip => Ok (Some resolved_ip)
    | gaierror => Ok None
    | label_empty_or_too_long => Raise UnicodeError
    | embedded_null_character => Raise ValueError
    end.

(** Truth value of [validate_ip]'s result in [if resolved_ip:]. *)
Definition truthy (r : option string) : bool :=
  match r with
  | Some s => negb (String.eqb s "")
  | None => false
  end.

(** [str.isspace] on the code points below 256: the ASCII controls 9-13
    and 28-31, the space, U+0085 and U+00A0. *)
Definition is_space (c : ascii) : bool :=
  let n := nat_of_ascii c in
  ((9 <=? n)%nat && (n <=? 13)%nat) || ((28 <=? n)%nat && (n <=? 32)%nat)
  || (n =? 133)%nat || (n =? 160)%nat.

Fixpoint lstrip (s : string) : string :=
  match s with
  | EmptyString => EmptyString
  | String c s' => if is_space c then lstrip s' else s
  end.

Definition strip (s : string) : string :=
  String.rev (lstrip (String.rev (lstrip s))).

(** The body of the loop of lines 104-110 for one line of the file: the
    entry the line adds to [ips], if any. *)
Definition read_line (sys : system) (line : string) : result (option string) :=
  let line := strip line in
  if negb (String.eqb line "") && negb (String.prefix "#" line) then
    resolved ← validate_ip sys line;
    Ok (if truthy resolved then Some line else None)
  else Ok None.

(** [read_ips_from_file] (lines 89-114): a missing file gives the empty
    list, and so does any exception raised while the file is opened or
    read, or by [validate_ip] on one of its lines (line 112): the entries
    read before it are dropped. *)
Definition read_ips_from_file (sys : system) (filename : string) : list string :=
  match file_system sys filename with
  | Missing => []
  | Unreadable => []
  | Readable lines =>
      match mapM (read_line sys) lines with
      | Ok entries => omap id entries
      | Raise _ => []
      end
  end.

(** The parsed command line ([argparse]'s namespace before [ip_mappings] is
    added).  A [float] is what [argparse] reads with [type=float]: the text
    may also be [inf], [-inf] or [nan]. *)
Record namespace := Namespace {
  ips : list string;
  interval : float;
  timeout : float;
  count : Z;
  no_color : bool;
  file : option string
}.

(** Lines 132-135: the positional arguments, then the entries of the file
    when a file is named. *)
Definition input_ips (sys : system) (args : namespace) : list string :=
  let file_ips :=
    match file args with
    | Some name => if String.eqb name "" then [] else read_ips_from_file sys name
    | None => []
    end in
  ips args ++ file_ips.

(** The body of the loop of lines 140-147 for one input: the mapping it
    adds, if any. *)
Definition mapping_of (sys : system) (ip_or_domain : string)
  : result (option (string * string)) :=
  resolved_ip ← validate_ip sys ip_or_domain;
  Ok match resolved_ip with
     | Some resolved_ip =>
         if String.eqb resolved_ip "" then None
         else Some (ip_or_domain, resolved_ip)
     | None => None
     end.

(** The loop of lines 140-147: one mapping per input that validates; an
    exception of [validate_ip] ends it. *)
Definition build_mappings (sys : system) (input_ips : list string)
  : result (list (string * string)) :=
  omap id <$> mapM (mapping_of sys) input_ips.

(** [parse_arguments] (lines 116-151); the result is [args.ip_mappings].
    [parser.error] prints the message and exits with status 2. *)
Definition parse_arguments (sys : system) (args : namespace)
  : result (list (string * string)) :=
  match input_ips sys args with
  | [] =>
      Raise (SystemExit 2
        "No IPs provided. Use IP arguments or -f/--file with a valid IP file")
  | _ =>
      ip_mappings ← build_mappings sys (input_ips sys args);
      match ip_mappings with
      | [] => Raise (SystemExit 2 "No valid IP addresses or domains provided")
      | _ => Ok ip_mappings
      end
  end.

(** ** Prober *)

(** What the ping subprocess did within the wait bound: it ended and its
    standard output decoded to [stdout]; [asyncio.wait_for] ran into its
    deadline; or any other exception was raised while starting the process,
    talking to it or decoding its output. *)
Inductive proc_event :=
| Completed (stdout : string)
| DeadlineExpired
| Failed (error : string).

Definition is_digit (c : ascii) : bool :=
  let n := nat_of_ascii c in (48 <=? n)%nat && (n <=? 57)%nat.

(** The longest run of digits at the front of [s], and what follows it. *)
Fixpoint span_digits (s : string) : string * string :=
  match s with
  | EmptyString => (EmptyString, EmptyString)
  | String c s' =>
      if is_digit c then
        let '(ds, rest) := span_digits s' in (String c ds, rest)
      else (EmptyString, s)
  end.

(** The group of the pattern at the front of [s]: one or more digits, an
    optional point, any number of digits.  Every quantifier is greedy and
    nothing follows the group, so the first attempt is the match. *)
Definition match_number (s : string) : option string :=
  let '(whole, rest) := span_digits s in
  match whole with
  | EmptyString => None
  | _ =>
      match rest with
      | String "."%char rest' => Some (whole +:+ "." +:+ (span_digits rest').1)
      | _ => Some whole
      end
  end.

(** The pattern of line 171 anchored at the front of [s]: the letters
    [time], one of [<] and [=], and the group; the result is [group(1)]. *)
Definition match_time_here (s : string) : option string :=
  match s with
  | String "t"%char (String "i"%char (String "m"%char (String "e"%char
      (String c rest)))) =>
      if Ascii.eqb c "<" || Ascii.eqb c "=" then match_number rest else None
  | _ => None
  end.

(** [re.search] for that pattern in [output]: the leftmost match. *)
Fixpoint re_search_time (output : string) : option string :=
  match match_time_here output with
  | Some group => Some group
  | None =>
      match output with
      | EmptyString => None
      | String _ output' => re_search_time output'
      end
  end.

Definition digit_value (c : ascii) : Z := Z.of_nat (nat_of_ascii c) - 48.

(** The digits of [s] read in base ten, most significant first, after
    [acc]; characters that are not digits are skipped. *)
Fixpoint read_digits (acc : Z) (s : string) : Z :=
  match s with
  | EmptyString => acc
  | String c s' =>
      read_digits (if is_digit c then 10 * acc + digit_value c else acc) s'
  end.

(** [float(text)] for a text the group matches: the digits as an integer
    over ten to the number of digits after the point. *)
Definition float_of_string (text : string) : Q :=
  let '(whole, rest) := span_digits text in
  let fraction :=
    match rest with
    | String _ rest' => (span_digits rest').1
    | EmptyString => EmptyString
    end in
  Qmake (read_digits 0 (whole +:+ fraction))
        (Z.to_pos (10 ^ Z.of_nat (String.length fraction))).

(** [int(x)] on a float: the fractional part is dropped, towards zero. *)
Definition int_of_float (x : Q) : Z := Z.quot (Qnum x) (Zpos (Qden x)).

(** [str(n)] on an int. *)
Definition str_of_int (n : Z) : string := NilZero.string_of_int (Z.to_int n).

(** The rational a finite binary64 float stands for; an infinity and
    [nan] stand for none. *)
Definition exact_value (x : float) : option Q :=
  match Prim2SF x with
  | S754_zero _ => Some 0%Q
  | S754_finite negative m e =>
      Some ((if negative then -1 else 1) * inject_Z (Zpos m) * 2 ^ e)%Q
  | S754_infinity _ => None
  | S754_nan => None
  end.

(** [int(x)] on a binary64 float: the value is truncated; an infinity
    raises [OverflowError] and [nan] raises [ValueError]. *)
Definition py_int (x : float) : result Z :=
  match exact_value x with
  | Some q => Ok (int_of_float q)
  | None =>
      Raise match Prim2SF x with
            | S754_nan => ValueError
            | _ => OverflowError
            end
  end.

(** The command line of line 165, which is built before the [try]. *)
Definition ping_command (sys : system) (ip : string) (timeout : float)
  : result string :=
  let param := if is_windows sys then "-n" else "-c" in
  let timeout_param := if is_windows sys then "-w" else "-W" in
  seconds ← py_int timeout;
  Ok ("ping " +:+ param +:+ " 1 " +:+ timeout_param +:+ " "
        +:+ str_of_int seconds +:+ " " +:+ ip).

(** [ping_ip] (lines 153-180).  [shell cmd bound] is what happens to the
    subprocess started for [cmd] when its output is awaited for at most
    [bound] seconds. *)
Definition ping_ip (sys : system) (shell : string -> float -> proc_event)
    (ip : string) (timeout : float) : result (option Q) :=
  cmd ← ping_command sys ip timeout;
  Ok match shell cmd (timeout + 1)%float with
     | Completed output =>
         match re_search_time output with
         | Some group => Some (float_of_string group)
         | None => None
         end
     | DeadlineExpired => None
     | Failed _ => None
     end.

(** [ping_all_ips] (lines 182-194): task [i] pings [ips[i]]; the results, in
    task order, are zipped with [ips] into a dict.  An exception of a task
    leaves [asyncio.gather] and the function. *)
Definition ping_all_ips (sys : system)
    (shell : nat -> string -> float -> proc_event) (ips : list string)
    (timeout : float) : result (list (string * option Q)) :=
  results ← mapM (fun task : nat * string =>
                    ping_ip sys (shell task.1) task.2 timeout)
                 (enumerate ips);
  Ok (dict_of_items (zip ips results)).

(** ** Statistics *)

Definition Qlt_bool (x y : Q) : bool := negb (Qle_bool y x).

(** [min(first, *rest)]: the running minimum changes only for a strictly
    smaller item. *)
Definition py_min (first : Q) (rest : list Q) : Q :=
  foldl (fun m x => if Qlt_bool x m then x else m) first rest.

Definition py_max (first : Q) (rest : list Q) : Q :=
  foldl (fun m x => if Qlt_bool m x then x else m) first rest.

Definition py_sum (xs : list Q) : Q := foldl Qplus 0%Q xs.

Fixpoint insert_number (x : Q) (xs : list Q) : list Q :=
  match xs with
  | [] => [x]
  | y :: ys => if Qlt_bool y x then y :: insert_number x ys else x :: y :: ys
  end.

(** [sorted(data)] on numbers. *)
Definition sort_numbers (xs : list Q) : list Q := foldr insert_number [] xs.

(** [statistics.median(data)] for non-empty [data]: the middle element of
    the sorted data, or the mean of the two middle ones. *)
Definition median (data : list Q) : Q :=
  let data := sort_numbers data in
  let n := length data in
  if Nat.odd n then nth (n / 2) data 0%Q
  else ((nth (n / 2 - 1) data 0 + nth (n / 2) data 0) / 2)%Q.

Record statistics := Statistics {
  stat_min : option Q;
  stat_max : option Q;
  stat_avg : option Q;
  stat_median : option Q;
  stat_loss : Q
}.

Definition float_of_nat (n : nat) : Q := inject_Z (Z.of_nat n).

(** The non-[None] entries, in order (line 205). *)
Definition valid_pings (history : list (option Q)) : list Q := omap id history.

(** [calculate_statistics] (lines 196-214). *)
Definition calculate_statistics (history : list (option Q)) : statistics :=
  let valid := valid_pings history in
  let total_pings := length history in
  match valid with
  | [] => Statistics None None None None 100
  | first :: rest =>
      Statistics
        (Some (py_min first rest))
        (Some (py_max first rest))
        (Some (py_sum valid / float_of_nat (length valid))%Q)
        (Some (median valid))
        ((1 - float_of_nat (length valid) / float_of_nat total_pings) * 100)%Q
  end.

(** ** Statistics in binary64 *)

(** The functions of [calculate_statistics] (lines 196-214) once more, on
    the primitive binary64 floats: comparison, sum, difference, product
    and quotient are those of IEEE 754, as Python's are.  [sum] adds from
    left to right starting from 0, as CPython does up to version 3.11;
    [len(a) / len(b)] on the integers of a window is the quotient of the
    two floats, and [statistics.median] sorts and takes the middle item or
    the mean of the two middle ones. *)
Module Binary64.

Definition py_min (first : float) (rest : list float) : float :=
  foldl (fun m x => if PrimFloat.ltb x m then x else m) first rest.

Definition py_max (first : float) (rest : list float) : float :=
  foldl (fun m x => if PrimFloat.ltb m x then x else m) first rest.

Definition py_sum (xs : list float) : float := foldl PrimFloat.add 0%float xs.

Fixpoint insert_number (x : float) (xs : list float) : list float :=
  match xs with
  | [] => [x]
  | y :: ys =>
      if PrimFloat.ltb y x then y :: insert_number x ys else x :: y :: ys
  end.

Definition sort_numbers (xs : list float) : list float :=
  foldr insert_number [] xs.

Definition middle (data : list float) : float :=
  let n := length data in
  if Nat.odd n then nth (n / 2) data 0%float
  else ((nth (n / 2 - 1) data 0 + nth (n / 2) data 0) / 2)%float.

Definition median (data : list float) : float := middle (sort_numbers data).

Record statistics := Statistics {
  stat_min : option float;
  stat_max : option float;
  stat_avg : option float;
  stat_median : option float;
  stat_loss : float
}.

Definition float_of_nat (n : nat) : float :=
  PrimFloat.of_uint63 (Uint63.of_Z (Z.of_nat n)).

Definition valid_pings (history : list (option float)) : list float :=
  omap id history.

Definition calculate_statistics (history : list (option float)) : statistics :=
  let valid := valid_pings history in
  let total_pings := length history in
  match valid with
  | [] => Statistics None None None None 100
  | first :: rest =>
      Statistics
        (Some (py_min first rest))
        (Some (py_max first rest))
        (Some (py_sum valid / float_of_nat (length valid))%float)
        (Some (median valid))
        ((1 - float_of_nat (length valid) / float_of_nat total_pings) * 100)%float
  end.

End Binary64.

(** A list of floats in which no item is less than an item before it. *)
Definition ascending (xs : list float) : Prop :=
  StronglySorted (fun a b => PrimFloat.ltb b a = false) xs.

(** The loss computed for [v] successes among [n] entries. *)
Definition loss_of (v n : nat) : float :=
  ((1 - Binary64.float_of_nat v / Binary64.float_of_nat n) * 100)%float.

(** The loss is a finite number within 10^-13 of the exact percentage. *)
Definition loss_close (v n : nat) : bool :=
  match exact_value (loss_of v n) with
  | Some q =>
      Qle_bool
        (Qabs (q - inject_Z (Z.of_nat (n - v)) / inject_Z (Z.of_nat n) * 100))
        (1 # 10000000000000)
  | None => false
  end.

(** ** History store *)

(** [collections.deque(maxlen=n)]. *)
Record deque (A : Type) := Deque {
  maxlen : nat;
  items : list A
}.

Arguments Deque {A} maxlen items.
Arguments maxlen {A} d.
Arguments items {A} d.

(** [d.append(x)]: the item goes to the right end; a deque longer than its
    [maxlen] then drops its leftmost item. *)
Definition deque_append {A : Type} (d : deque A) (x : A) : deque A :=
  let grown := items d ++ [x] in
  Deque (maxlen d)
        (if (maxlen d <? length grown)%nat then tail grown else grown).

(** One target's entry of [histories] (line 355). *)
Record history := History {
  pings : deque (option Q);
  total_packets : Z;
  success_packets : Z;
  failed_packets : Z
}.

Definition new_history : history :=
  History (Deque MAX_HISTORY []) 0 0 0.

(** The dict comprehension of line 355. *)
Definition init_histories (ip_mappings : list (string * string))
  : gmap string history :=
  foldl (fun hs m => <[m.1 := new_history]> hs) ∅ ip_mappings.

(** Lines 367-372 for one target. *)
Definition record_result (h : history) (res : option Q) : history :=
  History
    (deque_append (pings h) res)
    (total_packets h + 1)
    (match res with Some _ => success_packets h + 1 | None => success_packets h end)
    (match res with Some _ => failed_packets h | None => failed_packets h + 1 end).

(** The loop of lines 366-372 over [ping_data_mapped.items()]. *)
Fixpoint record_round (round_items : list (string * option Q))
    (histories : gmap string history) : result (gmap string history) :=
  match round_items with
  | [] => Ok histories
  | (original, res) :: rest =>
      match histories !! original with
      | None => Raise (KeyError original)
      | Some h => record_round rest (<[original := record_result h res]> histories)
      end
  end.

(** ** Presenter *)

(** What [print_ping_results] prints, without its layout: a table row per
    target, the two warnings, and a row of the packet table. *)
Inductive line :=
| StatusRow (ip resolved_ip : string) (last : option Q) (stats : statistics)
| LossWarning (ip : string) (loss : Q)
| LatencyWarning (ip : string) (latency : Q)
| PacketRow (ip resolved_ip : string) (total success failed : Z).

Definition getitem (histories : gmap string history) (ip : string)
  : result history :=
  match histories !! ip with
  | Some h => Ok h
  | None => Raise (KeyError ip)
  end.

Definition mapping_getitem (mapping_dict : list (string * string)) (ip : string)
  : result string :=
  match dict_getitem ip mapping_dict with
  | Some resolved_ip => Ok resolved_ip
  | None => Raise (KeyError ip)
  end.

(** Lines 328-331: the warnings under a target's row. *)
Definition warnings (ip : string) (stats : statistics) (current_time : option Q)
  : list line :=
  (if Qlt_bool LOSS_THRESHOLD (stat_loss stats)
   then [LossWarning ip (stat_loss stats)] else [])
  ++ match current_time with
     | Some t => if Qlt_bool LATENCY_THRESHOLD t then [LatencyWarning ip t] else []
     | None => []
     end.

(** The body of the loop of lines 306-331. *)
Definition status_lines (ping_data : list (string * option Q))
    (histories : gmap string history) (mapping_dict : list (string * string))
    (ip : string) : result (list line) :=
  h ← getitem histories ip;
  let stats := calculate_statistics (items (pings h)) in
  current_time ← match dict_getitem ip ping_data with
                 | Some t => Ok t
                 | None => Raise (KeyError ip)
                 end;
  resolved_ip ← mapping_getitem mapping_dict ip;
  Ok (StatusRow ip resolved_ip current_time stats
        :: warnings ip stats current_time).

(** The body of the loop of lines 339-344. *)
Definition packet_line (histories : gmap string history)
    (mapping_dict : list (string * string)) (ip : string) : result line :=
  h ← getitem histories ip;
  resolved_ip ← mapping_getitem mapping_dict ip;
  Ok (PacketRow ip resolved_ip
        (total_packets h) (success_packets h) (failed_packets h)).

(** The two tables of [print_ping_results] (lines 295-346). *)
Definition print_tables (ping_data : list (string * option Q))
    (histories : gmap string history) (ip_mappings : list (string * string))
  : result (list line) :=
  let mapping_dict := dict_of_items ip_mappings in
  rows ← mapM (status_lines ping_data histories mapping_dict)
              (sorted (dict_keys ping_data));
  packets ← mapM (packet_line histories mapping_dict)
                 (sorted (dict_keys ping_data));
  Ok (concat rows ++ packets).

(** [print_ping_results] (lines 278-346): the width of the terminal is
    asked for (line 288) before anything is printed. *)
Definition print_ping_results (sys : system)
    (ping_data : list (string * option Q))
    (histories : gmap string history) (ip_mappings : list (string * string))
  : result (list line) :=
  terminal_width ← match get_terminal_size sys with
                   | Some columns => Ok columns
                   | None => Raise OSError
                   end;
  print_tables ping_data histories ip_mappings.

(** ** Round scheduler *)

(** Line 365: the i-th value of [ping_data] goes under the i-th original
    name. *)
Definition map_to_originals (ip_mappings : list (string * string))
    (ping_data : list (string * option Q)) : result (list (string * option Q)) :=
  dict_of_items <$>
    mapM (fun ir : nat * option Q =>
            match ip_mappings !! ir.1 with
            | Some m => Ok (m.1, ir.2)
            | None => Raise IndexError
            end)
         (enumerate (dict_values ping_data)).

(** The monitor's state between rounds, with what the last round printed. *)
Record monitor := Monitor {
  ping_count : Z;
  histories : gmap string history;
  screen : list line
}.

(** One pass through the body of the [while] loop (lines 363-374). *)
Definition round (sys : system)
    (shell : nat -> string -> float -> proc_event)
    (args : namespace) (ip_mappings : list (string * string)) (st : monitor)
  : result monitor :=
  let resolved_ips := ip_mappings.*2 in
  ping_data ← ping_all_ips sys shell resolved_ips (timeout args);
  ping_data_mapped ← map_to_originals ip_mappings ping_data;
  histories' ← record_round ping_data_mapped (histories st);
  printed ← print_ping_results sys ping_data_mapped histories' ip_mappings;
  Ok (Monitor (ping_count st + 1) histories' printed).

(** The loop condition of line 362. *)
Definition keep_going (args : namespace) (st : monitor) : bool :=
  (count args =? 0)%Z || (ping_count st <? count args)%Z.

(** The [while] loop of [main], run for at most [fuel] rounds; [net r] is
    what the subprocesses of round [r] do. *)
Fixpoint main_loop (fuel : nat) (sys : system)
    (net : nat -> nat -> string -> float -> proc_event) (args : namespace)
    (ip_mappings : list (string * string)) (st : monitor) : result monitor :=
  match fuel with
  | O => Ok st
  | S fuel' =>
      if keep_going args st then
        st' ← round sys (net (Z.to_nat (ping_count st))) args ip_mappings st;
        main_loop fuel' sys net args ip_mappings st'
      else Ok st
  end.

(** [main] (lines 348-376) up to [fuel] rounds. *)
Definition main (fuel : nat) (sys : system)
    (net : nat -> nat -> string -> float -> proc_event) (args : namespace)
  : result monitor :=
  ip_mappings ← parse_arguments sys args;
  main_loop fuel sys net args ip_mappings
            (Monitor 0 (init_histories ip_mappings) []).

(** ** Vocabulary of the properties *)

(** The history that results from recording the outcomes of [log], oldest
    first, on top of [h]. *)
Definition replay (h : history) (log : list (option Q)) : history :=
  foldl record_result h log.

(** [h'] is [h] after some further records. *)
Definition recorded (h h' : history) : Prop := exists log, h' = replay h log.

(** The lifetime counters add up. *)
Definition counters_ok (h : history) : Prop :=
  total_packets h = (success_packets h + failed_packets h)%Z.

(** The window is within the capacity the program configures. *)
Definition window_ok (h : history) : Prop :=
  maxlen (pings h) = MAX_HISTORY /\
  (length (items (pings h)) <= MAX_HISTORY)%nat.

(** Every target of [ip_mappings] has its history. *)
Definition tracked (ip_mappings : list (string * string))
    (hs : gmap string history) : Prop :=
  forall original, original ∈ ip_mappings.*1 -> is_Some (hs !! original).

(** A state the monitor can be in: every target is tracked, and every
    history is the empty one with some outcomes recorded. *)
Definition reachable (ip_mappings : list (string * string)) (st : monitor)
  : Prop :=
  tracked ip_mappings (histories st) /\
  forall original h,
    histories st !! original = Some h -> recorded new_history h.

(** Number of failed entries of a window. *)
Fixpoint failures (history : list (option Q)) : nat :=
  match history with
  | [] => 0
  | None :: history' => S (failures history')
  | Some _ :: history' => failures history'
  end.

(** An optional statistic that is present and has the value [q]. *)
Definition stat_is (x : option Q) (q : Q) : Prop :=
  exists v, x = Some v /\ (v == q)%Q.

(** A float that is a number: neither an infinity nor [nan]. *)
Definition finite (x : float) : Prop := exists t, exact_value x = Some t.

Definition infinite (x : float) : Prop :=
  exists negative, Prim2SF x = S754_infinity negative.

Definition not_a_number (x : float) : Prop := Prim2SF x = S754_nan.

(** An environment in which round follows round: standard output is a
    terminal, the timeout of the command line is a finite number, and so
    is the interval, so that the sleep of line 376 ends. *)
Definition dependable (sys : system) (args : namespace) : Prop :=
  (exists columns, get_terminal_size sys = Some columns) /\
  finite (timeout args) /\
  finite (interval args).

(** What a probe with the finite timeout [t] returns. *)
Definition probe (sys : system) (shell : string -> float -> proc_event)
    (ip : string) (t : float) : option Q :=
  match ping_ip sys shell ip t with
  | Ok res => res
  | Raise _ => None
  end.

(** The dict of a round of probes with the finite timeout [t]. *)
Definition probes (sys : system)
    (shell : nat -> string -> float -> proc_event) (ips : list string)
    (t : float) : list (string * option Q) :=
  dict_of_items (zip ips (imap (fun i ip => probe sys (shell i) ip t) ips)).

(** An input that becomes a target: [validate_ip] returns a non-empty
    address for it. *)
Definition valid_input (sys : system) (input : string) : bool :=
  match validate_ip sys input with
  | Ok resolved => truthy resolved
  | Raise _ => false
  end.

(** A stripped line of a file that becomes an entry: it is not blank, is
    no comment, and validates. *)
Definition keeps_entry (sys : system) (entry : string) : bool :=
  negb (String.eqb entry "") && negb (String.prefix "#" entry)
  && valid_input sys entry.

(** ** Colours, the latency bar and the name column *)

(** ANSI colour codes (lines 44-49); the first character is ESC. *)
Definition GREEN : string := String "027" "[92m".
Definition YELLOW : string := String "027" "[93m".
Definition RED : string := String "027" "[91m".
Definition BLUE : string := String "027" "[94m".
Definition BOLD : string := String "027" "[1m".
Definition RESET : string := String "027" "[0m".

(** [get_time_color] (lines 216-233). *)
Definition get_time_color (ping_time : option Q) (use_color : bool) : string :=
  match ping_time with
  | None => ""
  | Some t =>
      if negb use_color then ""
      else if Qlt_bool t 50 then GREEN
      else if Qlt_bool t 100 then YELLOW
      else RED
  end.

(** [get_loss_color] (lines 235-252). *)
Definition get_loss_color (loss : Q) (use_color : bool) : string :=
  if negb use_color then ""
  else if Qlt_bool loss 5 then GREEN
  else if Qlt_bool loss 20 then YELLOW
  else RED.

(** [s * n] on a str and an int: [n] copies of [s], none when [n] is not
    positive. *)
Definition str_mul (s : string) (n : Z) : string :=
  Nat.iter (Z.to_nat n) (fun acc => s +:+ acc) "".

(** The number of bars of lines 267-269. *)
Definition bar_length (ping_time : Q) (max_length : Z) : Z :=
  let bar_length := Z.min (int_of_float (ping_time / 5)) max_length in
  if Qlt_bool 0 ping_time && (bar_length =? 0)%Z then 1%Z else bar_length.

(** [get_ping_bar] (lines 254-272). *)
Definition get_ping_bar (ping_time : option Q) (use_color : bool)
    (max_length : Z) : string :=
  match ping_time with
  | None => "N/A"
  | Some t =>
      let bar := str_mul "||" (bar_length t max_length) in
      let color := get_time_color ping_time use_color in
      color +:+ (if use_color then BOLD else "") +:+ bar
        +:+ (if use_color then RESET else "")
  end.

(** The name shown for a target (lines 296 and 322). *)
Definition display_ip (original resolved : string) : string :=
  if String.eqb original resolved then original
  else original +:+ " (" +:+ resolved +:+ ")".

(** [max(xs, default=d, key=key)]: the first item whose key no item
    exceeds. *)
Definition py_max_key {A : Type} (key : A -> nat) (default : A) (xs : list A)
  : A :=
  match xs with
  | [] => default
  | x :: xs' => foldl (fun m y => if (key m <? key y)%nat then y else m) x xs'
  end.

(** Lines 296-298: the width of the first column. *)
Definition ip_column_width (ip_mappings : list (string * string)) : nat :=
  let ip_display_lengths :=
    (fun m : string * string => String.length (display_ip m.1 m.2))
      <$> ip_mappings in
  (py_max_key (fun x => if (15 <? x)%nat then x else 15%nat) 15%nat
              ip_display_lengths + 2)%nat.

(** ** Further vocabulary *)

(** The targets of the status rows of a screen, top to bottom. *)
Definition status_ips (out : list line) : list string :=
  omap (fun l => match l with StatusRow ip _ _ _ => Some ip | _ => None end) out.

(** The targets of the packet rows of a screen, top to bottom. *)
Definition packet_ips (out : list line) : list string :=
  omap (fun l => match l with PacketRow ip _ _ _ _ => Some ip | _ => None end)
       out.

(** How many entries of [xs] are strictly below, and strictly above, [m]. *)
Definition count_below (m : Q) (xs : list Q) : nat :=
  length (List.filter (fun x => Qlt_bool x m) xs).

Definition count_above (m : Q) (xs : list Q) : nat :=
  length (List.filter (fun x => Qlt_bool m x) xs).

(** The addresses of [ips] without repetition. *)
Definition distinct_addresses (ips : list string) : nat :=
  length (remove_dups ips).

(** ** Scenarios *)

(** Two targets with distinct names and addresses. *)
Definition pair_mappings : list (string * string) :=
  [("a.example", "10.0.0.1"); ("c.example", "10.0.0.2")].

(** A host on which [8.8.8.8] is the only address literal and no name
    resolves. *)
Definition literal_system : system :=
  System false (fun s => String.eqb s "8.8.8.8") (fun _ => gaierror)
         (fun _ => Missing) (Some 80%nat).

(** The command line [8.8.8.8 8.8.8.8 -c 3]. *)
Definition twice_args : namespace :=
  Namespace ["8.8.8.8"; "8.8.8.8"] UPDATE_INTERVAL TIMEOUT
            3 false None.

(** A network on which, in every round, the first probe runs into its
    deadline and every later one is answered in 10.0 ms. *)
Definition first_expires_net (round task : nat) (cmd : string)
    (bound : float) : proc_event :=
  match task with
  | O => DeadlineExpired
  | S _ => Completed "64 bytes from 8.8.8.8: icmp_seq=1 ttl=64 time=10.0 ms"
  end.

(** The same host with a resolver that refuses the name [a..b], whose
    second label is empty. *)
Definition strict_system : system :=
  System false (fun s => String.eqb s "8.8.8.8")
         (fun name => if String.eqb name "a..b" then label_empty_or_too_long
                      else gaierror)
         (fun _ => Missing) (Some 80%nat).

(** The command line [8.8.8.8 a..b]. *)
Definition malformed_args : namespace :=
  Namespace ["8.8.8.8"; "a..b"] UPDATE_INTERVAL TIMEOUT
            0 false None.

(** The command line [8.8.8.8 8.8.8.8 no.such.host]. *)
Definition repeated_args : namespace :=
  Namespace ["8.8.8.8"; "8.8.8.8"; "no.such.host"]
            UPDATE_INTERVAL TIMEOUT 0 false None.

(** A host on which three names resolve, two of them to one address, and
    on which that address answers in 10.0 ms and the other in 30.0 ms. *)
Definition alias_system : system :=
  System false
    (fun _ => false)
    (fun name =>
       if String.eqb name "a.example" then Resolved "10.0.0.1"
       else if String.eqb name "b.example" then Resolved "10.0.0.1"
       else if String.eqb name "c.example" then Resolved "10.0.0.2"
       else gaierror)
    (fun _ => Missing)
    (Some 80%nat).

Definition alias_args : namespace :=
  Namespace ["a.example"; "b.example"; "c.example"]
            UPDATE_INTERVAL TIMEOUT 1 false None.

Definition alias_net (round task : nat) (cmd : string) (bound : float)
  : proc_event :=
  if String.eqb cmd "ping -c 1 -W 2 10.0.0.1"
  then Completed "64 bytes from 10.0.0.1: icmp_seq=1 ttl=64 time=10.0 ms"
  else if String.eqb cmd "ping -c 1 -W 2 10.0.0.2"
  then Completed "64 bytes from 10.0.0.2: icmp_seq=1 ttl=64 time=30.0 ms"
  else Failed "unexpected command".

(** A host with one file of targets: a comment, an address between blanks,
    a blank line, a name that does not resolve and a second address. *)
Definition listing_system : system :=
  System false
    (fun s => String.eqb s "10.0.0.1" || String.eqb s "10.0.0.2"
              || String.eqb s "10.0.0.9")
    (fun _ => gaierror)
    (fun name =>
       if String.eqb name "targets.txt"
       then Readable ["# lab" +:+ String "010" "";
                      "  10.0.0.1 " +:+ String "010" "";
                      String "010" "";
                      "no.such.host" +:+ String "010" "";
                      "10.0.0.2"]
       else Missing)
    (Some 80%nat).

(** The command line [no.such.host 10.0.0.9 -f targets.txt]. *)
Definition listing_args : namespace :=
  Namespace ["no.such.host"; "10.0.0.9"]
            UPDATE_INTERVAL TIMEOUT 0 false (Some "targets.txt").

(** Two targets on the thresholds and above them: the first has lost one
    outcome of five and just answered in 200 ms, the second has lost two of
    four and just answered in 250 ms. *)
Definition edge_histories : gmap string history :=
  <["edge.example" :=
      replay new_history [Some 10%Q; Some 10%Q; None; Some 10%Q; Some 200%Q]]>
  (<["slow.example" :=
      replay new_history [None; Some 30%Q; None; Some 250%Q]]> ∅).

Definition edge_ping_data : list (string * option Q) :=
  [("edge.example", Some 200%Q); ("slow.example", Some 250%Q)].

Definition edge_mappings : list (string * string) :=
  [("edge.example", "10.0.0.1"); ("slow.example", "10.0.0.2")].

Definition edge_screen : list line :=
  Eval vm_compute in
    match print_ping_results literal_system edge_ping_data edge_histories
            edge_mappings with
    | Ok out => out
    | Raise _ => []
    end.

(** * Properties *)

(** ** The [result] monad *)

Lemma bind_Ok {A B : Type} (f : A -> result B) (a : A) : Ok a ≫= f = f a.
Proof. reflexivity. Qed.

Lemma bind_Ok_inv {A B : Type} (f : A -> result B) (m : result A) (b : B) :
  m ≫= f = Ok b -> exists a, m = Ok a /\ f a = Ok b.
Proof. destruct m as [a|e]; [eauto | discriminate]. Qed.

Lemma bind_assoc {A B C : Type} (f : A -> result B) (g : B -> result C)
    (m : result A) :
  (m ≫= f) ≫= g = m ≫= (fun a => f a ≫= g).
Proof. by destruct m. Qed.

Lemma mapM_Ok {A B : Type} (f : A -> result B) (l : list A) :
  (forall x, x ∈ l -> exists y, f x = Ok y) ->
  exists ys, mapM f l = Ok ys /\ Forall2 (fun x y => f x = Ok y) l ys.
Proof.
  induction l as [|x l IH]; intros Hall.
  - exists []. split; [reflexivity | constructor].
  - destruct (Hall x) as [y Hy]; [left |].
    destruct IH as (ys & Hys & HF).
    { intros z Hz. apply Hall. by right. }
    exists (y :: ys). split; [| by constructor].
    cbn [mapM]. rewrite Hy. cbn. fold (mapM f l). rewrite Hys. reflexivity.
Qed.

Lemma mapM_Ok_inv {A B : Type} (f : A -> result B) (l : list A) (ys : list B) :
  mapM f l = Ok ys -> Forall2 (fun x y => f x = Ok y) l ys.
Proof.
  revert ys. induction l as [|x l IH]; intros ys Hm.
  - injection Hm as <-. constructor.
  - cbn [mapM] in Hm. apply bind_Ok_inv in Hm as (y & Hy & Hm).
    fold (mapM f l) in Hm. apply bind_Ok_inv in Hm as (k & Hk & Hm).
    injection Hm as <-. constructor; auto.
Qed.

(** ** Dictionaries *)

Section PyDictFacts.
Context {K V : Type} `{EqDecision K}.
Implicit Types (d its : list (K * V)).

Lemma elem_of_dict_setitem_keys k v d x :
  x ∈ (dict_setitem k v d).*1 <-> x = k \/ x ∈ d.*1.
Proof.
  induction d as [|[k' v'] d IH]; cbn.
  - rewrite list_elem_of_singleton, elem_of_nil. tauto.
  - case_decide; subst; cbn; rewrite ?elem_of_cons, ?IH; intuition congruence.
Qed.

Lemma length_dict_setitem k v d :
  (length (dict_setitem k v d) <= S (length d))%nat.
Proof.
  induction d as [|[k' v'] d IH]; cbn; [lia |].
  case_decide; cbn; lia.
Qed.

Lemma dict_setitem_fresh k v d :
  k ∉ d.*1 -> dict_setitem k v d = d ++ [(k, v)].
Proof.
  induction d as [|[k' v'] d IH]; cbn; [done |].
  rewrite not_elem_of_cons. intros [Hne Hd].
  case_decide; [congruence |]. by rewrite IH.
Qed.

Lemma elem_of_foldl_setitem_keys its d x :
  x ∈ (foldl (fun d kv => dict_setitem kv.1 kv.2 d) d its).*1
  <-> x ∈ d.*1 \/ x ∈ its.*1.
Proof.
  revert d. induction its as [|[k v] its IH]; intros d; cbn.
  - rewrite elem_of_nil. tauto.
  - rewrite IH, elem_of_dict_setitem_keys, elem_of_cons. tauto.
Qed.

Lemma elem_of_dict_of_items_keys its x :
  x ∈ dict_keys (dict_of_items its) <-> x ∈ its.*1.
Proof.
  unfold dict_keys, dict_of_items. rewrite elem_of_foldl_setitem_keys.
  cbn. rewrite elem_of_nil. tauto.
Qed.

Lemma length_foldl_setitem its d :
  (length (foldl (fun d kv => dict_setitem kv.1 kv.2 d) d its)
   <= length d + length its)%nat.
Proof.
  revert d. induction its as [|[k v] its IH]; intros d; cbn; [lia |].
  specialize (IH (dict_setitem k v d)).
  pose proof (length_dict_setitem k v d). lia.
Qed.

Lemma length_dict_of_items its :
  (length (dict_of_items its) <= length its)%nat.
Proof. apply (length_foldl_setitem its []). Qed.

Lemma foldl_setitem_NoDup its d :
  NoDup (d.*1 ++ its.*1) ->
  foldl (fun d kv => dict_setitem kv.1 kv.2 d) d its = d ++ its.
Proof.
  revert d. induction its as [|[k v] its IH]; intros d Hnd; cbn.
  - by rewrite app_nil_r.
  - cbn in Hnd. rewrite dict_setitem_fresh.
    + rewrite IH; [by rewrite <- app_assoc |].
      rewrite fmap_app. cbn. by rewrite <- app_assoc.
    + apply NoDup_app in Hnd as (_ & Hdisj & _).
      intros Hk. apply (Hdisj k Hk). left.
Qed.

(** A list of items with distinct keys is already the dict it builds. *)
Lemma dict_of_items_NoDup its : NoDup its.*1 -> dict_of_items its = its.
Proof. intros Hnd. by apply (foldl_setitem_NoDup its []). Qed.

Lemma dict_getitem_is_Some k d : k ∈ d.*1 -> is_Some (dict_getitem k d).
Proof.
  induction d as [|[k' v] d IH]; cbn.
  - by rewrite elem_of_nil.
  - rewrite elem_of_cons. intros Hk. case_decide; [eauto |].
    apply IH. intuition congruence.
Qed.

End PyDictFacts.

Lemma elem_of_insert_sorted x y xs : x ∈ insert_sorted y xs <-> x = y \/ x ∈ xs.
Proof.
  induction xs as [|z xs IH]; cbn.
  - rewrite list_elem_of_singleton, elem_of_nil. tauto.
  - destruct (String.leb y z); rewrite ?elem_of_cons, ?IH; tauto.
Qed.

(** [sorted] rearranges its argument and nothing else. *)
Lemma elem_of_sorted x xs : x ∈ sorted xs <-> x ∈ xs.
Proof.
  induction xs as [|y xs IH]; cbn; [done |].
  rewrite elem_of_insert_sorted, elem_of_cons, IH. done.
Qed.

(** ** The history store *)

Lemma record_result_total h res :
  total_packets (record_result h res) = (total_packets h + 1)%Z.
Proof. reflexivity. Qed.

Lemma record_result_counters h res :
  counters_ok h -> counters_ok (record_result h res).
Proof. unfold counters_ok. destruct res; cbn; lia. Qed.

Lemma deque_append_maxlen {A : Type} (d : deque A) (x : A) :
  maxlen (deque_append d x) = maxlen d.
Proof. reflexivity. Qed.

(** Within capacity the new item is added; at capacity the leftmost item
    leaves as the new one enters. *)
Lemma deque_append_items {A : Type} (d : deque A) (x : A) :
  (length (items d) <= maxlen d)%nat ->
  items (deque_append d x)
  = drop (length (items d) + 1 - maxlen d) (items d ++ [x]).
Proof.
  intros Hle. unfold deque_append. cbn [items].
  rewrite length_app. cbn [length].
  destruct (Nat.ltb_spec (maxlen d) (length (items d) + 1)) as [Hlt|Hge].
  - replace (length (items d) + 1 - maxlen d)%nat with 1%nat by lia.
    by destruct (items d ++ [x]).
  - replace (length (items d) + 1 - maxlen d)%nat with 0%nat by lia.
    reflexivity.
Qed.

Lemma deque_append_length {A : Type} (d : deque A) (x : A) :
  (length (items d) <= maxlen d)%nat ->
  (length (items (deque_append d x)) <= maxlen d)%nat.
Proof.
  intros Hle. rewrite deque_append_items by done.
  rewrite length_drop, length_app. cbn. lia.
Qed.

Lemma record_result_window h res : window_ok h -> window_ok (record_result h res).
Proof.
  intros [Hm Hl]. split; cbn; [done |].
  rewrite <- Hm. apply deque_append_length. by rewrite Hm.
Qed.

Lemma replay_snoc h log res :
  replay h (log ++ [res]) = record_result (replay h log) res.
Proof. unfold replay. by rewrite foldl_app. Qed.

Lemma replay_app h log1 log2 :
  replay h (log1 ++ log2) = replay (replay h log1) log2.
Proof. unfold replay. by rewrite foldl_app. Qed.

Lemma replay_total h log :
  total_packets (replay h log) = (total_packets h + Z.of_nat (length log))%Z.
Proof.
  induction log as [|res log IH] using rev_ind; cbn; [lia |].
  rewrite replay_snoc, record_result_total, IH, length_app. cbn. lia.
Qed.

Lemma replay_counters h log : counters_ok h -> counters_ok (replay h log).
Proof.
  intros Hh. induction log as [|res log IH] using rev_ind; [done |].
  rewrite replay_snoc. by apply record_result_counters.
Qed.

Lemma replay_window_ok h log : window_ok h -> window_ok (replay h log).
Proof.
  intros Hh. induction log as [|res log IH] using rev_ind; [done |].
  rewrite replay_snoc. by apply record_result_window.
Qed.

Lemma failures_app log1 log2 :
  failures (log1 ++ log2) = (failures log1 + failures log2)%nat.
Proof. induction log1 as [|[q|] log1 IH]; cbn; lia. Qed.

Lemma replay_failed h log :
  failed_packets (replay h log)
  = (failed_packets h + Z.of_nat (failures log))%Z.
Proof.
  induction log as [|res log IH] using rev_ind; cbn; [lia |].
  rewrite replay_snoc, failures_app.
  destruct res; cbn; rewrite IH; lia.
Qed.

(** The window is the most recent outcomes, oldest first, as many as the
    capacity allows. *)
Lemma replay_items h log :
  (length (items (pings h)) <= maxlen (pings h))%nat ->
  maxlen (pings (replay h log)) = maxlen (pings h) /\
  items (pings (replay h log))
  = drop (length (items (pings h)) + length log - maxlen (pings h))
         (items (pings h) ++ log).
Proof.
  intros Hle. induction log as [|res log [IHm IHi]] using rev_ind.
  - cbn. rewrite app_nil_r. split; [done |].
    replace (_ + 0 - _)%nat with 0%nat by lia. done.
  - rewrite replay_snoc. cbn [record_result pings].
    rewrite deque_append_maxlen. split; [done |].
    assert (Hlen : (length (items (pings (replay h log)))
                    <= maxlen (pings (replay h log)))%nat).
    { rewrite IHm, IHi, length_drop, length_app. lia. }
    rewrite deque_append_items by done.
    rewrite IHm, IHi, length_drop, !length_app. cbn [length].
    set (n := length (items (pings h))) in *.
    set (m := maxlen (pings h)) in *.
    set (k := length log).
    rewrite (app_assoc (items (pings h)) log [res]).
    rewrite <- drop_app_le by (rewrite length_app; lia).
    rewrite drop_drop. f_equal. lia.
Qed.

Lemma new_history_ok : counters_ok new_history /\ window_ok new_history.
Proof. repeat split; cbn; lia. Qed.

Lemma recorded_refl h : recorded h h.
Proof. by exists []. Qed.

Lemma recorded_trans h1 h2 h3 : recorded h1 h2 -> recorded h2 h3 -> recorded h1 h3.
Proof.
  intros [l1 ->] [l2 ->]. exists (l1 ++ l2). by rewrite replay_app.
Qed.

Lemma recorded_total h h' :
  recorded h h' -> (total_packets h <= total_packets h')%Z.
Proof. intros [log ->]. rewrite replay_total. lia. Qed.

(** ** One round *)

Section PyDictNoDup.
Context {K V : Type} `{EqDecision K}.
Implicit Types (d its : list (K * V)).

Lemma NoDup_dict_setitem k v d : NoDup d.*1 -> NoDup (dict_setitem k v d).*1.
Proof.
  induction d as [|[k' v'] d IH]; cbn.
  - intros _. apply NoDup_singleton.
  - rewrite !NoDup_cons. intros [Hk Hd]. case_decide; cbn.
    + by apply NoDup_cons.
    + apply NoDup_cons. split; [| auto].
      rewrite elem_of_dict_setitem_keys. intros [-> | Hin]; done.
Qed.

Lemma NoDup_foldl_setitem its d :
  NoDup d.*1 -> NoDup (foldl (fun d kv => dict_setitem kv.1 kv.2 d) d its).*1.
Proof.
  revert d. induction its as [|[k v] its IH]; intros d Hd; cbn; [done |].
  apply IH. by apply NoDup_dict_setitem.
Qed.

(** The keys of a dict are distinct. *)
Lemma NoDup_dict_of_items its : NoDup (dict_keys (dict_of_items its)).
Proof. apply NoDup_foldl_setitem. constructor. Qed.

Lemma dict_getitem_None k d : k ∉ d.*1 -> dict_getitem k d = None.
Proof.
  induction d as [|[k' v] d IH]; cbn; [done |].
  rewrite not_elem_of_cons. intros [Hne Hd].
  case_decide; [congruence | auto].
Qed.

End PyDictNoDup.

(** What the record loop leaves under each key: the history it found there,
    with the key's outcome of this round recorded if it has one. *)
Lemma record_round_lookup round_items hs :
  NoDup round_items.*1 ->
  (forall o, o ∈ round_items.*1 -> is_Some (hs !! o)) ->
  exists hs',
    record_round round_items hs = Ok hs' /\
    forall o,
      hs' !! o
      = (fun h => match dict_getitem o round_items with
                  | Some res => record_result h res
                  | None => h
                  end) <$> hs !! o.
Proof.
  revert hs. induction round_items as [|[k r] rest IH]; intros hs Hnd Hdom.
  - exists hs. split; [done |]. intros o. cbn. by destruct (hs !! o).
  - cbn in Hnd. apply NoDup_cons in Hnd as [Hk Hnd].
    destruct (Hdom k) as [h Hh]; [left |].
    destruct (IH (<[k := record_result h r]> hs) Hnd) as (hs' & Hrun & Hlook).
    { intros o Ho. rewrite lookup_insert_is_Some'. right. apply Hdom. by right. }
    exists hs'. split.
    { cbn. by rewrite Hh. }
    intros o. rewrite Hlook. cbn. case_decide as Hko.
    + subst o. rewrite lookup_insert_eq, Hh. cbn.
      by rewrite (dict_getitem_None k rest Hk).
    + by rewrite lookup_insert_ne.
Qed.

Lemma mapM_enumerate_lookup (all ms : list (string * string))
    (vs : list (option Q)) (k : nat) :
  (forall i, ms !! i = all !! (k + i)%nat) ->
  (length vs <= length ms)%nat ->
  mapM (fun ir : nat * option Q =>
          match all !! ir.1 with
          | Some m => Ok (m.1, ir.2)
          | None => Raise IndexError
          end)
       (imap (fun i x => ((k + i)%nat, x)) vs)
  = Ok (zip ms.*1 vs).
Proof.
  revert ms k. induction vs as [|v vs IH]; intros ms k Hall Hlen.
  - cbn. by destruct ms.
  - destruct ms as [|m ms]; [cbn in Hlen; lia |].
    cbn [imap mapM]. cbn [fst snd].
    rewrite <- (Hall 0%nat). cbn [lookup list_lookup].
    cbn. fold (@mapM result _ _ (nat * option Q) (string * option Q)).
    rewrite (imap_ext _ (fun i x => ((S k + i)%nat, x))).
    2: { intros i x _. cbn. f_equal. lia. }
    rewrite (IH ms (S k)); [done | | cbn in Hlen; lia].
    intros i. specialize (Hall (S i)). cbn in Hall.
    replace (S k + i)%nat with (k + S i)%nat by lia. exact Hall.
Qed.

(** Line 365 never runs out of original names, and pairs the first names
    with the values of [ping_data] in order. *)
Lemma map_to_originals_Ok ip_mappings (ping_data : list (string * option Q)) :
  (length ping_data <= length ip_mappings)%nat ->
  map_to_originals ip_mappings ping_data
  = Ok (dict_of_items (zip ip_mappings.*1 (dict_values ping_data))).
Proof.
  intros Hlen. unfold map_to_originals, enumerate.
  rewrite (mapM_enumerate_lookup ip_mappings ip_mappings _ 0); [done | done |].
  unfold dict_values. by rewrite length_fmap.
Qed.

(** What [int] does on each kind of float. *)
Lemma py_int_cases (x : float) :
  (exists t, exact_value x = Some t /\ py_int x = Ok (int_of_float t)) \/
  (infinite x /\ exact_value x = None /\ py_int x = Raise OverflowError) \/
  (not_a_number x /\ exact_value x = None /\ py_int x = Raise ValueError).
Proof.
  unfold py_int, exact_value, infinite, not_a_number.
  destruct (Prim2SF x) as [negative|negative| |negative m e]; eauto 10.
Qed.

Lemma py_int_finite (x : float) t :
  exact_value x = Some t -> py_int x = Ok (int_of_float t).
Proof. unfold py_int. by intros ->. Qed.

(** With a finite timeout no probe raises. *)
Lemma ping_ip_Finite sys shell ip t :
  finite t -> ping_ip sys shell ip t = Ok (probe sys shell ip t).
Proof.
  intros [q Hq]. unfold probe, ping_ip, ping_command.
  by rewrite (py_int_finite t q Hq).
Qed.

Lemma ping_ip_inv sys shell ip timeout res :
  ping_ip sys shell ip timeout = Ok res ->
  finite timeout /\ res = probe sys shell ip timeout.
Proof.
  intros Hrun. unfold probe. rewrite Hrun. split; [| done].
  unfold ping_ip, ping_command in Hrun.
  destruct (py_int_cases timeout)
    as [(t & Ht & _) | [(_ & _ & Hint) | (_ & _ & Hint)]];
    [by exists t | by rewrite Hint in Hrun..].
Qed.

Lemma mapM_ping_ip_Finite sys shell (ips : list string) t k :
  finite t ->
  mapM (fun task : nat * string =>
          ping_ip sys (shell task.1) task.2 t)
       (imap (fun i ip => ((k + i)%nat, ip)) ips)
  = Ok (imap (fun i ip => probe sys (shell (k + i)%nat) ip t) ips).
Proof.
  intros Hfin.
  revert k. induction ips as [|ip ips IH]; intros k; [done |].
  cbn [imap mapM]. cbn [fst snd]. rewrite ping_ip_Finite by done. cbn.
  fold (@mapM result _ _ (nat * string) (option Q)).
  rewrite (imap_ext _ (fun i ip => ((S k + i)%nat, ip))).
  2: { intros i x _. cbn. f_equal. lia. }
  rewrite IH. cbn [mbind result_bind mret result_ret]. f_equal. f_equal.
  apply imap_ext. intros i x _. unfold compose.
  by replace (k + S i)%nat with (S k + i)%nat by lia.
Qed.

Lemma ping_all_ips_Finite sys shell ips t :
  finite t -> ping_all_ips sys shell ips t = Ok (probes sys shell ips t).
Proof.
  intros Hfin. unfold ping_all_ips.
  change (enumerate ips) with (imap (fun i ip => ((0 + i)%nat, ip)) ips).
  by rewrite mapM_ping_ip_Finite.
Qed.

(** With a timeout that is not finite the first probe raises what [int]
    raises. *)
Lemma ping_all_ips_not_finite sys shell ip ips timeout e :
  py_int timeout = Raise e ->
  ping_all_ips sys shell (ip :: ips) timeout = Raise e.
Proof.
  intros Hint. unfold ping_all_ips, enumerate. cbn [imap mapM fst snd].
  assert (Hfirst : ping_ip sys (shell 0%nat) ip timeout = Raise e).
  { unfold ping_ip, ping_command. by rewrite Hint. }
  by rewrite Hfirst.
Qed.

(** A round of probes of at least one address returns only for a finite
    timeout. *)
Lemma ping_all_ips_Ok_finite sys shell ips timeout ping_data :
  ping_all_ips sys shell ips timeout = Ok ping_data ->
  ips <> [] -> finite timeout.
Proof.
  intros Hrun Hne. destruct ips as [|ip ips]; [done |].
  destruct (py_int_cases timeout)
    as [(t & Ht & _) | [(_ & _ & Hint) | (_ & _ & Hint)]];
    [by exists t | |];
    by rewrite (ping_all_ips_not_finite _ _ _ _ _ _ Hint) in Hrun.
Qed.

(** A round of probes that returns is the dict of its probes. *)
Lemma ping_all_ips_inv sys shell ips timeout ping_data :
  ping_all_ips sys shell ips timeout = Ok ping_data ->
  ping_data = probes sys shell ips timeout.
Proof.
  destruct (py_int_cases timeout)
    as [(t & Ht & _) | [(_ & _ & Hint) | (_ & _ & Hint)]].
  - rewrite ping_all_ips_Finite by (by exists t). by intros [= <-].
  - destruct ips as [|ip ips]; [by intros [= <-] |].
    by rewrite (ping_all_ips_not_finite _ _ _ _ _ _ Hint).
  - destruct ips as [|ip ips]; [by intros [= <-] |].
    by rewrite (ping_all_ips_not_finite _ _ _ _ _ _ Hint).
Qed.

Lemma length_probes sys shell ips t :
  (length (probes sys shell ips t) <= length ips)%nat.
Proof.
  unfold probes.
  etransitivity; [apply length_dict_of_items |].
  rewrite length_zip_with, length_imap. lia.
Qed.

Lemma elem_of_zip_fst {A B : Type} (l : list A) (k : list B) x :
  x ∈ (zip l k).*1 -> x ∈ l.
Proof.
  intros Hx. apply list_elem_of_fmap in Hx as ([a b] & -> & Hin).
  by apply elem_of_zip_l in Hin.
Qed.

Lemma status_lines_Ok ping_data hs mapping_dict ip :
  is_Some (hs !! ip) -> ip ∈ dict_keys ping_data -> ip ∈ mapping_dict.*1 ->
  exists current_time h resolved_ip,
    dict_getitem ip ping_data = Some current_time /\
    hs !! ip = Some h /\
    status_lines ping_data hs mapping_dict ip
    = Ok (StatusRow ip resolved_ip current_time
            (calculate_statistics (items (pings h)))
          :: warnings ip (calculate_statistics (items (pings h))) current_time).
Proof.
  intros [h Hh] Hdata Hmap.
  destruct (dict_getitem_is_Some ip ping_data Hdata) as [t Ht].
  destruct (dict_getitem_is_Some ip mapping_dict Hmap) as [r Hr].
  exists t, h, r. repeat split; [done.. |].
  unfold status_lines, getitem, mapping_getitem. rewrite Hh, Ht, Hr. done.
Qed.

Lemma packet_line_Ok hs mapping_dict ip :
  is_Some (hs !! ip) -> ip ∈ mapping_dict.*1 ->
  exists out, packet_line hs mapping_dict ip = Ok out.
Proof.
  intros [h Hh] Hmap.
  destruct (dict_getitem_is_Some ip mapping_dict Hmap) as [r Hr].
  unfold packet_line, getitem, mapping_getitem. rewrite Hh, Hr. eauto.
Qed.

(** Printing raises no [KeyError] when every key printed is a tracked
    target. *)
Lemma print_tables_Ok ping_data hs ip_mappings :
  (forall ip, ip ∈ dict_keys ping_data ->
              is_Some (hs !! ip) /\ ip ∈ ip_mappings.*1) ->
  exists out, print_tables ping_data hs ip_mappings = Ok out.
Proof.
  intros Hkeys. unfold print_tables.
  destruct (mapM_Ok (status_lines ping_data hs (dict_of_items ip_mappings))
              (sorted (dict_keys ping_data))) as (rows & -> & _).
  { intros ip Hip. apply (proj1 (elem_of_sorted _ _)) in Hip.
    destruct (Hkeys ip Hip) as [Hs Hm].
    destruct (status_lines_Ok ping_data hs (dict_of_items ip_mappings) ip)
      as (t & h & r & _ & _ & ->); eauto.
    by apply elem_of_dict_of_items_keys. }
  destruct (mapM_Ok (packet_line hs (dict_of_items ip_mappings))
              (sorted (dict_keys ping_data))) as (packets & -> & _).
  { intros ip Hip. apply (proj1 (elem_of_sorted _ _)) in Hip.
    destruct (Hkeys ip Hip) as [Hs Hm].
    apply packet_line_Ok; [done |]. by apply elem_of_dict_of_items_keys. }
  cbn. eauto.
Qed.

(** With a terminal, [print_ping_results] prints its tables; without one it
    raises [OSError] before them. *)
Lemma print_ping_results_terminal sys ping_data hs ip_mappings :
  (exists columns, get_terminal_size sys = Some columns) ->
  print_ping_results sys ping_data hs ip_mappings
  = print_tables ping_data hs ip_mappings.
Proof. intros [columns Hc]. unfold print_ping_results. by rewrite Hc. Qed.


Lemma print_ping_results_tables sys ping_data hs ip_mappings out :
  print_ping_results sys ping_data hs ip_mappings = Ok out ->
  (exists columns, get_terminal_size sys = Some columns) /\
  print_tables ping_data hs ip_mappings = Ok out.
Proof.
  unfold print_ping_results.
  destruct (get_terminal_size sys) as [columns|]; [| done]. cbn. eauto.
Qed.

(** A round in which the terminal answers and the probes return is the
    record loop over their dict, followed by the tables. *)
Lemma round_unfold sys shell args ip_mappings st t :
  (exists columns, get_terminal_size sys = Some columns) ->
  ping_all_ips sys shell ip_mappings.*2 (timeout args)
  = Ok (probes sys shell ip_mappings.*2 t) ->
  round sys shell args ip_mappings st
  = (ping_data_mapped ← map_to_originals ip_mappings
                          (probes sys shell ip_mappings.*2 t);
     histories' ← record_round ping_data_mapped (histories st);
     printed ← print_tables ping_data_mapped histories' ip_mappings;
     Ok (Monitor (ping_count st + 1) histories' printed)).
Proof.
  intros Hterm Hping. unfold round. rewrite Hping. cbn [mbind result_bind].
  destruct (map_to_originals _ _) as [mapped|e]; [| done]. cbn.
  destruct (record_round mapped (histories st)) as [hs'|e]; [| done]. cbn.
  by rewrite print_ping_results_terminal.
Qed.

(** A round that returns had a terminal and probes that returned. *)
Lemma round_runs sys shell args ip_mappings st st' :
  round sys shell args ip_mappings st = Ok st' ->
  (exists columns, get_terminal_size sys = Some columns) /\
  exists t,
    ping_all_ips sys shell ip_mappings.*2 (timeout args)
    = Ok (probes sys shell ip_mappings.*2 t).
Proof.
  unfold round. intros Hrun.
  apply bind_Ok_inv in Hrun as (ping_data & Hping & Hrun).
  apply bind_Ok_inv in Hrun as (mapped & _ & Hrun).
  apply bind_Ok_inv in Hrun as (hs' & _ & Hrun).
  apply bind_Ok_inv in Hrun as (out & Hout & _).
  apply print_ping_results_tables in Hout as [Hterm _].
  split; [done |].
  rewrite (ping_all_ips_inv _ _ _ _ _ Hping) in Hping. eauto.
Qed.

Lemma dependable_runs sys args shell ips :
  dependable sys args ->
  (exists columns, get_terminal_size sys = Some columns) /\
  exists t,
    ping_all_ips sys shell ips (timeout args) = Ok (probes sys shell ips t).
Proof.
  intros (Hterm & Hfin & _). split; [done |].
  exists (timeout args). by apply ping_all_ips_Finite.
Qed.

(** On tracked targets the record loop and the tables raise nothing, for
    any round of probes: no name is missing at line 365, and no key at
    lines 367-372 and 307-343.  Under every key the loop leaves the history
    it found or that history with one more outcome recorded. *)
Lemma record_phase sys shell ip_mappings hs t :
  tracked ip_mappings hs ->
  exists mapped hs' out,
    map_to_originals ip_mappings (probes sys shell ip_mappings.*2 t)
    = Ok mapped /\
    record_round mapped hs = Ok hs' /\
    print_tables mapped hs' ip_mappings = Ok out /\
    forall o,
      option_Forall2
        (fun h h' => h' = h \/ exists res, h' = record_result h res)
        (hs !! o) (hs' !! o).
Proof.
  intros Htr.
  set (ping_data := probes sys shell ip_mappings.*2 t).
  rewrite map_to_originals_Ok.
  2: { etransitivity; [apply length_probes |]. by rewrite length_fmap. }
  set (mapped := dict_of_items (zip ip_mappings.*1 (dict_values ping_data))).
  assert (Hkeys : forall o, o ∈ dict_keys mapped -> o ∈ ip_mappings.*1).
  { intros o Ho. apply (proj1 (elem_of_dict_of_items_keys _ _)) in Ho.
    by apply elem_of_zip_fst in Ho. }
  destruct (record_round_lookup mapped hs) as (hs' & Hrun & Hlook).
  { apply NoDup_dict_of_items. }
  { intros o Ho. apply Htr, Hkeys, Ho. }
  destruct (print_tables_Ok mapped hs' ip_mappings) as (out & Hout).
  { intros ip Hip. split; [| by apply Hkeys].
    rewrite Hlook. destruct (Htr ip (Hkeys ip Hip)) as [h ->]. by eexists. }
  exists mapped, hs', out. split; [done |]. split; [done |]. split; [done |].
  intros o. rewrite Hlook.
  destruct (hs !! o) as [h|]; cbn; constructor.
  destruct (dict_getitem o mapped); eauto.
Qed.

(** A round on tracked targets, with a terminal and probes that return,
    raises nothing and counts one more round. *)
Lemma round_Ok sys shell args ip_mappings st :
  (exists columns, get_terminal_size sys = Some columns) ->
  (exists t,
      ping_all_ips sys shell ip_mappings.*2 (timeout args)
      = Ok (probes sys shell ip_mappings.*2 t)) ->
  tracked ip_mappings (histories st) ->
  exists st',
    round sys shell args ip_mappings st = Ok st' /\
    ping_count st' = (ping_count st + 1)%Z /\
    forall o,
      option_Forall2
        (fun h h' => h' = h \/ exists res, h' = record_result h res)
        (histories st !! o) (histories st' !! o).
Proof.
  intros Hterm [t Hping] Htr. rewrite (round_unfold _ _ _ _ _ t Hterm Hping).
  destruct (record_phase sys shell ip_mappings (histories st) t Htr)
    as (mapped & hs' & out & -> & Hrec & Hout & Hstep).
  cbn. rewrite Hrec. cbn. rewrite Hout. cbn.
  eexists. split; [done |]. split; [done |]. exact Hstep.
Qed.





(** What a round that returns has done. *)
Lemma round_step sys shell args ip_mappings st st' :
  tracked ip_mappings (histories st) ->
  round sys shell args ip_mappings st = Ok st' ->
  ping_count st' = (ping_count st + 1)%Z /\
  forall o,
    option_Forall2
      (fun h h' => h' = h \/ exists res, h' = record_result h res)
      (histories st !! o) (histories st' !! o).
Proof.
  intros Htr Hrun. destruct (round_runs _ _ _ _ _ _ Hrun) as [Hterm Hping].
  destruct (round_Ok sys shell args ip_mappings st Hterm Hping Htr)
    as (st2 & Hrun2 & H).
  rewrite Hrun in Hrun2. by injection Hrun2 as <-.
Qed.

(** ** The loop *)

Lemma init_histories_lookup ip_mappings (acc : gmap string history) o :
  foldl (fun hs (m : string * string) => <[m.1 := new_history]> hs)
        acc ip_mappings !! o
  = if decide (o ∈ ip_mappings.*1) then Some new_history else acc !! o.
Proof.
  revert acc. induction ip_mappings as [|[k r] l IH]; intros acc; cbn.
  - rewrite decide_False; [done | apply not_elem_of_nil].
  - rewrite IH. destruct (decide (o ∈ l.*1)) as [Hin|Hnin].
    + rewrite decide_True; [done | by right].
    + destruct (decide (k = o)) as [->|Hne].
      * rewrite lookup_insert_eq. rewrite decide_True; [done | left].
      * rewrite lookup_insert_ne by done.
        rewrite decide_False; [done |].
        rewrite not_elem_of_cons. split; [congruence | done].
Qed.

Lemma reachable_init ip_mappings :
  reachable ip_mappings (Monitor 0 (init_histories ip_mappings) []).
Proof.
  split; cbn; unfold init_histories.
  - intros o Ho. rewrite init_histories_lookup, decide_True by done. eauto.
  - intros o h. rewrite init_histories_lookup, lookup_empty.
    case_decide; [| done]. intros [= <-]. apply recorded_refl.
Qed.

Lemma recorded_one h res : recorded h (record_result h res).
Proof. by exists [res]. Qed.

(** A round that returns takes a reachable state to a reachable state. *)
Lemma round_reachable sys shell args ip_mappings st st' :
  reachable ip_mappings st ->
  round sys shell args ip_mappings st = Ok st' ->
  reachable ip_mappings st' /\
  ping_count st' = (ping_count st + 1)%Z /\
  forall o, option_Forall2 recorded (histories st !! o) (histories st' !! o).
Proof.
  intros [Htr Hrec] Hrun.
  destruct (round_step sys shell args ip_mappings st st' Htr Hrun)
    as (Hcount & Hstep).
  assert (Hstep' : forall o,
             option_Forall2 recorded (histories st !! o) (histories st' !! o)).
  { intros o. destruct (Hstep o) as [h h' [-> | [res ->]] |]; constructor.
    - apply recorded_refl.
    - apply recorded_one. }
  repeat split; [| | done | done].
  - intros o Ho. destruct (Htr o Ho) as [h Hh].
    specialize (Hstep' o). rewrite Hh in Hstep'. inversion Hstep'. eauto.
  - intros o h' Hh'. specialize (Hstep' o). rewrite Hh' in Hstep'.
    inversion Hstep' as [h ? Hhh' Heq|]; subst.
    eapply recorded_trans; [| exact Hhh']. eapply Hrec. eauto.
Qed.

(** In a dependable environment a round from a reachable state returns. *)
Lemma round_progress sys shell args ip_mappings st :
  dependable sys args ->
  reachable ip_mappings st ->
  exists st', round sys shell args ip_mappings st = Ok st'.
Proof.
  intros Henv [Htr _].
  destruct (dependable_runs sys args shell ip_mappings.*2 Henv)
    as [Hterm Hping].
  destruct (round_Ok sys shell args ip_mappings st Hterm Hping Htr)
    as (st' & Hrun & _).
  eauto.
Qed.

(** The loop ends, when it returns, in a reachable state whose histories
    continue those it started from. *)
Lemma main_loop_reachable fuel sys net args ip_mappings st st' :
  reachable ip_mappings st ->
  main_loop fuel sys net args ip_mappings st = Ok st' ->
  reachable ip_mappings st' /\
  forall o, option_Forall2 recorded (histories st !! o) (histories st' !! o).
Proof.
  revert st. induction fuel as [|fuel IH]; intros st Hst Hrun.
  - injection Hrun as <-. split; [done |].
    intros o. destruct (histories st !! o); constructor. apply recorded_refl.
  - cbn [main_loop] in Hrun. destruct (keep_going args st).
    + apply bind_Ok_inv in Hrun as (st1 & Hround & Hrun).
      destruct (round_reachable _ _ _ _ _ _ Hst Hround) as (Hst1 & _ & Hstep1).
      destruct (IH st1 Hst1 Hrun) as (Hst' & Hstep).
      split; [done |].
      intros o. specialize (Hstep1 o). specialize (Hstep o).
      destruct Hstep1 as [h h1 H1|]; inversion Hstep as [? h' H2|]; subst;
        constructor.
      eapply recorded_trans; eauto.
    + injection Hrun as <-. split; [done |].
      intros o. destruct (histories st !! o); constructor. apply recorded_refl.
Qed.

(** In a dependable environment the loop raises nothing from a reachable
    state. *)
Lemma main_loop_Ok fuel sys net args ip_mappings st :
  dependable sys args ->
  reachable ip_mappings st ->
  exists st', main_loop fuel sys net args ip_mappings st = Ok st'.
Proof.
  intros Henv. revert st. induction fuel as [|fuel IH]; intros st Hst.
  - by exists st.
  - cbn [main_loop]. destruct (keep_going args st); [| by exists st].
    destruct (round_progress sys (net (Z.to_nat (ping_count st))) args
                ip_mappings st Henv Hst) as (st1 & Hround).
    rewrite Hround. cbn.
    destruct (round_reachable _ _ _ _ _ _ Hst Hround) as (Hst1 & _).
    by apply IH.
Qed.

(** Running [fuel + more] rounds is running [fuel] rounds and then [more]. *)
Lemma main_loop_add fuel more sys net args ip_mappings st :
  main_loop (fuel + more) sys net args ip_mappings st
  = main_loop fuel sys net args ip_mappings st
      ≫= main_loop more sys net args ip_mappings.
Proof.
  revert st. induction fuel as [|fuel IH]; intros st; [done |].
  cbn [Nat.add main_loop]. destruct (keep_going args st) eqn:Hkg.
  - rewrite bind_assoc.
    destruct (round sys (net (Z.to_nat (ping_count st))) args ip_mappings st);
      cbn; [apply IH | done].
  - cbn. destruct more; cbn [main_loop]; [done | by rewrite Hkg].
Qed.

(** C1: at every point of a run the lifetime counters of every target
    satisfy total = success + failed; a record adds one to total, and
    running on never lowers a target's total.  In a dependable environment
    the run reaches every such point. *)
Theorem lifetime_counters_add_up :
  (forall h res,
      total_packets (record_result h res) = (total_packets h + 1)%Z /\
      (counters_ok h -> counters_ok (record_result h res))) /\
  forall sys net args ip_mappings fuel,
    (dependable sys args ->
     exists st,
       main_loop fuel sys net args ip_mappings
                 (Monitor 0 (init_histories ip_mappings) []) = Ok st) /\
    forall st,
      main_loop fuel sys net args ip_mappings
                (Monitor 0 (init_histories ip_mappings) []) = Ok st ->
      (forall original h,
          histories st !! original = Some h ->
          total_packets h = (success_packets h + failed_packets h)%Z) /\
      forall more st',
        main_loop (fuel + more) sys net args ip_mappings
                  (Monitor 0 (init_histories ip_mappings) []) = Ok st' ->
        forall original h,
          histories st !! original = Some h ->
          exists h', histories st' !! original = Some h' /\
                     (total_packets h <= total_packets h')%Z.
Proof.
  split.
  { intros h res. split; [reflexivity | apply record_result_counters]. }
  intros sys net args ip_mappings fuel. split.
  { intros Henv. apply main_loop_Ok; [done | apply reachable_init]. }
  intros st Hrun.
  destruct (main_loop_reachable fuel sys net args ip_mappings _ _
              (reachable_init ip_mappings) Hrun) as (Hst & _).
  split.
  - intros o h Hh. destruct Hst as [_ Hrec].
    destruct (Hrec o h Hh) as [log ->].
    apply replay_counters, new_history_ok.
  - intros more st' Hrun'. rewrite main_loop_add, Hrun in Hrun'. cbn in Hrun'.
    destruct (main_loop_reachable more sys net args ip_mappings st st' Hst Hrun')
      as (_ & Hstep).
    intros o h Hh. specialize (Hstep o). rewrite Hh in Hstep.
    inversion Hstep as [? h' Hhh'|]; subst.
    exists h'. split; [done |]. by apply recorded_total.
Qed.

(** C2: the window of every target never holds more than [MAX_HISTORY]
    = 50 outcomes, it is always the most recent outcomes recorded for the
    target in their order, and an append to a full window drops the oldest
    entry.  In a dependable environment the run reaches every such
    point. *)
Theorem window_bounded_and_fifo :
  (forall (d : deque (option Q)) (x : option Q),
      length (items d) = maxlen d -> (0 < maxlen d)%nat ->
      items (deque_append d x) = tail (items d) ++ [x]) /\
  MAX_HISTORY = 50%nat /\
  forall sys net args ip_mappings fuel,
    (dependable sys args ->
     exists st,
       main_loop fuel sys net args ip_mappings
                 (Monitor 0 (init_histories ip_mappings) []) = Ok st) /\
    forall st,
      main_loop fuel sys net args ip_mappings
                (Monitor 0 (init_histories ip_mappings) []) = Ok st ->
      forall original h,
        histories st !! original = Some h ->
        maxlen (pings h) = MAX_HISTORY /\
        (length (items (pings h)) <= MAX_HISTORY)%nat /\
        exists log,
          h = replay new_history log /\
          total_packets h = Z.of_nat (length log) /\
          items (pings h) = drop (length log - MAX_HISTORY) log.
Proof.
  split; [| split; [reflexivity |]].
  { intros d x Hfull Hpos. rewrite deque_append_items by lia.
    replace (length (items d) + 1 - maxlen d)%nat with 1%nat by lia.
    destruct (items d); cbn in *; [lia | done]. }
  intros sys net args ip_mappings fuel. split.
  { intros Henv. apply main_loop_Ok; [done | apply reachable_init]. }
  intros st Hrun.
  destruct (main_loop_reachable fuel sys net args ip_mappings _ _
              (reachable_init ip_mappings) Hrun) as ([_ Hrec] & _).
  intros o h Hh. destruct (Hrec o h Hh) as [log ->].
  destruct (replay_window_ok new_history log) as [Hm Hl];
    [apply new_history_ok |].
  split; [done |]. split; [done |].
  exists log. split; [done |]. split.
  - rewrite replay_total. cbn. lia.
  - destruct (replay_items new_history log) as [_ ->]; cbn; [lia | done].
Qed.

(** ** Statistics *)

Lemma Qlt_bool_iff x y : Qlt_bool x y = true <-> (x < y)%Q.
Proof.
  unfold Qlt_bool. rewrite negb_true_iff, <- not_true_iff_false, Qle_bool_iff.
  split; [apply Qnot_le_lt | apply Qlt_not_le].
Qed.

Lemma float_of_nat_add a b :
  (float_of_nat (a + b) == float_of_nat a + float_of_nat b)%Q.
Proof. unfold float_of_nat. by rewrite Nat2Z.inj_add, inject_Z_plus. Qed.

Lemma float_of_nat_pos n : (0 < n)%nat -> (0 < float_of_nat n)%Q.
Proof.
  intros Hn. unfold float_of_nat, Qlt. cbn. lia.
Qed.

Lemma valid_pings_successes (xs : list Q) : valid_pings (Some <$> xs) = xs.
Proof. induction xs as [|x xs IH]; cbn; [done | by f_equal]. Qed.

Lemma valid_pings_cons_None history :
  valid_pings (None :: history) = valid_pings history.
Proof. reflexivity. Qed.

Lemma valid_pings_cons_Some x history :
  valid_pings (Some x :: history) = x :: valid_pings history.
Proof. reflexivity. Qed.

(** Every entry of a window is a success or a failure. *)
Lemma length_valid_failures history :
  length history = (length (valid_pings history) + failures history)%nat.
Proof.
  induction history as [|[x|] history IH]; [done | |].
  - rewrite valid_pings_cons_Some. cbn [length failures]. lia.
  - rewrite valid_pings_cons_None. cbn [length failures]. lia.
Qed.

Lemma elem_of_valid_pings x history : x ∈ valid_pings history <-> Some x ∈ history.
Proof.
  induction history as [|[y|] history IH].
  - cbn. by rewrite !elem_of_nil.
  - rewrite valid_pings_cons_Some, !elem_of_cons, IH.
    split; (intros [Heq | Hin]; [left; congruence | by right]).
  - rewrite valid_pings_cons_None, elem_of_cons, IH.
    split; [by right | by intros [Heq | Hin]].
Qed.

(** [min] returns an item that no item is below. *)
Lemma py_min_spec first rest :
  py_min first rest ∈ first :: rest /\
  forall x, x ∈ first :: rest -> (py_min first rest <= x)%Q.
Proof.
  revert first. induction rest as [|y rest IH]; intros first.
  - cbn. split; [left |]. intros x Hx.
    apply list_elem_of_singleton in Hx as ->. apply Qle_refl.
  - unfold py_min in *. cbn [foldl].
    destruct (IH (if Qlt_bool y first then y else first)) as [Hin Hle].
    split.
    + apply elem_of_cons in Hin as [-> | Hin].
      * destruct (Qlt_bool y first); [right; left | left].
      * right. by right.
    + intros x Hx.
      assert (Hm : ((if Qlt_bool y first then y else first) <= first /\
                    (if Qlt_bool y first then y else first) <= y)%Q).
      { destruct (Qlt_bool y first) eqn:Hlt.
        - apply Qlt_bool_iff in Hlt. split; [by apply Qlt_le_weak | apply Qle_refl].
        - split; [apply Qle_refl |].
          apply Qnot_lt_le. intros Hc. apply Qlt_bool_iff in Hc. congruence. }
      destruct Hm as [Hm1 Hm2].
      pose proof (Hle _ (list_elem_of_here _ _)) as Hr.
      apply elem_of_cons in Hx as [-> | Hx]; [by eapply Qle_trans |].
      apply elem_of_cons in Hx as [-> | Hx]; [by eapply Qle_trans |].
      apply Hle. by right.
Qed.

(** [max] returns an item that no item is above. *)
Lemma py_max_spec first rest :
  py_max first rest ∈ first :: rest /\
  forall x, x ∈ first :: rest -> (x <= py_max first rest)%Q.
Proof.
  revert first. induction rest as [|y rest IH]; intros first.
  - cbn. split; [left |]. intros x Hx.
    apply list_elem_of_singleton in Hx as ->. apply Qle_refl.
  - unfold py_max in *. cbn [foldl].
    destruct (IH (if Qlt_bool first y then y else first)) as [Hin Hle].
    split.
    + apply elem_of_cons in Hin as [-> | Hin].
      * destruct (Qlt_bool first y); [right; left | left].
      * right. by right.
    + intros x Hx.
      assert (Hm : (first <= (if Qlt_bool first y then y else first) /\
                    y <= (if Qlt_bool first y then y else first))%Q).
      { destruct (Qlt_bool first y) eqn:Hlt.
        - apply Qlt_bool_iff in Hlt. split; [by apply Qlt_le_weak | apply Qle_refl].
        - split; [apply Qle_refl |].
          apply Qnot_lt_le. intros Hc. apply Qlt_bool_iff in Hc. congruence. }
      destruct Hm as [Hm1 Hm2].
      pose proof (Hle _ (list_elem_of_here _ _)) as Hr.
      apply elem_of_cons in Hx as [-> | Hx]; [by eapply Qle_trans |].
      apply elem_of_cons in Hx as [-> | Hx]; [by eapply Qle_trans |].
      apply Hle. by right.
Qed.

(** The loss of a non-empty window is its share of failures, in percent. *)
Lemma loss_is_failure_share history :
  history <> [] ->
  (stat_loss (calculate_statistics history)
   == float_of_nat (failures history) / float_of_nat (length history) * 100)%Q.
Proof.
  intros Hne.
  assert (Hpos : (0 < float_of_nat (length history))%Q).
  { apply float_of_nat_pos. destruct history; [done | cbn; lia]. }
  assert (Hnz : ~ (float_of_nat (length history) == 0)%Q).
  { intros Hz. rewrite Hz in Hpos. by apply Qlt_irrefl in Hpos. }
  pose proof (length_valid_failures history) as Hlen.
  unfold calculate_statistics.
  destruct (valid_pings history) as [|first rest] eqn:Hvalid; cbn [stat_loss].
  - cbn in Hlen. rewrite <- Hlen. field. exact Hnz.
  - set (v := length (first :: rest)) in *.
    assert (Hsum : (float_of_nat (length history)
                    == float_of_nat v + float_of_nat (failures history))%Q).
    { rewrite Hlen. apply float_of_nat_add. }
    rewrite Hsum in Hnz |- *. field. exact Hnz.
Qed.

(** ** Statistics in binary64 *)

Lemma SFltb_trans x y z :
  SFltb x y = true -> SFltb y z = true -> SFltb x z = true.
Proof.
  unfold SFltb.
  destruct x as [sx|sx| |sx mx ex], y as [sy|sy| |sy my ey],
           z as [sz|sz| |sz mz ez];
    cbn; try discriminate;
    repeat match goal with s : bool |- _ => destruct s end;
    cbn; try discriminate; try reflexivity.
  all: rewrite ?Pos.compare_cont_spec; cbn [Pos.switch_Eq].
  all: destruct (Z.compare_spec ex ey), (Z.compare_spec ey ez),
         (Z.compare_spec ex ez);
    try discriminate; try reflexivity; try lia.
  all: subst; destruct (Pos.compare_spec mx my), (Pos.compare_spec my mz),
         (Pos.compare_spec mx mz); cbn;
    try discriminate; try reflexivity; try lia.
Qed.

Lemma SFltb_irrefl x : SFltb x x = false.
Proof.
  unfold SFltb. destruct x as [s|s| |s m e]; cbn; try reflexivity.
  - destruct s; reflexivity.
  - rewrite Z.compare_refl, Pos.compare_cont_spec, Pos.compare_refl.
    destruct s; reflexivity.
Qed.

(** On numbers, not being less is transitive. *)
Lemma SFltb_false_trans x y z :
  x <> S754_nan -> y <> S754_nan -> z <> S754_nan ->
  SFltb x y = false -> SFltb y z = false -> SFltb x z = false.
Proof.
  unfold SFltb.
  destruct x as [sx|sx| |sx mx ex], y as [sy|sy| |sy my ey],
           z as [sz|sz| |sz mz ez];
    cbn; try congruence;
    repeat match goal with s : bool |- _ => destruct s end;
    cbn; try discriminate; try reflexivity.
  all: rewrite ?Pos.compare_cont_spec; cbn [Pos.switch_Eq].
  all: destruct (Z.compare_spec ex ey), (Z.compare_spec ey ez),
         (Z.compare_spec ex ez);
    try discriminate; try reflexivity; try lia.
  all: subst; destruct (Pos.compare_spec mx my), (Pos.compare_spec my mz),
         (Pos.compare_spec mx mz); cbn;
    try discriminate; try reflexivity; try lia.
Qed.

Lemma ltb_trans (x y z : float) :
  PrimFloat.ltb x y = true -> PrimFloat.ltb y z = true ->
  PrimFloat.ltb x z = true.
Proof. rewrite !FloatAxioms.ltb_spec. apply SFltb_trans. Qed.

Lemma ltb_irrefl (x : float) : PrimFloat.ltb x x = false.
Proof. rewrite FloatAxioms.ltb_spec. apply SFltb_irrefl. Qed.

Lemma ltb_asym (x y : float) :
  PrimFloat.ltb x y = true -> PrimFloat.ltb y x = false.
Proof.
  intros Hxy. destruct (PrimFloat.ltb y x) eqn:Hyx; [| done].
  pose proof (ltb_trans _ _ _ Hxy Hyx) as Hxx.
  by rewrite ltb_irrefl in Hxx.
Qed.

Lemma is_nan_false (x : float) :
  PrimFloat.is_nan x = false -> Prim2SF x <> S754_nan.
Proof.
  unfold PrimFloat.is_nan. rewrite negb_false_iff, FloatAxioms.eqb_spec.
  intros Heq Hnan. rewrite Hnan in Heq. discriminate.
Qed.

Lemma ltb_false_trans (x y z : float) :
  PrimFloat.is_nan x = false -> PrimFloat.is_nan y = false ->
  PrimFloat.is_nan z = false ->
  PrimFloat.ltb x y = false -> PrimFloat.ltb y z = false ->
  PrimFloat.ltb x z = false.
Proof.
  rewrite !FloatAxioms.ltb_spec. intros Hx Hy Hz.
  apply SFltb_false_trans; by apply is_nan_false.
Qed.


Lemma b64_py_min_fold m rest :
  let r := Binary64.py_min m rest in
  (r = m \/ PrimFloat.ltb r m = true) /\
  r ∈ m :: rest /\
  forall x, x ∈ rest -> PrimFloat.ltb x r = false.
Proof.
  unfold Binary64.py_min. revert m.
  induction rest as [|y rest IH]; intros m; cbn zeta.
  - split; [by left |]. split; [left |].
    intros x Hx. by apply elem_of_nil in Hx.
  - cbn [foldl]. destruct (PrimFloat.ltb y m) eqn:Hlt.
    + destruct (IH y) as (Hle & Hin & Hall). cbn zeta in Hle, Hin, Hall.
      split; [| split].
      * right. destruct Hle as [-> | Hle]; [done | by eapply ltb_trans].
      * by right.
      * intros x Hx. apply elem_of_cons in Hx as [-> | Hx]; [| by apply Hall].
        destruct Hle as [-> | Hle]; [apply ltb_irrefl | by apply ltb_asym].
    + destruct (IH m) as (Hle & Hin & Hall). cbn zeta in Hle, Hin, Hall.
      split; [exact Hle |]. split.
      * apply elem_of_cons in Hin as [-> | Hin]; [left | right; by right].
      * intros x Hx. apply elem_of_cons in Hx as [-> | Hx]; [| by apply Hall].
        destruct Hle as [-> | Hle]; [done |].
        destruct (PrimFloat.ltb y (foldl _ m rest)) eqn:Hc; [| done].
        pose proof (ltb_trans _ _ _ Hc Hle). congruence.
Qed.

(** [min] returns an item that no item is less than. *)
Lemma b64_py_min_spec first rest :
  Binary64.py_min first rest ∈ first :: rest /\
  forall x, x ∈ first :: rest ->
            PrimFloat.ltb x (Binary64.py_min first rest) = false.
Proof.
  destruct (b64_py_min_fold first rest) as (Hle & Hin & Hall).
  cbn zeta in *. split; [exact Hin |].
  intros x Hx. apply elem_of_cons in Hx as [-> | Hx]; [| by apply Hall].
  destruct Hle as [-> | Hle]; [apply ltb_irrefl | by apply ltb_asym].
Qed.

Lemma b64_py_max_fold m rest :
  let r := Binary64.py_max m rest in
  (r = m \/ PrimFloat.ltb m r = true) /\
  r ∈ m :: rest /\
  forall x, x ∈ rest -> PrimFloat.ltb r x = false.
Proof.
  unfold Binary64.py_max. revert m.
  induction rest as [|y rest IH]; intros m; cbn zeta.
  - split; [by left |]. split; [left |].
    intros x Hx. by apply elem_of_nil in Hx.
  - cbn [foldl]. destruct (PrimFloat.ltb m y) eqn:Hlt.
    + destruct (IH y) as (Hle & Hin & Hall). cbn zeta in Hle, Hin, Hall.
      split; [| split].
      * right. destruct Hle as [-> | Hle]; [done | by eapply ltb_trans].
      * by right.
      * intros x Hx. apply elem_of_cons in Hx as [-> | Hx]; [| by apply Hall].
        destruct Hle as [-> | Hle]; [apply ltb_irrefl | by apply ltb_asym].
    + destruct (IH m) as (Hle & Hin & Hall). cbn zeta in Hle, Hin, Hall.
      split; [exact Hle |]. split.
      * apply elem_of_cons in Hin as [-> | Hin]; [left | right; by right].
      * intros x Hx. apply elem_of_cons in Hx as [-> | Hx]; [| by apply Hall].
        destruct Hle as [-> | Hle]; [done |].
        destruct (PrimFloat.ltb (foldl _ m rest) y) eqn:Hc; [| done].
        pose proof (ltb_trans _ _ _ Hle Hc). congruence.
Qed.

(** [max] returns an item that is less than no item. *)
Lemma b64_py_max_spec first rest :
  Binary64.py_max first rest ∈ first :: rest /\
  forall x, x ∈ first :: rest ->
            PrimFloat.ltb (Binary64.py_max first rest) x = false.
Proof.
  destruct (b64_py_max_fold first rest) as (Hle & Hin & Hall).
  cbn zeta in *. split; [exact Hin |].
  intros x Hx. apply elem_of_cons in Hx as [-> | Hx]; [| by apply Hall].
  destruct Hle as [-> | Hle]; [apply ltb_irrefl | by apply ltb_asym].
Qed.

Lemma b64_insert_number_Permutation x xs :
  Permutation (Binary64.insert_number x xs) (x :: xs).
Proof.
  induction xs as [|y ys IH]; cbn; [done |].
  destruct (PrimFloat.ltb y x); [| done].
  rewrite IH. apply perm_swap.
Qed.

Lemma b64_sort_numbers_Permutation xs :
  Permutation (Binary64.sort_numbers xs) xs.
Proof.
  induction xs as [|x xs IH]; cbn; [done |].
  rewrite b64_insert_number_Permutation. by constructor.
Qed.

Lemma b64_insert_number_sorted x xs :
  PrimFloat.is_nan x = false ->
  Forall (fun y => PrimFloat.is_nan y = false) xs ->
  ascending xs -> ascending (Binary64.insert_number x xs).
Proof.
  unfold ascending. intros Hx Hnan Hsorted. revert Hnan.
  induction Hsorted as [|y ys Hsorted IH Hall]; intros Hnan; cbn.
  - repeat constructor.
  - apply Forall_cons in Hnan as [Hy Hnan].
    destruct (PrimFloat.ltb y x) eqn:Hlt.
    + constructor; [by apply IH |].
      rewrite b64_insert_number_Permutation. constructor; [| exact Hall].
      by apply ltb_asym.
    + constructor; [by constructor |].
      constructor; [exact Hlt |].
      apply Forall_forall. intros z Hz.
      apply (ltb_false_trans z y x); [| done | done | | done].
      * by apply (proj1 (Forall_forall _ _) Hnan).
      * by apply (proj1 (Forall_forall _ _) Hall).
Qed.

Lemma b64_sort_numbers_sorted xs :
  Forall (fun y => PrimFloat.is_nan y = false) xs ->
  ascending (Binary64.sort_numbers xs).
Proof.
  induction 1 as [|x xs Hx Hnan IH]; cbn; [constructor |].
  apply b64_insert_number_sorted; [done | | done].
  by rewrite b64_sort_numbers_Permutation.
Qed.

Lemma loss_close_to_capacity :
  forallb (fun n => forallb (fun v => loss_close v n) (seq 1 n))
          (seq 1 MAX_HISTORY)
  = true.
Proof. vm_compute. reflexivity. Qed.

Lemma loss_close_spec v n :
  (1 <= v <= n)%nat -> (n <= MAX_HISTORY)%nat -> loss_close v n = true.
Proof.
  intros Hv Hn. pose proof loss_close_to_capacity as Hall.
  rewrite forallb_forall in Hall.
  specialize (Hall n). rewrite forallb_forall in Hall.
  apply Hall; apply in_seq; lia.
Qed.

Lemma b64_length_valid_pings history :
  (length (Binary64.valid_pings history) <= length history)%nat.
Proof.
  induction history as [|[x|] history IH]; cbn; [lia | |].
  - change (S (length (Binary64.valid_pings history)) <= S (length history))%nat.
    lia.
  - change (length (Binary64.valid_pings history) <= S (length history))%nat.
    lia.
Qed.

Lemma b64_valid_pings_successes xs :
  Binary64.valid_pings (Some <$> xs) = xs.
Proof. induction xs as [|x xs IH]; [done |]. cbn. by f_equal. Qed.

(** C3, as the code has it: minimum, maximum, average and median depend on
    the non-failed entries only: minimum and maximum are entries that no
    non-failed entry is below or above, the average is their sum from left
    to right divided by their number, the median is the middle of the
    sorted entries; each is a binary64 value.  The loss is the binary64
    value of (1 - successes / entries) * 100: for every window up to the
    capacity of 50 it is within 10^-13 of the share of failed entries
    times 100, and it is not always equal to it.  For the window
    [10, 20, 30, Failure] the loss is 25, the minimum 10, the maximum 30,
    the average 20 and the median 20, exactly. *)
Theorem statistics_over_successes :
  (forall history,
      let s := Binary64.calculate_statistics history in
      let s' := Binary64.calculate_statistics
                  (Some <$> Binary64.valid_pings history) in
      Binary64.stat_min s = Binary64.stat_min s' /\
      Binary64.stat_max s = Binary64.stat_max s' /\
      Binary64.stat_avg s = Binary64.stat_avg s' /\
      Binary64.stat_median s = Binary64.stat_median s') /\
  (forall history first rest,
      Binary64.valid_pings history = first :: rest ->
      let s := Binary64.calculate_statistics history in
      let successes := first :: rest in
      (exists lo,
          Binary64.stat_min s = Some lo /\ lo ∈ successes /\
          forall x, x ∈ successes -> PrimFloat.ltb x lo = false) /\
      (exists hi,
          Binary64.stat_max s = Some hi /\ hi ∈ successes /\
          forall x, x ∈ successes -> PrimFloat.ltb hi x = false) /\
      Binary64.stat_avg s
      = Some (Binary64.py_sum successes
              / Binary64.float_of_nat (length successes))%float /\
      (Forall (fun x => PrimFloat.is_nan x = false) successes ->
       exists sorted,
         Permutation sorted successes /\ ascending sorted /\
         Binary64.stat_median s = Some (Binary64.middle sorted)) /\
      Binary64.stat_loss s
      = loss_of (length successes) (length history) /\
      ((length history <= MAX_HISTORY)%nat ->
       exists q,
         exact_value (Binary64.stat_loss s) = Some q /\
         (Qabs (q - inject_Z (Z.of_nat (length history - length successes))
                    / inject_Z (Z.of_nat (length history)) * 100)
          <= 1 # 10000000000000)%Q)) /\
  Binary64.calculate_statistics
    [Some 10%float; Some 20%float; Some 30%float; None]
  = Binary64.Statistics (Some 10%float) (Some 30%float) (Some 20%float)
                        (Some 20%float) 25%float.
Proof.
  split; [| split].
  - intros history. cbn zeta. unfold Binary64.calculate_statistics.
    rewrite b64_valid_pings_successes.
    by destruct (Binary64.valid_pings history).
  - intros history first rest Hvalid. cbn zeta.
    unfold Binary64.calculate_statistics. rewrite Hvalid.
    cbn [Binary64.stat_min Binary64.stat_max Binary64.stat_avg
         Binary64.stat_median Binary64.stat_loss].
    destruct (b64_py_min_spec first rest) as [Hmin Hlo].
    destruct (b64_py_max_spec first rest) as [Hmax Hhi].
    split; [eauto |]. split; [eauto |]. split; [done |]. split; [| split].
    + intros Hnan. exists (Binary64.sort_numbers (first :: rest)).
      split; [apply b64_sort_numbers_Permutation |].
      split; [by apply b64_sort_numbers_sorted | done].
    + done.
    + intros Hlen.
      pose proof (b64_length_valid_pings history) as Hle.
      rewrite Hvalid in Hle.
      pose proof (loss_close_spec (length (first :: rest)) (length history))
        as Hclose.
      unfold loss_close in Hclose.
      fold (loss_of (length (first :: rest)) (length history)).
      destruct (exact_value
                  (loss_of (length (first :: rest)) (length history)))
        as [q|].
      * exists q. split; [done |]. apply Qle_bool_iff. apply Hclose; [| done].
        cbn [length] in *. lia.
      * exfalso. assert (false = true); [| done].
        apply Hclose; [| done]. cbn [length] in *. lia.
  - vm_compute. reflexivity.
Qed.

(** C3 as stated fails: with one failure among five entries the loss is
    19.999999999999996, below the 20 that a fifth of 100 is. *)
Lemma one_failure_in_five_is_not_20 :
  Binary64.stat_loss
    (Binary64.calculate_statistics
       [Some 10%float; Some 20%float; Some 30%float; Some 40%float; None])
  <> 20%float /\
  PrimFloat.ltb
    (Binary64.stat_loss
       (Binary64.calculate_statistics
          [Some 10%float; Some 20%float; Some 30%float; Some 40%float; None]))
    20%float = true /\
  (inject_Z (Z.of_nat 1) / inject_Z (Z.of_nat 5) * 100 == 20)%Q.
Proof.
  split; [| split; [vm_compute; reflexivity | reflexivity]].
  intros Heq.
  apply (f_equal (fun x => PrimFloat.ltb x 20%float)) in Heq.
  vm_compute in Heq. discriminate Heq.
Qed.

(** C4: a window without a successful entry has no minimum, maximum,
    average or median, and its loss is exactly 100. *)
Theorem no_success_no_latency_stats (history : list (option Q)) :
  (forall latency, Some latency ∉ history) ->
  calculate_statistics history = Statistics None None None None 100.
Proof.
  intros Hnone. unfold calculate_statistics.
  destruct (valid_pings history) as [|first rest] eqn:Hvalid; [done |].
  exfalso. apply (Hnone first). apply elem_of_valid_pings.
  rewrite Hvalid. left.
Qed.

Lemma no_success_no_latency_stats_witness :
  (forall latency : Q, Some latency ∉ [None; None; None]) /\
  calculate_statistics [None; None; None] = Statistics None None None None 100.
Proof.
  assert (H : forall latency : Q, Some latency ∉ [None; None; None]).
  { intros latency Hin. repeat (apply elem_of_cons in Hin as [Hin | Hin]; [discriminate |]).
    by apply elem_of_nil in Hin. }
  split; [exact H | exact (no_success_no_latency_stats [None; None; None] H)].
Defined.

(** ** Alerts *)

Lemma elem_of_concat {A : Type} (x : A) (ls : list (list A)) :
  x ∈ concat ls <-> exists l, l ∈ ls /\ x ∈ l.
Proof.
  induction ls as [|l ls IH]; cbn.
  - rewrite elem_of_nil. split; [done |]. intros (l & Hl & _).
    by apply elem_of_nil in Hl.
  - rewrite elem_of_app, IH. split.
    + intros [Hx | (l' & Hl' & Hx)]; [exists l | exists l'];
        (split; [| done]); [left | by right].
    + intros (l' & Hl' & Hx). apply elem_of_cons in Hl' as [-> | Hl'];
        [by left | right; eauto].
Qed.

Lemma Forall2_elem_of_r {A B : Type} (P : A -> B -> Prop) l k y :
  Forall2 P l k -> y ∈ k -> exists x, x ∈ l /\ P x y.
Proof.
  intros HF Hy. apply list_elem_of_lookup in Hy as [i Hi].
  destruct (Forall2_lookup_r _ _ _ _ _ HF Hi) as (x & Hx & HP).
  exists x. split; [| done]. apply list_elem_of_lookup. eauto.
Qed.

Lemma Forall2_elem_of_l {A B : Type} (P : A -> B -> Prop) l k x :
  Forall2 P l k -> x ∈ l -> exists y, y ∈ k /\ P x y.
Proof.
  intros HF Hx. apply list_elem_of_lookup in Hx as [i Hi].
  destruct (Forall2_lookup_l _ _ _ _ _ HF Hi) as (y & Hy & HP).
  exists y. split; [| done]. apply list_elem_of_lookup. eauto.
Qed.

Lemma dict_getitem_Some_keys {K V : Type} `{EqDecision K} (k : K) (v : V)
    (d : list (K * V)) :
  dict_getitem k d = Some v -> k ∈ d.*1.
Proof.
  induction d as [|[k' v'] d IH]; cbn; [done |].
  case_decide; [subst; intros _; left | intros Hd; right; auto].
Qed.

(** The loss warning of a row: present exactly above the threshold. *)
Lemma warnings_loss ip ip' l stats current_time :
  LossWarning ip l ∈ warnings ip' stats current_time
  <-> ip = ip' /\ l = stat_loss stats /\ (LOSS_THRESHOLD < l)%Q.
Proof.
  unfold warnings. rewrite elem_of_app. split.
  - intros [Hin | Hin].
    + destruct (Qlt_bool LOSS_THRESHOLD (stat_loss stats)) eqn:Hlt.
      * apply list_elem_of_singleton in Hin. injection Hin as -> ->.
        by apply Qlt_bool_iff in Hlt.
      * by apply elem_of_nil in Hin.
    + destruct current_time as [t|]; [| by apply elem_of_nil in Hin].
      destruct (Qlt_bool LATENCY_THRESHOLD t).
      * by apply list_elem_of_singleton in Hin.
      * by apply elem_of_nil in Hin.
  - intros (-> & -> & Hlt). left.
    apply Qlt_bool_iff in Hlt. rewrite Hlt. left.
Qed.

(** The latency warning of a row: present exactly when the round's probe
    succeeded with a latency above the threshold. *)
Lemma warnings_latency ip ip' t stats current_time :
  LatencyWarning ip t ∈ warnings ip' stats current_time
  <-> ip = ip' /\ current_time = Some t /\ (LATENCY_THRESHOLD < t)%Q.
Proof.
  unfold warnings. rewrite elem_of_app. split.
  - intros [Hin | Hin].
    + destruct (Qlt_bool LOSS_THRESHOLD (stat_loss stats)).
      * by apply list_elem_of_singleton in Hin.
      * by apply elem_of_nil in Hin.
    + destruct current_time as [t'|]; [| by apply elem_of_nil in Hin].
      destruct (Qlt_bool LATENCY_THRESHOLD t') eqn:Hlt.
      * apply list_elem_of_singleton in Hin. injection Hin as -> ->.
        by apply Qlt_bool_iff in Hlt.
      * by apply elem_of_nil in Hin.
  - intros (-> & -> & Hlt). right.
    apply Qlt_bool_iff in Hlt. rewrite Hlt. left.
Qed.

Lemma status_lines_inv ping_data hs mapping_dict ip row :
  status_lines ping_data hs mapping_dict ip = Ok row ->
  exists h current_time resolved_ip,
    hs !! ip = Some h /\
    dict_getitem ip ping_data = Some current_time /\
    row = StatusRow ip resolved_ip current_time
            (calculate_statistics (items (pings h)))
          :: warnings ip (calculate_statistics (items (pings h))) current_time.
Proof.
  unfold status_lines, getitem, mapping_getitem.
  destruct (hs !! ip) as [h|]; [| done]. cbn.
  destruct (dict_getitem ip ping_data) as [t|]; [| done]. cbn.
  destruct (dict_getitem ip mapping_dict) as [r|]; [| done]. cbn.
  intros [= <-]. by exists h, t, r.
Qed.

Lemma packet_line_inv hs mapping_dict ip out :
  packet_line hs mapping_dict ip = Ok out ->
  exists r a b c, out = PacketRow ip r a b c.
Proof.
  unfold packet_line, getitem, mapping_getitem.
  destruct (hs !! ip) as [h|]; [| done]. cbn.
  destruct (dict_getitem ip mapping_dict) as [r|]; [| done]. cbn.
  intros [= <-]. eauto.
Qed.

(** What [print_ping_results] prints is, for each key of [ping_data], its
    row followed by its warnings, and then the packet table. *)
Lemma print_tables_inv ping_data hs ip_mappings out :
  print_tables ping_data hs ip_mappings = Ok out ->
  forall w,
    (forall a b c d, w <> StatusRow a b c d) ->
    (forall a b c d e, w <> PacketRow a b c d e) ->
    w ∈ out <->
    exists ip h current_time,
      ip ∈ dict_keys ping_data /\ hs !! ip = Some h /\
      dict_getitem ip ping_data = Some current_time /\
      w ∈ warnings ip (calculate_statistics (items (pings h))) current_time.
Proof.
  unfold print_tables. intros Hrun w Hrow Hpacket.
  apply bind_Ok_inv in Hrun as (rows & Hrows & Hrun).
  apply bind_Ok_inv in Hrun as (packets & Hpackets & Hrun).
  injection Hrun as <-.
  apply mapM_Ok_inv in Hrows. apply mapM_Ok_inv in Hpackets.
  rewrite elem_of_app, elem_of_concat. split.
  - intros [(row & Hin & Hw) | Hw].
    + destruct (Forall2_elem_of_r _ _ _ _ Hrows Hin) as (ip & Hip & Hline).
      apply (proj1 (elem_of_sorted _ _)) in Hip.
      apply status_lines_inv in Hline as (h & t & r & Hh & Ht & ->).
      apply elem_of_cons in Hw as [-> | Hw]; [by edestruct Hrow |].
      exists ip, h, t. eauto.
    + destruct (Forall2_elem_of_r _ _ _ _ Hpackets Hw) as (ip & _ & Hline).
      apply packet_line_inv in Hline as (r & a & b & c & ->).
      by edestruct Hpacket.
  - intros (ip & h & t & Hip & Hh & Ht & Hw). left.
    apply (proj2 (elem_of_sorted _ _)) in Hip.
    destruct (Forall2_elem_of_l _ _ _ _ Hrows Hip) as (row & Hin & Hline).
    apply status_lines_inv in Hline as (h' & t' & r & Hh' & Ht' & ->).
    exists (StatusRow ip r t' (calculate_statistics (items (pings h')))
            :: warnings ip (calculate_statistics (items (pings h'))) t').
    split; [done |]. right.
    rewrite Hh in Hh'. injection Hh' as <-.
    rewrite Ht in Ht'. injection Ht' as <-. done.
Qed.

(** C5: a loss warning is printed for a target exactly when the loss of its
    window is strictly greater than 20, and a latency warning exactly when
    the latest round's probe of the target succeeded with a latency strictly
    greater than 200; a loss of exactly 20 and a latency of exactly 200
    print no warning. *)
Theorem alerts_strictly_above_thresholds sys ping_data hs ip_mappings out :
  print_ping_results sys ping_data hs ip_mappings = Ok out ->
  (forall ip l,
      LossWarning ip l ∈ out <->
      exists h,
        ip ∈ dict_keys ping_data /\ hs !! ip = Some h /\
        l = stat_loss (calculate_statistics (items (pings h))) /\
        (20 < l)%Q) /\
  (forall ip t,
      LatencyWarning ip t ∈ out <->
      dict_getitem ip ping_data = Some (Some t) /\ (200 < t)%Q) /\
  (forall ip l, (l == 20)%Q -> LossWarning ip l ∉ out) /\
  (forall ip t, (t == 200)%Q -> LatencyWarning ip t ∉ out).
Proof.
  intros Hrun. apply print_ping_results_tables in Hrun as [_ Hrun].
  pose proof (print_tables_inv _ _ _ _ Hrun) as Hinv.
  assert (Hloss : forall ip l,
      LossWarning ip l ∈ out <->
      exists h,
        ip ∈ dict_keys ping_data /\ hs !! ip = Some h /\
        l = stat_loss (calculate_statistics (items (pings h))) /\
        (20 < l)%Q).
  { intros ip l. rewrite Hinv by done. split.
    - intros (ip' & h & t & Hip & Hh & Ht & Hw).
      apply warnings_loss in Hw as (-> & -> & Hlt). eauto.
    - intros (h & Hip & Hh & -> & Hlt).
      destruct (dict_getitem_is_Some ip ping_data Hip) as [t Ht].
      exists ip, h, t. repeat split; [done.. |].
      by apply warnings_loss. }
  assert (Hlat : forall ip t,
      LatencyWarning ip t ∈ out <->
      dict_getitem ip ping_data = Some (Some t) /\ (200 < t)%Q).
  { intros ip t. rewrite Hinv by done. split.
    - intros (ip' & h & ct & Hip & Hh & Ht & Hw).
      apply warnings_latency in Hw as (-> & -> & Hlt). eauto.
    - intros [Ht Hlt].
      pose proof (dict_getitem_Some_keys _ _ _ Ht) as Hip.
      assert (Hsome : is_Some (hs !! ip)).
      { apply bind_Ok_inv in Hrun as (rows & Hrows & _).
        apply mapM_Ok_inv in Hrows.
        apply (proj2 (elem_of_sorted _ _)) in Hip.
        destruct (Forall2_elem_of_l _ _ _ _ Hrows Hip) as (row & _ & Hline).
        apply status_lines_inv in Hline as (h & _ & _ & Hh & _). eauto. }
      destruct Hsome as [h Hh].
      exists ip, h, (Some t). repeat split; [done.. |].
      by apply warnings_latency. }
  split; [exact Hloss |]. split; [exact Hlat |]. split.
  - intros ip l Heq Hin. apply Hloss in Hin as (h & _ & _ & _ & Hlt).
    rewrite Heq in Hlt. by apply Qlt_irrefl in Hlt.
  - intros ip t Heq Hin. apply Hlat in Hin as [_ Hlt].
    rewrite Heq in Hlt. by apply Qlt_irrefl in Hlt.
Qed.

(** ** Resolver *)

Lemma validate_ip_raises sys o e :
  validate_ip sys o = Raise e -> e = UnicodeError \/ e = ValueError.
Proof.
  unfold validate_ip. destruct (ip_address_parses sys o); [done |].
  destruct (gethostbyname sys o); try done; intros [= <-]; auto.
Qed.


(** The loop of lines 140-147, one input at a time. *)
Lemma build_mappings_cons sys o inputs :
  build_mappings sys (o :: inputs)
  = match validate_ip sys o with
    | Raise e => Raise e
    | Ok resolved =>
        match build_mappings sys inputs with
        | Raise e => Raise e
        | Ok ms =>
            Ok match resolved with
               | Some r => if String.eqb r "" then ms else (o, r) :: ms
               | None => ms
               end
        end
    end.
Proof.
  unfold build_mappings.
  change (mapM (mapping_of sys) (o :: inputs))
    with (y ← mapping_of sys o;
          k ← mapM (mapping_of sys) inputs; Ok (y :: k)).
  set (rest := mapM (mapping_of sys) inputs). unfold mapping_of.
  destruct (validate_ip sys o) as [[r|]|e]; destruct rest as [xs|e'];
    cbn; try done.
  by destruct (String.eqb r "").
Qed.

(** When the loop returns, no input raised, and the mappings are the
    inputs that validate, each with its address, in the order of the
    inputs and with their repetitions. *)
Lemma build_mappings_Ok_inv sys inputs ms :
  build_mappings sys inputs = Ok ms ->
  (forall o, o ∈ inputs -> exists r, validate_ip sys o = Ok r) /\
  ms.*1 = filter (fun o => valid_input sys o = true) inputs /\
  forall o r,
    (o, r) ∈ ms <-> o ∈ inputs /\ validate_ip sys o = Ok (Some r) /\ r <> "".
Proof.
  revert ms. induction inputs as [|i inputs IH]; intros ms.
  - intros [= <-]. split; [| split; [done |]].
    + intros o Ho. by apply elem_of_nil in Ho.
    + intros o r. split; [intros H; by apply elem_of_nil in H |].
      intros (H & _). by apply elem_of_nil in H.
  - rewrite build_mappings_cons.
    destruct (validate_ip sys i) as [resolved|e] eqn:Hv; [| done].
    destruct (build_mappings sys inputs) as [ms'|e]; [| done].
    destruct (IH ms' eq_refl) as (Hno & Horig & Hmem).
    intros [= <-]. split; [| split].
    + intros o Ho. apply elem_of_cons in Ho as [-> | Ho]; eauto.
    + destruct resolved as [r|].
      * destruct (String.eqb r "") eqn:He.
        -- rewrite filter_cons_False; [done |].
           unfold valid_input. rewrite Hv. cbn. by rewrite He.
        -- rewrite filter_cons_True; [cbn; by f_equal |].
           unfold valid_input. rewrite Hv. cbn. by rewrite He.
      * rewrite filter_cons_False; [done |].
        unfold valid_input. by rewrite Hv.
    + intros o r. rewrite elem_of_cons.
      assert (Hrest : (o, r) ∈ ms' ->
                      (o = i \/ o ∈ inputs) /\
                      validate_ip sys o = Ok (Some r) /\ r <> "").
      { intros H. apply Hmem in H as (? & ? & ?). auto. }
      assert (Hback : o ∈ inputs -> validate_ip sys o = Ok (Some r) ->
                      r <> "" -> (o, r) ∈ ms').
      { intros. apply Hmem. auto. }
      destruct resolved as [a|].
      * destruct (String.eqb a "") eqn:He.
        -- apply String.eqb_eq in He. subst a. split; [exact Hrest |].
           intros ([-> | Ho] & Hvo & Hne); [congruence | auto].
        -- apply String.eqb_neq in He. rewrite elem_of_cons. split.
           ++ intros [[= -> ->] | H]; [auto | auto].
           ++ intros ([-> | Ho] & Hvo & Hne); [left; congruence | auto].
      * split; [exact Hrest |].
        intros ([-> | Ho] & Hvo & Hne); [congruence | auto].
Qed.

(** When the loop raises, it is at the first input on which [validate_ip]
    raises, with what it raises. *)
Lemma build_mappings_Raise_inv sys inputs e :
  build_mappings sys inputs = Raise e ->
  exists before o after,
    inputs = before ++ o :: after /\
    validate_ip sys o = Raise e /\
    forall o', o' ∈ before -> exists r, validate_ip sys o' = Ok r.
Proof.
  induction inputs as [|i inputs IH]; [done |].
  rewrite build_mappings_cons.
  destruct (validate_ip sys i) as [resolved|e'] eqn:Hv.
  - destruct (build_mappings sys inputs) as [ms'|e']; [done |].
    intros [= ->]. destruct (IH eq_refl) as (before & o & after & -> & Ho & Hb).
    exists (i :: before), o, after. split; [done |]. split; [done |].
    intros o' Ho'. apply elem_of_cons in Ho' as [-> | Ho']; eauto.
  - intros [= ->]. exists [], i, inputs. split; [done |]. split; [done |].
    intros o' Ho'. by apply elem_of_nil in Ho'.
Qed.

(** An input on which [validate_ip] raises ends the loop with an
    exception. *)
Lemma build_mappings_raises sys inputs o e :
  o ∈ inputs -> validate_ip sys o = Raise e ->
  exists e', build_mappings sys inputs = Raise e'.
Proof.
  intros Ho Hv. destruct (build_mappings sys inputs) as [ms|e'] eqn:Hb; [| eauto].
  apply build_mappings_Ok_inv in Hb as (Hno & _).
  destruct (Hno o Ho) as [r Hr]. congruence.
Qed.

(** The three ways [parse_arguments] ends. *)
Lemma parse_arguments_cases sys args :
  (exists ip_mappings,
      parse_arguments sys args = Ok ip_mappings /\
      build_mappings sys (input_ips sys args) = Ok ip_mappings /\
      ip_mappings <> []) \/
  (exists message,
      parse_arguments sys args = Raise (SystemExit 2 message) /\
      build_mappings sys (input_ips sys args) = Ok []) \/
  (exists e,
      parse_arguments sys args = Raise e /\
      build_mappings sys (input_ips sys args) = Raise e /\
      (e = UnicodeError \/ e = ValueError)).
Proof.
  unfold parse_arguments.
  destruct (input_ips sys args) as [|i inputs] eqn:Hin.
  { right. left. eauto. }
  destruct (build_mappings sys (i :: inputs)) as [[|m ms]|e] eqn:Hb; cbn.
  - right. left. eauto.
  - left. eauto.
  - right. right. exists e. split; [done |]. split; [done |].
    apply build_mappings_Raise_inv in Hb as (before & o & after & _ & Ho & _).
    by apply validate_ip_raises in Ho.
Qed.



(** What [validate_ip] does on each kind of input: a literal address is
    returned unchanged; any other input is resolved, and the first address
    found is returned; when the lookup fails the result is [None], and the
    input becomes no target; when the name cannot be passed to the
    resolver, the exception of [socket.gethostbyname] leaves [validate_ip]
    and ends the loop of [parse_arguments]. *)
Theorem resolver_contract sys input :
  (ip_address_parses sys input = true ->
   validate_ip sys input = Ok (Some input)) /\
  (ip_address_parses sys input = false ->
   forall address,
     gethostbyname sys input = Resolved address ->
     validate_ip sys input = Ok (Some address)) /\
  (ip_address_parses sys input = false ->
   gethostbyname sys input = gaierror ->
   validate_ip sys input = Ok None /\
   forall inputs ms, build_mappings sys inputs = Ok ms -> input ∉ ms.*1) /\
  (ip_address_parses sys input = false ->
   gethostbyname sys input = label_empty_or_too_long ->
   validate_ip sys input = Raise UnicodeError /\
   forall inputs, input ∈ inputs ->
                  exists e, build_mappings sys inputs = Raise e) /\
  (ip_address_parses sys input = false ->
   gethostbyname sys input = embedded_null_character ->
   validate_ip sys input = Raise ValueError /\
   forall inputs, input ∈ inputs ->
                  exists e, build_mappings sys inputs = Raise e).
Proof.
  unfold validate_ip. split; [| split; [| split; [| split]]].
  - by intros ->.
  - by intros -> address ->.
  - intros Hlit Hgai.
    assert (Hv : validate_ip sys input = Ok None).
    { unfold validate_ip. by rewrite Hlit, Hgai. }
    split; [by rewrite Hlit, Hgai |].
    intros inputs ms Hb Hin. apply list_elem_of_fmap in Hin as ([o r] & Heq & Hin).
    cbn in Heq. subst o.
    apply build_mappings_Ok_inv in Hb as (_ & _ & Hmem).
    apply Hmem in Hin as (_ & Hsome & _). congruence.
  - intros Hlit Hbad.
    assert (Hv : validate_ip sys input = Raise UnicodeError).
    { unfold validate_ip. by rewrite Hlit, Hbad. }
    split; [by rewrite Hlit, Hbad |].
    intros inputs Hin. by eapply build_mappings_raises.
  - intros Hlit Hbad.
    assert (Hv : validate_ip sys input = Raise ValueError).
    { unfold validate_ip. by rewrite Hlit, Hbad. }
    split; [by rewrite Hlit, Hbad |].
    intros inputs Hin. by eapply build_mappings_raises.
Qed.

(** C8, at an input the code receives: the name [a..b] has an empty label,
    [socket.gethostbyname] raises [UnicodeError] for it, line 86 does not
    catch it, and the run ends at startup with that exception although
    another input is a valid target. *)
Theorem malformed_name_aborts_startup :
  ip_address_parses strict_system "a..b" = false /\
  gethostbyname strict_system "a..b" = label_empty_or_too_long /\
  validate_ip strict_system "a..b" = Raise UnicodeError /\
  valid_input strict_system "8.8.8.8" = true /\
  parse_arguments strict_system malformed_args = Raise UnicodeError /\
  forall fuel net, main fuel strict_system net malformed_args = Raise UnicodeError.
Proof. repeat split. Qed.

Lemma alerts_strictly_above_thresholds_witness :
  print_ping_results literal_system edge_ping_data edge_histories
                     edge_mappings
  = Ok edge_screen /\
  LatencyWarning "slow.example" 250 ∈ edge_screen /\
  (exists l, (l == 50)%Q /\ LossWarning "slow.example" l ∈ edge_screen) /\
  (forall t, LatencyWarning "edge.example" t ∉ edge_screen) /\
  (forall l, LossWarning "edge.example" l ∉ edge_screen).
Proof.
  assert (Hrun : print_ping_results literal_system edge_ping_data
                   edge_histories edge_mappings
                 = Ok edge_screen) by (vm_compute; reflexivity).
  destruct (alerts_strictly_above_thresholds _ _ _ _ _ Hrun)
    as (Hloss & Hlat & Hl20 & Ht200).
  split; [exact Hrun |].
  split; [apply Hlat; split; reflexivity |].
  split.
  { eexists. split; [| apply Hloss; eexists; split; [right; left |];
                        split; [vm_compute; reflexivity |];
                        split; reflexivity].
    reflexivity. }
  split.
  - intros t Hin. pose proof Hin as Hin'.
    apply Hlat in Hin' as [Ht _]. vm_compute in Ht. injection Ht as <-.
    revert Hin. apply Ht200. reflexivity.
  - intros l Hin. pose proof Hin as Hin'.
    apply Hloss in Hin' as (h & _ & Hh & Hl & _).
    vm_compute in Hh. injection Hh as <-.
    revert Hin. apply Hl20. rewrite Hl. reflexivity.
Defined.

(** ** Prober *)

Lemma quot_bounds a b :
  (0 < b)%Z ->
  ((0 <= a -> 0 <= Z.quot a b /\ Z.quot a b * b <= a < (Z.quot a b + 1) * b) /\
   (a <= 0 -> Z.quot a b <= 0 /\ (Z.quot a b - 1) * b < a <= Z.quot a b * b))%Z.
Proof.
  intros Hb. pose proof (Z.quot_rem' a b) as Hqr. split; intros Ha.
  - pose proof (Z.rem_bound_pos a b Ha Hb) as Hr.
    pose proof (Z.quot_pos a b Ha Hb). nia.
  - pose proof (Z.rem_bound_pos_neg a b Hb Ha) as Hr.
    assert (Z.quot a b <= 0)%Z.
    { rewrite <- (Z.opp_involutive a), Z.quot_opp_l by lia.
      pose proof (Z.quot_pos (- a) b ltac:(lia) Hb). lia. }
    nia.
Qed.

(** [int] drops the fractional part towards zero. *)
Lemma int_of_float_bounds x :
  ((0 <= x)%Q ->
   (0 <= int_of_float x)%Z /\
   (inject_Z (int_of_float x) <= x)%Q /\
   (x < inject_Z (int_of_float x) + 1)%Q) /\
  ((x <= 0)%Q ->
   (int_of_float x <= 0)%Z /\
   (inject_Z (int_of_float x) - 1 < x)%Q /\
   (x <= inject_Z (int_of_float x))%Q).
Proof.
  destruct x as [a b]. unfold int_of_float. cbn [Qnum Qden].
  destruct (quot_bounds a (Zpos b) ltac:(lia)) as [Hpos Hneg].
  unfold Qle, Qlt. cbn. rewrite !Z.mul_1_r. split; intros Ha.
  - destruct (Hpos Ha) as (? & ? & ?). repeat split; lia.
  - destruct (Hneg Ha) as (? & ? & ?). repeat split; lia.
Qed.




(** Timeouts of 2.7 and of 0.5 seconds, the timeouts the command line
    accepts besides the finite ones, and the timeout of 0.1 seconds, whose
    sum with 1 is rounded. *)
Lemma timeouts_of_the_command_line :
  ping_command alias_system "10.0.0.1" 0x1.599999999999ap+1%float
  = Ok "ping -c 1 -W 2 10.0.0.1" /\
  ping_command alias_system "10.0.0.1" 0.5%float
  = Ok "ping -c 1 -W 0 10.0.0.1" /\
  ping_command alias_system "10.0.0.1" infinity = Raise OverflowError /\
  ping_command alias_system "10.0.0.1" neg_infinity = Raise OverflowError /\
  ping_command alias_system "10.0.0.1" nan = Raise ValueError /\
  (exists t s,
      exact_value 0x1.999999999999ap-4%float = Some t /\
      exact_value (0x1.999999999999ap-4 + 1)%float = Some s /\
      ~ (s == t + 1)%Q).
Proof.
  repeat split; try (vm_compute; reflexivity).
  do 2 eexists. split; [vm_compute; reflexivity |].
  split; [vm_compute; reflexivity |]. vm_compute. discriminate.
Qed.

(** What a failed probe returns and what recording it does: when the wait
    for the subprocess runs into its deadline, when anything else goes
    wrong with the subprocess, and when its output holds no round-trip time
    (as for an unreachable destination), the probe returns [None] and
    raises nothing; recording [None] counts a failed packet and appends a
    failure to the window. *)
Lemma probe_failure_is_data :
  (forall sys shell ip (timeout : float) cmd,
      ping_command sys ip timeout = Ok cmd ->
      shell cmd (timeout + 1)%float = DeadlineExpired \/
      (exists e, shell cmd (timeout + 1)%float = Failed e) \/
      (exists out, shell cmd (timeout + 1)%float = Completed out /\
                   re_search_time out = None) ->
      ping_ip sys shell ip timeout = Ok None) /\
  (forall h,
      failed_packets (record_result h None) = (failed_packets h + 1)%Z /\
      success_packets (record_result h None) = success_packets h /\
      total_packets (record_result h None) = (total_packets h + 1)%Z /\
      ((length (items (pings h)) <= maxlen (pings h))%nat ->
       (0 < maxlen (pings h))%nat ->
       last (items (pings (record_result h None))) = Some None)).
Proof.
  split.
  - intros sys shell ip timeout cmd Hcmd Hev. unfold ping_ip. rewrite Hcmd.
    cbn [mbind result_bind].
    destruct Hev as [-> | [[e ->] | (out & -> & ->)]]; reflexivity.
  - intros h. repeat split. intros Hle Hpos. cbn [record_result pings].
    rewrite deque_append_items by done.
    rewrite drop_app_le by lia.
    by rewrite last_snoc.
Qed.

Lemma probe_failure_is_data_example :
  re_search_time
    "From 10.0.0.9 icmp_seq=1 Destination Host Unreachable, time 0ms" = None /\
  ping_ip alias_system (alias_net 0%nat 0%nat) "10.0.0.9" 2%float = Ok None.
Proof. split; reflexivity. Qed.

(** ** Completeness of a round *)

Lemma dict_getitem_zip {A : Type} (ks : list string) (vs : list A) i k v :
  NoDup ks -> ks !! i = Some k -> vs !! i = Some v ->
  dict_getitem k (zip ks vs) = Some v.
Proof.
  revert vs i. induction ks as [|k0 ks IH]; intros vs i Hnd Hk Hv; [done |].
  apply NoDup_cons in Hnd as [Hk0 Hnd].
  destruct vs as [|v0 vs]; [by destruct i |].
  destruct i as [|i]; cbn in Hk, Hv |- *.
  - injection Hk as ->. injection Hv as ->. by rewrite decide_True.
  - rewrite decide_False; [by eapply IH |].
    intros ->. apply Hk0. by eapply list_elem_of_lookup_2.
Qed.

(** When the targets have distinct names and distinct addresses, a round
    in a dependable environment records for every target the outcome of
    its own probe, and only that. *)
Theorem distinct_addresses_complete_round sys shell args ip_mappings st :
  dependable sys args ->
  NoDup ip_mappings.*1 ->
  NoDup ip_mappings.*2 ->
  tracked ip_mappings (histories st) ->
  exists st',
    round sys shell args ip_mappings st = Ok st' /\
    forall i original resolved,
      ip_mappings !! i = Some (original, resolved) ->
      exists h res,
        histories st !! original = Some h /\
        ping_ip sys (shell i) resolved (timeout args) = Ok res /\
        histories st' !! original = Some (record_result h res).
Proof.
  intros Henv Hnames Haddrs Htr.
  destruct (dependable_runs sys args shell ip_mappings.*2 Henv)
    as [Hterm _].
  destruct Henv as (_ & Hfin & _). set (t := timeout args) in *.
  rewrite (round_unfold _ _ _ _ _ t Hterm)
    by (by apply ping_all_ips_Finite).
  unfold probes.
  set (results := imap (fun i ip => probe sys (shell i) ip t)
                       ip_mappings.*2).
  assert (Hlen : length results = length ip_mappings).
  { unfold results. by rewrite length_imap, length_fmap. }
  rewrite (dict_of_items_NoDup (zip ip_mappings.*2 results)).
  2: { rewrite fst_zip; [done |]. rewrite length_fmap. lia. }
  rewrite map_to_originals_Ok.
  2: { rewrite length_zip_with, length_fmap. lia. }
  unfold dict_values. rewrite snd_zip by (rewrite length_fmap; lia).
  rewrite (dict_of_items_NoDup (zip ip_mappings.*1 results)).
  2: { rewrite fst_zip; [done |]. rewrite length_fmap. lia. }
  set (mapped := zip ip_mappings.*1 results).
  assert (Hkeys : mapped.*1 = ip_mappings.*1).
  { unfold mapped. rewrite fst_zip; [done |]. rewrite length_fmap. lia. }
  destruct (record_round_lookup mapped (histories st))
    as (hs' & Hrun & Hlook).
  { by rewrite Hkeys. }
  { intros o Ho. apply Htr. by rewrite <- Hkeys. }
  cbn. rewrite Hrun. cbn.
  destruct (print_tables_Ok mapped hs' ip_mappings) as (out & Hout).
  { intros ip Hip. unfold dict_keys in Hip. rewrite Hkeys in Hip.
    split; [| done].
    rewrite Hlook. destruct (Htr ip Hip) as [h ->]. by eexists. }
  rewrite Hout. cbn. eexists. split; [done |].
  intros i original resolved Hi. cbn [histories].
  assert (Ho : ip_mappings.*1 !! i = Some original).
  { by rewrite list_lookup_fmap, Hi. }
  assert (Hr : results !! i = Some (probe sys (shell i) resolved t)).
  { unfold results. by rewrite list_lookup_imap, list_lookup_fmap, Hi. }
  destruct (Htr original) as [h Hh].
  { by eapply list_elem_of_lookup_2. }
  exists h, (probe sys (shell i) resolved t). split; [done |].
  split; [by apply ping_ip_Finite |].
  rewrite Hlook, Hh. cbn. unfold mapped.
  by rewrite (dict_getitem_zip _ _ i original _ Hnames Ho Hr).
Qed.

Lemma distinct_addresses_complete_round_witness :
  exists st',
    round alias_system (alias_net 0) alias_args
          [("a.example", "10.0.0.1"); ("c.example", "10.0.0.2")]
          (Monitor 0
             (init_histories
                [("a.example", "10.0.0.1"); ("c.example", "10.0.0.2")]) [])
    = Ok st' /\
    (total_packets <$> histories st' !! "a.example") = Some 1%Z /\
    (total_packets <$> histories st' !! "c.example") = Some 1%Z.
Proof.
  destruct (distinct_addresses_complete_round alias_system (alias_net 0)
              alias_args
              [("a.example", "10.0.0.1"); ("c.example", "10.0.0.2")]
              (Monitor 0
                 (init_histories
                    [("a.example", "10.0.0.1"); ("c.example", "10.0.0.2")]) []))
    as (st' & Hrun & Hall).
  - split; [by exists 80%nat | split; by eexists].
  - compute_done.
  - compute_done.
  - apply reachable_init.
  - exists st'. split; [exact Hrun |]. split.
    + destruct (Hall 0%nat "a.example" "10.0.0.1" eq_refl)
        as (h & res & Hh & _ & ->).
      vm_compute in Hh. injection Hh as <-. reflexivity.
    + destruct (Hall 1%nat "c.example" "10.0.0.2" eq_refl)
        as (h & res & Hh & _ & ->).
      vm_compute in Hh. injection Hh as <-. reflexivity.
Defined.

(** C6 fails on the code.  With three targets of which the first two
    resolve to one address, the round result handed to the record loop has
    two entries: the first target with the second probe's outcome and the
    second target with the third probe's; the third target gets no entry, is
    never recorded and is never shown. *)
Theorem aliased_target_gets_no_outcome :
  parse_arguments alias_system alias_args
  = Ok [("a.example", "10.0.0.1"); ("b.example", "10.0.0.1");
        ("c.example", "10.0.0.2")] /\
  ping_all_ips alias_system (alias_net 0)
    ["10.0.0.1"; "10.0.0.1"; "10.0.0.2"] TIMEOUT
  = Ok [("10.0.0.1", Some (float_of_string "10.0"));
        ("10.0.0.2", Some (float_of_string "30.0"))] /\
  map_to_originals
    [("a.example", "10.0.0.1"); ("b.example", "10.0.0.1");
     ("c.example", "10.0.0.2")]
    [("10.0.0.1", Some (float_of_string "10.0"));
     ("10.0.0.2", Some (float_of_string "30.0"))]
  = Ok [("a.example", Some (float_of_string "10.0"));
        ("b.example", Some (float_of_string "30.0"))] /\
  exists st,
    main 1 alias_system alias_net alias_args = Ok st /\
    ping_count st = 1%Z /\
    histories st !! "c.example" = Some new_history /\
    (items ∘ pings <$> histories st !! "b.example")
    = Some [Some (float_of_string "30.0")] /\
    forall resolved last stats,
      StatusRow "c.example" resolved last stats ∉ screen st.
Proof.
  split; [vm_compute; reflexivity |].
  split; [vm_compute; reflexivity |].
  split; [vm_compute; reflexivity |].
  eexists. split; [vm_compute; reflexivity |].
  split; [reflexivity |].
  split; [vm_compute; reflexivity |].
  split; [vm_compute; reflexivity |].
  intros resolved last stats Hin. cbn [screen] in Hin.
  repeat (apply elem_of_cons in Hin as [Hin | Hin]; [discriminate |]).
  by apply elem_of_nil in Hin.
Qed.

(** C9 fails on the code, by the defect of C6.  With the target [8.8.8.8]
    given twice, the first probe of every round runs into its deadline and
    returns [None], but the dict of [ping_all_ips] has one entry for the
    address, holding the outcome of the second probe: after three rounds
    the history shows three successes and no failure, and the loss of its
    window is 0. *)
Theorem failure_of_repeated_address_is_lost :
  parse_arguments literal_system twice_args
  = Ok [("8.8.8.8", "8.8.8.8"); ("8.8.8.8", "8.8.8.8")] /\
  (forall round,
      ping_ip literal_system (first_expires_net round 0) "8.8.8.8"
              TIMEOUT = Ok None /\
      ping_all_ips literal_system (first_expires_net round)
                   ["8.8.8.8"; "8.8.8.8"] TIMEOUT
      = Ok [("8.8.8.8", Some (float_of_string "10.0"))]) /\
  exists st h,
    main 3 literal_system first_expires_net twice_args = Ok st /\
    ping_count st = 3%Z /\
    histories st !! "8.8.8.8" = Some h /\
    total_packets h = 3%Z /\
    success_packets h = 3%Z /\
    failed_packets h = 0%Z /\
    items (pings h)
    = [Some (float_of_string "10.0"); Some (float_of_string "10.0");
       Some (float_of_string "10.0")] /\
    (stat_loss (calculate_statistics (items (pings h))) == 0)%Q.
Proof.
  split; [vm_compute; reflexivity |].
  split; [intros round; split; reflexivity |].
  do 2 eexists. split; [vm_compute; reflexivity |].
  split; [reflexivity |].
  split; [vm_compute; reflexivity |].
  repeat split.
Qed.

(** * Further properties *)

(** ** The loop, continued *)

Lemma round_inv sys shell args ip_mappings st st' :
  round sys shell args ip_mappings st = Ok st' ->
  exists t mapped,
    ping_all_ips sys shell ip_mappings.*2 (timeout args)
    = Ok (probes sys shell ip_mappings.*2 t) /\
    map_to_originals ip_mappings (probes sys shell ip_mappings.*2 t)
    = Ok mapped /\
    record_round mapped (histories st) = Ok (histories st') /\
    print_tables mapped (histories st') ip_mappings = Ok (screen st') /\
    ping_count st' = (ping_count st + 1)%Z.
Proof.
  intros Hrun. destruct (round_runs _ _ _ _ _ _ Hrun) as [Hterm [t Hping]].
  rewrite (round_unfold _ _ _ _ _ t Hterm Hping) in Hrun.
  apply bind_Ok_inv in Hrun as (mapped & Hmap & Hrun).
  apply bind_Ok_inv in Hrun as (hs' & Hrec & Hrun).
  apply bind_Ok_inv in Hrun as (out & Hout & Hrun).
  injection Hrun as <-. exists t, mapped. cbn. done.
Qed.

(** What holds at the start and is kept by every round that returns holds
    at the end of every loop that returns. *)
Lemma main_loop_invariant (P : monitor -> Prop) fuel sys net args ip_mappings
    st st' :
  (forall st1 st2 shell,
      reachable ip_mappings st1 -> P st1 ->
      round sys shell args ip_mappings st1 = Ok st2 -> P st2) ->
  reachable ip_mappings st -> P st ->
  main_loop fuel sys net args ip_mappings st = Ok st' ->
  reachable ip_mappings st' /\ P st'.
Proof.
  intros Hstep. revert st. induction fuel as [|fuel IH]; intros st Hst HP Hrun.
  - by injection Hrun as <-.
  - cbn [main_loop] in Hrun.
    destruct (keep_going args st); [| by injection Hrun as <-].
    apply bind_Ok_inv in Hrun as (st1 & Hround & Hrun).
    destruct (round_reachable _ _ _ _ _ _ Hst Hround) as (Hst1 & _).
    apply (IH st1); [done | | done].
    eapply Hstep; [exact Hst | exact HP | exact Hround].
Qed.

(** In a dependable environment the loop from the initial histories raises
    nothing. *)
Lemma main_loop_starts fuel sys net args ip_mappings :
  dependable sys args ->
  exists st,
    main_loop fuel sys net args ip_mappings
              (Monitor 0 (init_histories ip_mappings) []) = Ok st.
Proof. intros Henv. apply main_loop_Ok; [done | apply reachable_init]. Qed.





Lemma round_keeps_keys sys shell args ip_mappings st st' :
  tracked ip_mappings (histories st) ->
  round sys shell args ip_mappings st = Ok st' ->
  ping_count st' = (ping_count st + 1)%Z /\
  forall o,
    option_Forall2
      (fun h h' => h' = h \/ exists res, h' = record_result h res)
      (histories st !! o) (histories st' !! o).
Proof. apply round_step. Qed.

(** X2: the histories are, for the whole run, exactly those of the original
    names: none is added and none is dropped. *)
Theorem history_keys_are_fixed fuel sys net args ip_mappings :
  (dependable sys args ->
   exists st,
     main_loop fuel sys net args ip_mappings
               (Monitor 0 (init_histories ip_mappings) []) = Ok st) /\
  forall st,
    main_loop fuel sys net args ip_mappings
              (Monitor 0 (init_histories ip_mappings) []) = Ok st ->
    forall o, is_Some (histories st !! o) <-> o ∈ ip_mappings.*1.
Proof.
  split; [apply main_loop_starts |]. intros st Hrun.
  apply (main_loop_invariant
           (fun st => forall o, is_Some (histories st !! o)
                                <-> o ∈ ip_mappings.*1)
           fuel sys net args ip_mappings
           (Monitor 0 (init_histories ip_mappings) []) st);
    [| apply reachable_init | | exact Hrun].
  - intros st1 st2 shell [Htr _] Hkeys Hround o.
    destruct (round_keeps_keys _ _ _ _ _ _ Htr Hround) as [_ Hstep].
    rewrite <- Hkeys. specialize (Hstep o).
    destruct Hstep as [h h' _ |]; split; intros [x Hx];
      first [by eexists | discriminate].
  - intros o. cbn. unfold init_histories.
    rewrite init_histories_lookup, lookup_empty.
    case_decide as Hin; split; intros H';
      [done | by eexists | by destruct H' | done].
Qed.

(** X3: a target is recorded at most once per round: its lifetime total
    never exceeds the number of rounds run. *)
Theorem total_at_most_rounds fuel sys net args ip_mappings :
  (dependable sys args ->
   exists st,
     main_loop fuel sys net args ip_mappings
               (Monitor 0 (init_histories ip_mappings) []) = Ok st) /\
  forall st,
    main_loop fuel sys net args ip_mappings
              (Monitor 0 (init_histories ip_mappings) []) = Ok st ->
    forall o h,
      histories st !! o = Some h ->
      (0 <= total_packets h <= ping_count st)%Z.
Proof.
  split; [apply main_loop_starts |]. intros st Hrun.
  apply (main_loop_invariant
           (fun st => forall o h, histories st !! o = Some h ->
                                  (0 <= total_packets h <= ping_count st)%Z)
           fuel sys net args ip_mappings
           (Monitor 0 (init_histories ip_mappings) []) st);
    [| apply reachable_init | | exact Hrun].
  - intros st1 st2 shell [Htr _] Hbound Hround o h2 Hh2.
    destruct (round_keeps_keys _ _ _ _ _ _ Htr Hround) as [Hpc Hstep].
    specialize (Hstep o). rewrite Hh2 in Hstep.
    inversion Hstep as [h1 ? Hcase Hh1 |]; subst.
    symmetry in Hh1. specialize (Hbound o h1 Hh1).
    destruct Hcase as [-> | [res ->]]; rewrite ?record_result_total; lia.
  - intros o h. cbn. unfold init_histories.
    rewrite init_histories_lookup, lookup_empty.
    case_decide; [| done]. intros [= <-]. cbn. lia.
Qed.

(** A round that returns on targets with distinct names and distinct
    addresses has recorded one outcome for every target. *)
Lemma distinct_addresses_every_total sys shell args ip_mappings st st' :
  NoDup ip_mappings.*1 ->
  NoDup ip_mappings.*2 ->
  tracked ip_mappings (histories st) ->
  round sys shell args ip_mappings st = Ok st' ->
  forall i original resolved,
    ip_mappings !! i = Some (original, resolved) ->
    exists h res,
      histories st !! original = Some h /\
      histories st' !! original = Some (record_result h res).
Proof.
  intros Hnames Haddrs Htr Hround i original resolved Hi.
  destruct (round_inv _ _ _ _ _ _ Hround)
    as (t & mapped & _ & Hmap & Hrec & _ & _).
  unfold probes in Hmap.
  set (results := imap (fun i ip => probe sys (shell i) ip t)
                       ip_mappings.*2) in Hmap.
  assert (Hlen : length results = length ip_mappings).
  { unfold results. by rewrite length_imap, length_fmap. }
  rewrite (dict_of_items_NoDup (zip ip_mappings.*2 results)) in Hmap.
  2: { rewrite fst_zip; [done |]. rewrite length_fmap. lia. }
  rewrite map_to_originals_Ok in Hmap.
  2: { rewrite length_zip_with, length_fmap. lia. }
  unfold dict_values in Hmap.
  rewrite snd_zip in Hmap by (rewrite length_fmap; lia).
  rewrite (dict_of_items_NoDup (zip ip_mappings.*1 results)) in Hmap.
  2: { rewrite fst_zip; [done |]. rewrite length_fmap. lia. }
  injection Hmap as <-.
  set (mapped := zip ip_mappings.*1 results) in *.
  assert (Hkeys : mapped.*1 = ip_mappings.*1).
  { unfold mapped. rewrite fst_zip; [done |]. rewrite length_fmap. lia. }
  destruct (record_round_lookup mapped (histories st))
    as (hs' & Hrun & Hlook).
  { by rewrite Hkeys. }
  { intros o Ho. apply Htr. by rewrite <- Hkeys. }
  rewrite Hrec in Hrun. injection Hrun as <-.
  assert (Ho : ip_mappings.*1 !! i = Some original).
  { by rewrite list_lookup_fmap, Hi. }
  assert (Hr : results !! i = Some (probe sys (shell i) resolved t)).
  { unfold results. by rewrite list_lookup_imap, list_lookup_fmap, Hi. }
  destruct (Htr original) as [h Hh].
  { by eapply list_elem_of_lookup_2. }
  exists h, (probe sys (shell i) resolved t). split; [done |].
  rewrite Hlook, Hh. cbn. unfold mapped.
  by rewrite (dict_getitem_zip _ _ i original _ Hnames Ho Hr).
Qed.

(** X4: when the targets have distinct names and distinct addresses, every
    target is recorded in every round: its lifetime total is the number of
    rounds run. *)
Theorem total_is_rounds_when_distinct fuel sys net args ip_mappings :
  NoDup ip_mappings.*1 ->
  NoDup ip_mappings.*2 ->
  (dependable sys args ->
   exists st,
     main_loop fuel sys net args ip_mappings
               (Monitor 0 (init_histories ip_mappings) []) = Ok st) /\
  forall st,
    main_loop fuel sys net args ip_mappings
              (Monitor 0 (init_histories ip_mappings) []) = Ok st ->
    forall o h, histories st !! o = Some h -> total_packets h = ping_count st.
Proof.
  intros Hnames Haddrs.
  split; [apply main_loop_starts |]. intros st Hrun.
  apply (main_loop_invariant
           (fun st =>
              (forall o, is_Some (histories st !! o) -> o ∈ ip_mappings.*1) /\
              forall o h, histories st !! o = Some h ->
                          total_packets h = ping_count st)
           fuel sys net args ip_mappings
           (Monitor 0 (init_histories ip_mappings) []) st);
    [| apply reachable_init | | exact Hrun].
  - intros st1 st2 shell [Htr _] [Hdom Htot] Hround.
    destruct (round_keeps_keys _ _ _ _ _ _ Htr Hround) as [Hpc Hstep].
    assert (Hdom2 : forall o, is_Some (histories st2 !! o) -> o ∈ ip_mappings.*1).
    { intros o [h2 Hh2]. apply Hdom. specialize (Hstep o).
      rewrite Hh2 in Hstep. inversion Hstep. eauto. }
    split; [exact Hdom2 |].
    intros o h2 Hh2.
    pose proof (distinct_addresses_every_total sys shell args ip_mappings
                  st1 st2 Hnames Haddrs Htr Hround) as Hall.
    assert (Ho : o ∈ ip_mappings.*1) by (apply Hdom2; eauto).
    apply list_elem_of_fmap in Ho as ([o' r] & -> & Hin).
    apply list_elem_of_lookup in Hin as [i Hi].
    destruct (Hall i o' r Hi) as (h1 & res & Hh1 & Hh2').
    cbn in Hh2. rewrite Hh2 in Hh2'. injection Hh2' as ->.
    rewrite record_result_total, (Htot _ _ Hh1). lia.
  - split.
    + intros o. cbn. unfold init_histories.
      rewrite init_histories_lookup, lookup_empty.
      case_decide; [done | by intros [? ?]].
    + intros o h. cbn. unfold init_histories.
      rewrite init_histories_lookup, lookup_empty.
      case_decide; [| done]. by intros [= <-].
Qed.

Lemma total_is_rounds_when_distinct_witness :
  exists st,
    main_loop 3 alias_system alias_net repeated_args pair_mappings
              (Monitor 0 (init_histories pair_mappings) []) = Ok st /\
    forall o h, histories st !! o = Some h -> total_packets h = ping_count st.
Proof.
  destruct (total_is_rounds_when_distinct 3 alias_system alias_net
              repeated_args pair_mappings) as [Hstarts Htotal];
    [compute_done | compute_done |].
  destruct Hstarts as [st Hrun].
  { split; [by exists 80%nat | split; by eexists]. }
  exists st. split; [exact Hrun | by apply Htotal].
Defined.

Lemma valid_pings_app l1 l2 :
  valid_pings (l1 ++ l2) = valid_pings l1 ++ valid_pings l2.
Proof.
  induction l1 as [|[x|] l1 IH]; [done | |].
  - cbn [app]. rewrite !valid_pings_cons_Some, IH. done.
  - cbn [app]. rewrite !valid_pings_cons_None, IH. done.
Qed.

Lemma replay_success h log :
  success_packets (replay h log)
  = (success_packets h + Z.of_nat (length (valid_pings log)))%Z.
Proof.
  induction log as [|res log IH] using rev_ind; cbn; [lia |].
  rewrite replay_snoc, valid_pings_app, length_app.
  destruct res; cbn; rewrite IH; lia.
Qed.

Lemma failures_drop k log : (failures (drop k log) <= failures log)%nat.
Proof.
  rewrite <- (take_drop k log) at 2. rewrite failures_app. lia.
Qed.

Lemma valid_pings_drop k log :
  (length (valid_pings (drop k log)) <= length (valid_pings log))%nat.
Proof.
  rewrite <- (take_drop k log) at 2. rewrite valid_pings_app, length_app. lia.
Qed.

(** X5: the window and the lifetime counters of a target: the window holds
    min(total, 50) outcomes; it never holds more failures than were ever
    counted, nor more successes; and until the total passes 50 the window
    and the counters agree exactly. *)
Theorem window_against_counters fuel sys net args ip_mappings :
  (dependable sys args ->
   exists st,
     main_loop fuel sys net args ip_mappings
               (Monitor 0 (init_histories ip_mappings) []) = Ok st) /\
  forall st,
    main_loop fuel sys net args ip_mappings
              (Monitor 0 (init_histories ip_mappings) []) = Ok st ->
    forall o h,
      histories st !! o = Some h ->
      Z.of_nat (length (items (pings h)))
      = Z.min (total_packets h) (Z.of_nat MAX_HISTORY) /\
      (Z.of_nat (failures (items (pings h))) <= failed_packets h)%Z /\
      (Z.of_nat (length (valid_pings (items (pings h)))) <= success_packets h)%Z /\
      ((total_packets h <= Z.of_nat MAX_HISTORY)%Z ->
       Z.of_nat (failures (items (pings h))) = failed_packets h /\
       Z.of_nat (length (valid_pings (items (pings h)))) = success_packets h).
Proof.
  split; [apply main_loop_starts |]. intros st Hrun.
  destruct (main_loop_reachable fuel sys net args ip_mappings _ _
              (reachable_init ip_mappings) Hrun) as ([_ Hrec] & _).
  intros o h Hh. destruct (Hrec o h Hh) as [log ->].
  destruct (replay_items new_history log) as [_ Hitems]; [cbn; lia |].
  cbn in Hitems. rewrite Hitems, replay_total, replay_failed, replay_success.
  cbn [new_history total_packets failed_packets success_packets].
  rewrite length_drop.
  pose proof (failures_drop (length log - MAX_HISTORY) log).
  pose proof (valid_pings_drop (length log - MAX_HISTORY) log).
  split; [lia |]. split; [lia |]. split; [lia |].
  intros Hle. replace (length log - MAX_HISTORY)%nat with 0%nat by lia.
  rewrite drop_0. split; lia.
Qed.


(** ** Targets that share an address *)

Lemma fst_zip_take {A B : Type} (l : list A) (k : list B) :
  (zip l k).*1 = take (length k) l.
Proof.
  revert k. induction l as [|x l IH]; intros [|y k]; cbn; [done.. |].
  by rewrite IH.
Qed.

Lemma NoDup_take_prefix {A : Type} (n : nat) (l : list A) :
  NoDup l -> NoDup (take n l).
Proof.
  intros Hnd. rewrite <- (take_drop n l) in Hnd.
  by apply NoDup_app in Hnd as [Hnd _].
Qed.

Lemma length_dict_of_items_distinct {V : Type} (its : list (string * V)) :
  length (dict_of_items its) = distinct_addresses its.*1.
Proof.
  unfold distinct_addresses.
  rewrite <- (length_fmap fst (dict_of_items its)).
  apply Permutation_length, NoDup_Permutation.
  - apply NoDup_dict_of_items.
  - apply NoDup_remove_dups.
  - intros x. rewrite elem_of_remove_dups.
    apply (elem_of_dict_of_items_keys its x).
Qed.

(** The result of a round of probes has one entry per distinct address. *)
Lemma length_probes_distinct sys shell ips t :
  length (probes sys shell ips t) = distinct_addresses ips.
Proof.
  unfold probes. rewrite length_dict_of_items_distinct.
  rewrite fst_zip; [done |]. by rewrite length_imap.
Qed.

(** X7: with distinct names, a round records exactly the first [d] targets
    of the command line, [d] being the number of distinct addresses, each
    with the value at its position in the result of [ping_all_ips]; the
    targets after them are left as they were. *)
Theorem round_records_leading_targets sys shell args ip_mappings st :
  NoDup ip_mappings.*1 ->
  tracked ip_mappings (histories st) ->
  (dependable sys args ->
   exists st', round sys shell args ip_mappings st = Ok st') /\
  forall st',
    round sys shell args ip_mappings st = Ok st' ->
    exists ping_data,
      ping_all_ips sys shell ip_mappings.*2 (timeout args) = Ok ping_data /\
      forall i original resolved,
        ip_mappings !! i = Some (original, resolved) ->
        exists h,
          histories st !! original = Some h /\
          histories st' !! original
          = Some match dict_values ping_data !! i with
                 | Some res => record_result h res
                 | None => h
                 end /\
          (is_Some (dict_values ping_data !! i)
           <-> (i < distinct_addresses ip_mappings.*2)%nat).
Proof.
  intros Hnames Htr. split.
  { intros Henv.
    destruct (dependable_runs sys args shell ip_mappings.*2 Henv)
      as [Hterm Hping].
    destruct (round_Ok sys shell args ip_mappings st Hterm Hping Htr)
      as (st' & Hrun & _).
    eauto. }
  intros st' Hround.
  destruct (round_inv _ _ _ _ _ _ Hround)
    as (t & mapped0 & Hping & Hmap & Hrec & _ & _).
  exists (probes sys shell ip_mappings.*2 t). split; [exact Hping |].
  set (ping_data := probes sys shell ip_mappings.*2 t) in *.
  assert (Hd : length (dict_values ping_data)
               = distinct_addresses ip_mappings.*2).
  { unfold dict_values. rewrite length_fmap.
    apply length_probes_distinct. }
  assert (Hlen : (length ping_data <= length ip_mappings)%nat).
  { etransitivity; [apply length_probes |]. by rewrite length_fmap. }
  rewrite map_to_originals_Ok in Hmap by done.
  assert (Hkeys : (zip ip_mappings.*1 (dict_values ping_data)).*1
                  = take (length (dict_values ping_data)) ip_mappings.*1)
    by apply fst_zip_take.
  rewrite (dict_of_items_NoDup (zip ip_mappings.*1 (dict_values ping_data)))
    in Hmap.
  2: { rewrite Hkeys. by apply NoDup_take_prefix. }
  injection Hmap as <-.
  set (mapped := zip ip_mappings.*1 (dict_values ping_data)) in *.
  assert (Hsub : forall o, o ∈ mapped.*1 -> o ∈ ip_mappings.*1).
  { intros o Ho. rewrite Hkeys in Ho. apply elem_of_take in Ho as (j & Hj & _).
    by eapply list_elem_of_lookup_2. }
  destruct (record_round_lookup mapped (histories st))
    as (hs' & Hrun & Hlook).
  { rewrite Hkeys. by apply NoDup_take_prefix. }
  { intros o Ho. apply Htr, Hsub, Ho. }
  rewrite Hrec in Hrun. injection Hrun as <-.
  intros i original resolved Hi.
  assert (Ho : ip_mappings.*1 !! i = Some original).
  { by rewrite list_lookup_fmap, Hi. }
  destruct (Htr original) as [h Hh].
  { by eapply list_elem_of_lookup_2. }
  exists h. split; [done |]. split.
  - rewrite Hlook, Hh. cbn. f_equal.
    destruct (dict_values ping_data !! i) as [res|] eqn:Hres.
    + unfold mapped.
      by rewrite (dict_getitem_zip _ _ i original res Hnames Ho Hres).
    + rewrite dict_getitem_None; [done |].
      rewrite Hkeys. intros Hin.
      apply elem_of_take in Hin as (j & Hj & Hjlt).
      assert (i = j) by (eapply NoDup_lookup; eauto). subst j.
      apply lookup_ge_None in Hres. lia.
  - rewrite <- Hd. apply lookup_lt_is_Some.
Qed.

Lemma round_records_leading_targets_witness :
  distinct_addresses
    [("a.example", "10.0.0.1"); ("b.example", "10.0.0.1");
     ("c.example", "10.0.0.2")].*2 = 2%nat /\
  exists st',
    round alias_system (alias_net 0) alias_args
          [("a.example", "10.0.0.1"); ("b.example", "10.0.0.1");
           ("c.example", "10.0.0.2")]
          (Monitor 0
             (init_histories
                [("a.example", "10.0.0.1"); ("b.example", "10.0.0.1");
                 ("c.example", "10.0.0.2")]) [])
    = Ok st' /\
    histories st' !! "c.example" = Some new_history.
Proof.
  split; [reflexivity |].
  destruct (round_records_leading_targets alias_system (alias_net 0) alias_args
              [("a.example", "10.0.0.1"); ("b.example", "10.0.0.1");
               ("c.example", "10.0.0.2")]
              (Monitor 0
                 (init_histories
                    [("a.example", "10.0.0.1"); ("b.example", "10.0.0.1");
                     ("c.example", "10.0.0.2")]) []))
    as (Hstarts & Hall).
  - compute_done.
  - apply reachable_init.
  - destruct Hstarts as [st' Hrun].
    { split; [by exists 80%nat | split; by eexists]. }
    exists st'. split; [exact Hrun |].
    destruct (Hall st' Hrun) as (ping_data & Hping & Hrows).
    vm_compute in Hping. injection Hping as <-.
    destruct (Hrows 2%nat "c.example" "10.0.0.2" eq_refl) as (h & Hh & Hh' & _).
    vm_compute in Hh. injection Hh as <-. rewrite Hh'. reflexivity.
Defined.

(** ** Statistics, continued *)

Lemma share_bounds f n :
  (f <= n)%nat -> (0 < n)%nat ->
  (0 <= float_of_nat f / float_of_nat n * 100)%Q /\
  (float_of_nat f / float_of_nat n * 100 <= 100)%Q /\
  ((float_of_nat f / float_of_nat n * 100 == 100)%Q <-> f = n) /\
  ((float_of_nat f / float_of_nat n * 100 == 0)%Q <-> f = 0%nat).
Proof.
  intros Hle Hpos.
  set (F := float_of_nat f). set (N := float_of_nat n).
  assert (HN : (0 < N)%Q).
  { unfold N, float_of_nat. rewrite <- (Zlt_Qlt 0). lia. }
  assert (HNz : ~ (N == 0)%Q).
  { intros Hz. rewrite Hz in HN. by apply Qlt_irrefl in HN. }
  assert (HF : (0 <= F)%Q).
  { unfold F, float_of_nat. rewrite <- (Zle_Qle 0). lia. }
  assert (HFN : (F <= N)%Q).
  { unfold F, N, float_of_nat. rewrite <- Zle_Qle. lia. }
  assert (Hback : (F == (F / N * 100) * (N / 100))%Q) by (field; exact HNz).
  assert (Hq0 : (0 <= F / N)%Q).
  { apply Qle_shift_div_l; [exact HN |]. by rewrite Qmult_0_l. }
  assert (Hq1 : (F / N <= 1)%Q).
  { apply Qle_shift_div_r; [exact HN |]. by rewrite Qmult_1_l. }
  split; [| split; [| split]].
  - apply Qmult_le_0_compat; [exact Hq0 | discriminate].
  - apply (Qle_trans _ (1 * 100)%Q); [| discriminate].
    apply Qmult_le_compat_r; [exact Hq1 | discriminate].
  - split.
    + intros H. rewrite H in Hback.
      assert (HFN' : (F == N)%Q) by (rewrite Hback; field).
      unfold F, N, float_of_nat in HFN'.
      apply (proj1 (inject_Z_injective _ _)) in HFN'. lia.
    + intros Heq. subst f. unfold F, N. field. exact HNz.
  - split.
    + intros H. rewrite H in Hback.
      assert (HF0 : (F == 0)%Q) by (rewrite Hback; field).
      unfold F, float_of_nat in HF0.
      apply (proj1 (inject_Z_injective _ 0)) in HF0. lia.
    + intros Heq. subst f. unfold F, N, float_of_nat. cbn [Z.of_nat].
      field. exact HNz.
Qed.

Lemma failures_zero history : failures history = 0%nat <-> None ∉ history.
Proof.
  induction history as [|[x|] history IH]; cbn.
  - split; [intros _; apply not_elem_of_nil | done].
  - rewrite IH, not_elem_of_cons. split; [by split | by intros [_ ?]].
  - split; [done |]. intros Hnot. exfalso. apply Hnot. left.
Qed.

Lemma valid_pings_nil history :
  valid_pings history = [] <-> forall latency, Some latency ∉ history.
Proof.
  split.
  - intros Hnil x Hx. apply elem_of_valid_pings in Hx.
    rewrite Hnil in Hx. by apply elem_of_nil in Hx.
  - intros Hnone. destruct (valid_pings history) as [|x xs] eqn:Hv; [done |].
    exfalso. apply (Hnone x), elem_of_valid_pings. rewrite Hv. left.
Qed.

(** X8: the loss is a percentage: between 0 and 100 for every window; 100
    exactly when the window holds no success (the empty window included);
    0 exactly when the window is not empty and holds no failure. *)
Theorem loss_is_a_percentage history :
  (0 <= stat_loss (calculate_statistics history))%Q /\
  (stat_loss (calculate_statistics history) <= 100)%Q /\
  ((stat_loss (calculate_statistics history) == 100)%Q
   <-> forall latency, Some latency ∉ history) /\
  ((stat_loss (calculate_statistics history) == 0)%Q
   <-> history <> [] /\ None ∉ history).
Proof.
  destruct history as [|e history'] eqn:Hhist.
  { cbn. repeat split; try done.
    - intros _ x Hx. by apply elem_of_nil in Hx.
    - by intros [? _]. }
  rewrite <- Hhist.
  assert (Hne : history <> []) by (by rewrite Hhist).
  pose proof (length_valid_failures history) as Hlen.
  assert (Hpos : (0 < length history)%nat) by (rewrite Hhist; cbn; lia).
  destruct (share_bounds (failures history) (length history) ltac:(lia) Hpos)
    as (H0 & H100 & Hall & Hnone).
  rewrite (loss_is_failure_share history Hne).
  split; [exact H0 |]. split; [exact H100 |]. split.
  - rewrite Hall, <- valid_pings_nil. split.
    + intros Heq. apply length_zero_iff_nil. lia.
    + intros Hnil. rewrite Hnil in Hlen. cbn in Hlen. lia.
  - rewrite Hnone, failures_zero. split; [by split | by intros [_ ?]].
Qed.

Lemma insert_number_Permutation x xs :
  Permutation (insert_number x xs) (x :: xs).
Proof.
  induction xs as [|y ys IH]; cbn; [done |].
  destruct (Qlt_bool y x); [| done].
  rewrite IH. apply perm_swap.
Qed.

Lemma sort_numbers_Permutation xs : Permutation (sort_numbers xs) xs.
Proof.
  induction xs as [|x xs IH]; cbn; [done |].
  rewrite insert_number_Permutation. by constructor.
Qed.

Lemma insert_number_sorted x xs :
  StronglySorted Qle xs -> StronglySorted Qle (insert_number x xs).
Proof.
  induction 1 as [|y ys Hsorted IH Hall]; cbn.
  - repeat constructor.
  - destruct (Qlt_bool y x) eqn:Hlt.
    + apply Qlt_bool_iff in Hlt. constructor; [exact IH |].
      rewrite insert_number_Permutation. constructor; [| exact Hall].
      by apply Qlt_le_weak.
    + assert (Hxy : (x <= y)%Q).
      { apply Qnot_lt_le. intros Hc. apply Qlt_bool_iff in Hc. congruence. }
      constructor; [by constructor |].
      constructor; [exact Hxy |].
      eapply Forall_impl; [exact Hall |].
      intros z Hz. by eapply Qle_trans.
Qed.

Lemma sort_numbers_sorted xs : StronglySorted Qle (sort_numbers xs).
Proof.
  induction xs as [|x xs IH]; cbn; [constructor |].
  by apply insert_number_sorted.
Qed.

Lemma nth_elem_of (s : list Q) i : (i < length s)%nat -> nth i s 0%Q ∈ s.
Proof. intros Hi. apply list_elem_of_In, nth_In, Hi. Qed.

Lemma sorted_nth_le (s : list Q) i j :
  StronglySorted Qle s -> (i <= j)%nat -> (j < length s)%nat ->
  (nth i s 0 <= nth j s 0)%Q.
Proof.
  intros Hs. revert i j. induction Hs as [|x s Hs IH Hall]; intros i j Hij Hj.
  - cbn in Hj. lia.
  - destruct i as [|i], j as [|j]; cbn in Hj |- *.
    + apply Qle_refl.
    + rewrite Forall_forall in Hall. apply Hall, nth_elem_of. lia.
    + lia.
    + apply IH; lia.
Qed.

(** The median lies between its two middle elements, which coincide for
    an odd number of data. *)
Lemma median_between_middles data :
  data <> [] ->
  let s := sort_numbers data in
  let n := length data in
  (n / 2 < n)%nat /\
  ((n - 1) / 2 <= n / 2)%nat /\
  (nth ((n - 1) / 2) s 0 <= median data)%Q /\
  (median data <= nth (n / 2) s 0)%Q /\
  (n - 1 - (n - 1) / 2 <= n / 2)%nat.
Proof.
  intros Hne. cbn zeta.
  assert (Hlen : length (sort_numbers data) = length data)
    by apply Permutation_length, sort_numbers_Permutation.
  assert (Hpos : (0 < length data)%nat) by (destruct data; [done | cbn; lia]).
  unfold median. rewrite Hlen.
  set (n := length data) in *.
  pose proof (Nat.div_mod_eq n 2) as Hdm.
  pose proof (Nat.div_mod_eq (n - 1) 2) as Hdm1.
  pose proof (Nat.mod_upper_bound n 2 ltac:(lia)) as Hm.
  pose proof (Nat.mod_upper_bound (n - 1) 2 ltac:(lia)) as Hm1.
  destruct (Nat.odd n) eqn:Hodd.
  - apply Nat.odd_spec in Hodd as [k Hk].
    assert (Hhalf : (n / 2 = k)%nat) by lia.
    assert (Hhalf1 : ((n - 1) / 2 = k)%nat) by lia.
    rewrite Hhalf, Hhalf1. repeat split; try lia; apply Qle_refl.
  - assert (Heven : Nat.even n = true).
    { rewrite <- Nat.negb_odd, Hodd. done. }
    apply Nat.even_spec in Heven as [k Hk].
    assert (Hhalf : (n / 2 = k)%nat) by lia.
    assert (Hhalf1 : ((n - 1) / 2 = k - 1)%nat) by lia.
    rewrite Hhalf, Hhalf1.
    assert (Hle : (nth (k - 1) (sort_numbers data) 0
                   <= nth k (sort_numbers data) 0)%Q).
    { apply sorted_nth_le; [apply sort_numbers_sorted | lia | lia]. }
    repeat split; try lia.
    + apply Qle_shift_div_l; [reflexivity | lra].
    + apply Qle_shift_div_r; [reflexivity | lra].
Qed.

(** X9: whenever a window has a success, the minimum, the median and the
    maximum are in this order: in exact arithmetic for every window, and in
    binary64 for the minimum and the maximum of every window and for the
    median of an odd number of successes, which is one of them.  The
    average is left out: in binary64 the sum of line 211 divided by the
    count can leave the range, as it does for three successes of 12.3 ms,
    whose average is above their maximum. *)
Theorem median_is_between_extremes history :
  valid_pings history <> [] ->
  (exists lo hi med,
      stat_min (calculate_statistics history) = Some lo /\
      stat_max (calculate_statistics history) = Some hi /\
      stat_median (calculate_statistics history) = Some med /\
      (lo <= med)%Q /\ (med <= hi)%Q /\ (lo <= hi)%Q) /\
  (forall window first rest,
      Binary64.valid_pings window = first :: rest ->
      exists lo hi med,
        Binary64.stat_min (Binary64.calculate_statistics window) = Some lo /\
        Binary64.stat_max (Binary64.calculate_statistics window) = Some hi /\
        Binary64.stat_median (Binary64.calculate_statistics window)
        = Some med /\
        PrimFloat.ltb hi lo = false /\
        (Nat.odd (length (first :: rest)) = true ->
         PrimFloat.ltb med lo = false /\ PrimFloat.ltb hi med = false)) /\
  exists window hi avg,
    Binary64.stat_max (Binary64.calculate_statistics window) = Some hi /\
    Binary64.stat_avg (Binary64.calculate_statistics window) = Some avg /\
    PrimFloat.ltb hi avg = true.
Proof.
  intros Hne. split; [| split]; cycle 1.
  { intros window first rest Hvalid.
    unfold Binary64.calculate_statistics. rewrite Hvalid.
    cbn [Binary64.stat_min Binary64.stat_max Binary64.stat_median].
    do 3 eexists. do 3 (split; [reflexivity |]).
    destruct (b64_py_min_spec first rest) as [Hmin Hlo].
    destruct (b64_py_max_spec first rest) as [Hmax Hhi].
    split; [by apply Hlo |].
    intros Hodd.
    assert (Hmed : Binary64.median (first :: rest) ∈ first :: rest).
    { unfold Binary64.median, Binary64.middle.
      pose proof (b64_sort_numbers_Permutation (first :: rest)) as Hperm.
      rewrite (Permutation_length Hperm), Hodd.
      eapply elem_of_Permutation_proper; [symmetry; exact Hperm |].
      apply list_elem_of_In, nth_In.
      rewrite (Permutation_length Hperm).
      apply Nat.div_lt; cbn [length]; lia. }
    split; [by apply Hlo | by apply Hhi]. }
  all: cycle 1.
  - unfold calculate_statistics.
    destruct (valid_pings history) as [|first rest] eqn:Hvalid; [done |].
    cbn [stat_min stat_max stat_avg stat_median].
    do 3 eexists. do 3 (split; [reflexivity |]).
    destruct (py_min_spec first rest) as [_ Hlo].
    destruct (py_max_spec first rest) as [_ Hhi].
    set (valid := first :: rest) in *.
    set (lo := py_min first rest) in *. set (hi := py_max first rest) in *.
    assert (Hmem : forall i, (i < length valid)%nat ->
                             (lo <= nth i (sort_numbers valid) 0)%Q /\
                             (nth i (sort_numbers valid) 0 <= hi)%Q).
    { intros i Hi.
      assert (Hin : nth i (sort_numbers valid) 0%Q ∈ valid).
      { rewrite <- (sort_numbers_Permutation valid) at 2. apply nth_elem_of.
        by rewrite (Permutation_length (sort_numbers_Permutation valid)). }
      split; auto. }
    destruct (median_between_middles valid ltac:(done))
      as (Hhalf & Hhalf1 & Hmlo & Mhi & _).
    destruct (Hmem (length valid / 2)%nat Hhalf) as [_ Hup].
    destruct (Hmem ((length valid - 1) / 2)%nat ltac:(lia)) as [Hdown _].
    assert (Hlm : (lo <= median valid)%Q) by by eapply Qle_trans.
    assert (Hmh : (median valid <= hi)%Q) by by eapply Qle_trans.
    split; [done |]. split; [done |]. by eapply Qle_trans.
  - exists [Some 0x1.899999999999ap+3%float; Some 0x1.899999999999ap+3%float;
            Some 0x1.899999999999ap+3%float].
    do 2 eexists. split; [reflexivity |]. split; [reflexivity |].
    vm_compute. reflexivity.
Qed.

Lemma median_is_between_extremes_witness :
  exists lo hi med,
    stat_min (calculate_statistics [Some 30%Q; None; Some 10%Q; Some 20%Q])
    = Some lo /\
    stat_max (calculate_statistics [Some 30%Q; None; Some 10%Q; Some 20%Q])
    = Some hi /\
    stat_median (calculate_statistics [Some 30%Q; None; Some 10%Q; Some 20%Q])
    = Some med /\
    (lo <= med)%Q /\ (med <= hi)%Q /\ (lo <= hi)%Q.
Proof.
  apply (median_is_between_extremes [Some 30%Q; None; Some 10%Q; Some 20%Q]).
  discriminate.
Defined.

Lemma count_below_app m l1 l2 :
  count_below m (l1 ++ l2) = (count_below m l1 + count_below m l2)%nat.
Proof. unfold count_below. by rewrite List.filter_app, length_app. Qed.

Lemma count_above_app m l1 l2 :
  count_above m (l1 ++ l2) = (count_above m l1 + count_above m l2)%nat.
Proof. unfold count_above. by rewrite List.filter_app, length_app. Qed.

Lemma filter_length_Permutation (f : Q -> bool) l l' :
  Permutation l l' ->
  length (List.filter f l) = length (List.filter f l').
Proof.
  induction 1 as [|x l l' _ IH|x y l|l l' l'' _ IH1 _ IH2]; cbn.
  - done.
  - destruct (f x); cbn; by rewrite IH.
  - destruct (f x), (f y); done.
  - by rewrite IH1.
Qed.

Lemma filter_length_none (f : Q -> bool) l :
  (forall x, x ∈ l -> f x = false) -> length (List.filter f l) = 0%nat.
Proof.
  induction l as [|x l IH]; intros Hall; [done |].
  cbn. rewrite (Hall x) by left. apply IH. intros y Hy. apply Hall. by right.
Qed.

Lemma filter_length_le (f : Q -> bool) l :
  (length (List.filter f l) <= length l)%nat.
Proof. induction l as [|x l IH]; cbn; [lia |]. destruct (f x); cbn; lia. Qed.

Lemma elem_of_drop_nth (s : list Q) k x :
  x ∈ drop k s -> exists j, (k <= j < length s)%nat /\ x = nth j s 0%Q.
Proof.
  intros Hx. apply list_elem_of_lookup in Hx as [i Hi].
  rewrite lookup_drop in Hi. exists (k + i)%nat. split.
  - apply lookup_lt_Some in Hi. lia.
  - symmetry. by apply nth_lookup_Some.
Qed.

Lemma elem_of_take_nth (s : list Q) k x :
  x ∈ take k s -> exists j, (j < k)%nat /\ (j < length s)%nat /\ x = nth j s 0%Q.
Proof.
  intros Hx. apply elem_of_take in Hx as (j & Hj & Hlt).
  exists j. split; [done |]. split.
  - by apply lookup_lt_Some in Hj.
  - symmetry. by apply nth_lookup_Some.
Qed.

(** X10: the median splits the successes of the window: at most half of
    them are strictly below it and at most half strictly above it. *)
Theorem median_splits_the_successes history med :
  stat_median (calculate_statistics history) = Some med ->
  (2 * count_below med (valid_pings history)
   <= length (valid_pings history))%nat /\
  (2 * count_above med (valid_pings history)
   <= length (valid_pings history))%nat.
Proof.
  unfold calculate_statistics.
  destruct (valid_pings history) as [|first rest] eqn:Hvalid; [done |].
  cbn [stat_median]. intros [= <-].
  set (valid := first :: rest) in *.
  set (s := sort_numbers valid).
  assert (Hperm : Permutation s valid) by apply sort_numbers_Permutation.
  assert (Hlen : length s = length valid) by by apply Permutation_length.
  assert (Hsorted : StronglySorted Qle s) by apply sort_numbers_sorted.
  destruct (median_between_middles valid ltac:(done))
    as (Hhalf & Hhalf1 & Hmlo & Hmhi & Hrest).
  fold s in Hmlo, Hmhi.
  set (n := length valid) in *. set (m := median valid) in *.
  split.
  - unfold count_below.
    rewrite <- (filter_length_Permutation _ _ _ Hperm).
    rewrite <- (take_drop (n / 2) s), List.filter_app, length_app.
    rewrite (filter_length_none _ (drop (n / 2) s)).
    + pose proof (filter_length_le (fun x => Qlt_bool x m) (take (n / 2) s)).
      rewrite length_take in H.
      pose proof (Nat.Div0.mul_div_le n 2).
      generalize dependent (length (List.filter (fun x => Qlt_bool x m)
                                      (take (n / 2) s))).
      intros c Hc. lia.
    + intros x Hx. apply elem_of_drop_nth in Hx as (j & [Hj1 Hj2] & ->).
      apply not_true_iff_false. intros Hlt. apply Qlt_bool_iff in Hlt.
      assert (Hle : (nth (n / 2) s 0 <= nth j s 0)%Q)
        by (apply sorted_nth_le; [done | lia | lia]).
      lra.
  - unfold count_above.
    rewrite <- (filter_length_Permutation _ _ _ Hperm).
    rewrite <- (take_drop (S ((n - 1) / 2)) s), List.filter_app, length_app.
    rewrite (filter_length_none _ (take (S ((n - 1) / 2)) s)).
    + pose proof (filter_length_le (fun x => Qlt_bool m x)
                    (drop (S ((n - 1) / 2)) s)).
      rewrite length_drop in H.
      pose proof (Nat.Div0.mul_div_le n 2).
      generalize dependent (length (List.filter (fun x => Qlt_bool m x)
                                      (drop (S ((n - 1) / 2)) s))).
      intros c Hc. lia.
    + intros x Hx. apply elem_of_take_nth in Hx as (j & Hj1 & Hj2 & ->).
      apply not_true_iff_false. intros Hlt. apply Qlt_bool_iff in Hlt.
      assert (Hle : (nth j s 0 <= nth ((n - 1) / 2) s 0)%Q)
        by (apply sorted_nth_le; [done | lia | lia]).
      lra.
Qed.

Lemma median_splits_the_successes_witness :
  stat_median
    (calculate_statistics [Some 30%Q; None; Some 10%Q; Some 20%Q; Some 10%Q])
  = Some ((10 + 20) / 2)%Q /\
  (2 * count_below ((10 + 20) / 2) [30%Q; 10%Q; 20%Q; 10%Q] <= 4)%nat /\
  (2 * count_above ((10 + 20) / 2) [30%Q; 10%Q; 20%Q; 10%Q] <= 4)%nat.
Proof.
  assert (H : stat_median
                (calculate_statistics
                   [Some 30%Q; None; Some 10%Q; Some 20%Q; Some 10%Q])
              = Some ((10 + 20) / 2)%Q) by reflexivity.
  split; [exact H |].
  exact (median_splits_the_successes _ _ H).
Defined.

(** ** Prober, continued *)

Lemma digit_value_nonneg c : is_digit c = true -> (0 <= digit_value c)%Z.
Proof.
  unfold is_digit, digit_value. rewrite andb_true_iff, Nat.leb_le. lia.
Qed.

Lemma read_digits_nonneg acc s : (0 <= acc)%Z -> (0 <= read_digits acc s)%Z.
Proof.
  revert acc. induction s as [|c s IH]; intros acc Hacc; [done |].
  cbn. apply IH. destruct (is_digit c) eqn:Hd; [| done].
  pose proof (digit_value_nonneg c Hd). lia.
Qed.

Lemma float_of_string_nonneg text : (0 <= float_of_string text)%Q.
Proof.
  unfold float_of_string. destruct (span_digits text) as [whole rest].
  unfold Qle. cbn [Qnum Qden]. rewrite Z.mul_1_r. cbn.
  apply read_digits_nonneg. lia.
Qed.

(** X11: a probe succeeds only when the timeout is finite, the subprocess
    ended within the wait bound and its output holds a round-trip time; the
    latency it returns is that time read as a decimal number, and is never
    negative. *)
Theorem probe_success_is_a_latency sys shell ip (timeout : float) v :
  ping_ip sys shell ip timeout = Ok (Some v) ->
  (0 <= v)%Q /\
  finite timeout /\
  exists cmd out group,
    ping_command sys ip timeout = Ok cmd /\
    shell cmd (timeout + 1)%float = Completed out /\
    re_search_time out = Some group /\
    v = float_of_string group.
Proof.
  intros Hrun. pose proof (ping_ip_inv _ _ _ _ _ Hrun) as [Hfin _].
  revert Hrun. unfold ping_ip.
  destruct (ping_command sys ip timeout) as [cmd|e]; [| done].
  cbn [mbind result_bind].
  destruct (shell cmd (timeout + 1)%float) as [out | |e] eqn:Hev; [| done..].
  destruct (re_search_time out) as [group|] eqn:Hre; [| done].
  intros [= <-]. split; [apply float_of_string_nonneg |].
  split; [done |]. by exists cmd, out, group.
Qed.

Lemma probe_success_is_a_latency_witness :
  ping_ip alias_system (alias_net 0 0) "10.0.0.1" 2%float
  = Ok (Some (float_of_string "10.0")) /\
  (0 <= float_of_string "10.0")%Q.
Proof.
  assert (H : ping_ip alias_system (alias_net 0 0) "10.0.0.1" 2%float
              = Ok (Some (float_of_string "10.0"))) by reflexivity.
  split; [exact H |].
  exact (proj1 (probe_success_is_a_latency _ _ _ _ _ H)).
Defined.

Section PyDictLookup.
Context {K V : Type} `{EqDecision K}.
Implicit Types (d its : list (K * V)).

Lemma dict_getitem_setitem_eq k v d :
  dict_getitem k (dict_setitem k v d) = Some v.
Proof.
  induction d as [|[k' v'] d IH]; cbn.
  - by rewrite decide_True.
  - destruct (decide (k' = k)) as [-> | Hne]; cbn.
    + by rewrite decide_True.
    + by rewrite decide_False.
Qed.

Lemma dict_getitem_setitem_ne k k' v d :
  k <> k' -> dict_getitem k' (dict_setitem k v d) = dict_getitem k' d.
Proof.
  intros Hne. induction d as [|[k0 v0] d IH]; cbn.
  - by rewrite decide_False.
  - destruct (decide (k0 = k)) as [-> | Hne0]; cbn.
    + by rewrite !decide_False.
    + by rewrite IH.
Qed.

Lemma foldl_setitem_getitem_notin its d k :
  k ∉ its.*1 ->
  dict_getitem k (foldl (fun d kv => dict_setitem kv.1 kv.2 d) d its)
  = dict_getitem k d.
Proof.
  revert d. induction its as [|[k' v] its IH]; intros d Hk; [done |].
  cbn in Hk |- *. apply not_elem_of_cons in Hk as [Hne Hk].
  rewrite IH by done. apply dict_getitem_setitem_ne. congruence.
Qed.

(** Of the items of one key, the last gives the value. *)
Lemma dict_of_items_last its1 its2 k v :
  k ∉ its2.*1 ->
  dict_getitem k (dict_of_items (its1 ++ (k, v) :: its2)) = Some v.
Proof.
  intros Hk. unfold dict_of_items. rewrite foldl_app. cbn [foldl].
  rewrite foldl_setitem_getitem_notin by done.
  apply dict_getitem_setitem_eq.
Qed.

End PyDictLookup.

(** X12: [ping_all_ips] keeps one entry per distinct address; when an
    address is probed by several tasks it is the outcome of the last of
    them that the entry holds, and an address that was not probed has no
    entry. *)
Theorem last_probe_of_an_address_wins sys shell ips (t : float) :
  (finite t ->
   exists ping_data, ping_all_ips sys shell ips t = Ok ping_data) /\
  forall ping_data,
    ping_all_ips sys shell ips t = Ok ping_data ->
    NoDup (dict_keys ping_data) /\
    (forall ip, ip ∈ dict_keys ping_data <-> ip ∈ ips) /\
    (forall ip, ip ∉ ips -> dict_getitem ip ping_data = None) /\
    (forall i ip,
        ips !! i = Some ip ->
        (forall j, (i < j)%nat -> ips !! j <> Some ip) ->
        exists res,
          ping_ip sys (shell i) ip t = Ok res /\
          dict_getitem ip ping_data = Some res).
Proof.
  split; [intros Hfin; rewrite ping_all_ips_Finite by done; eauto |].
  intros ping_data Hrun.
  pose proof (ping_all_ips_Ok_finite _ _ _ _ _ Hrun) as Hfin.
  rewrite (ping_all_ips_inv _ _ _ _ _ Hrun).
  unfold probes.
  set (results := imap (fun i ip => probe sys (shell i) ip t) ips).
  assert (Hlen : length results = length ips) by apply length_imap.
  assert (Hkeys : (zip ips results).*1 = ips).
  { apply fst_zip. lia. }
  split; [apply NoDup_dict_of_items |].
  assert (Hmem : forall ip,
             ip ∈ dict_keys (dict_of_items (zip ips results)) <-> ip ∈ ips).
  { intros ip. by rewrite elem_of_dict_of_items_keys, Hkeys. }
  split; [exact Hmem |]. split.
  - intros ip Hip. apply dict_getitem_None. by rewrite (Hmem ip).
  - intros i ip Hi Hlast.
    exists (probe sys (shell i) ip t). split.
    { apply ping_ip_Finite, Hfin. by intros ->. }
    assert (Hr : results !! i = Some (probe sys (shell i) ip t)).
    { unfold results. by rewrite list_lookup_imap, Hi. }
    assert (Hz : zip ips results !! i
                 = Some (ip, probe sys (shell i) ip t)).
    { by apply lookup_zip_Some. }
    rewrite <- (take_drop_middle _ _ _ Hz).
    apply dict_of_items_last.
    intros Hin. apply list_elem_of_fmap in Hin as ([ip' r] & Heq & Hin).
    cbn in Heq. subst ip'.
    apply list_elem_of_lookup in Hin as [j Hj].
    rewrite lookup_drop in Hj. apply lookup_zip_Some in Hj as [Hj _].
    apply (Hlast (S i + j)%nat); [lia | done].
Qed.

(** ** Presenter, continued *)







Lemma leb_trans a b c :
  String.leb a b = true -> String.leb b c = true -> String.leb a c = true.
Proof.
  unfold String.leb.
  destruct (String.compare a b) eqn:Hab; [| | done];
    destruct (String.compare b c) eqn:Hbc; try done; intros _ _.
  - apply String.compare_eq_iff in Hab. apply String.compare_eq_iff in Hbc.
    subst.
    pose proof (proj2 (OrderedTypeEx.String_as_OT.cmp_eq c c) eq_refl) as Hcc.
    unfold OrderedTypeEx.String_as_OT.cmp in Hcc. by rewrite Hcc.
  - apply String.compare_eq_iff in Hab. subst. by rewrite Hbc.
  - apply String.compare_eq_iff in Hbc. subst. by rewrite Hab.
  - apply OrderedTypeEx.String_as_OT.cmp_lt in Hab, Hbc.
    pose proof (OrderedTypeEx.String_as_OT.lt_trans _ _ _ Hab Hbc) as Hac.
    apply OrderedTypeEx.String_as_OT.cmp_lt in Hac.
    unfold OrderedTypeEx.String_as_OT.cmp in Hac. by rewrite Hac.
Qed.

Lemma insert_sorted_Permutation x xs :
  Permutation (insert_sorted x xs) (x :: xs).
Proof.
  induction xs as [|y ys IH]; cbn; [done |].
  destruct (String.leb x y); [done |].
  rewrite IH. apply perm_swap.
Qed.

Lemma sorted_Permutation xs : Permutation (sorted xs) xs.
Proof.
  induction xs as [|x xs IH]; cbn; [done |].
  rewrite insert_sorted_Permutation. by constructor.
Qed.

Lemma insert_sorted_ascending x xs :
  StronglySorted (fun a b => String.leb a b = true) xs ->
  StronglySorted (fun a b => String.leb a b = true) (insert_sorted x xs).
Proof.
  induction 1 as [|y ys Hsorted IH Hall]; cbn.
  - repeat constructor.
  - destruct (String.leb x y) eqn:Hxy.
    + constructor; [by constructor |].
      constructor; [exact Hxy |].
      eapply Forall_impl; [exact Hall |].
      intros z Hz. by eapply leb_trans.
    + assert (Hyx : String.leb y x = true).
      { destruct (String.leb_total x y); congruence. }
      constructor; [exact IH |].
      rewrite insert_sorted_Permutation. by constructor.
Qed.

Lemma sorted_ascending xs :
  StronglySorted (fun a b => String.leb a b = true) (sorted xs).
Proof.
  induction xs as [|x xs IH]; cbn; [constructor |].
  by apply insert_sorted_ascending.
Qed.

Lemma status_ips_warnings ip stats current_time :
  status_ips (warnings ip stats current_time) = [] /\
  packet_ips (warnings ip stats current_time) = [].
Proof.
  unfold warnings, status_ips, packet_ips.
  destruct (Qlt_bool LOSS_THRESHOLD (stat_loss stats));
    destruct current_time as [t|]; cbn; try done;
    destruct (Qlt_bool LATENCY_THRESHOLD t); done.
Qed.

Lemma rows_ips ping_data hs mapping_dict ips rows :
  Forall2 (fun ip row => status_lines ping_data hs mapping_dict ip = Ok row)
          ips rows ->
  status_ips (concat rows) = ips /\ packet_ips (concat rows) = [].
Proof.
  induction 1 as [|ip row ips rows Hline _ [IH1 IH2]]; [done |].
  apply status_lines_inv in Hline as (h & t & r & _ & _ & ->).
  destruct (status_ips_warnings ip (calculate_statistics (items (pings h))) t)
    as [Hw1 Hw2].
  cbn [concat]. unfold status_ips, packet_ips in *.
  rewrite !omap_app. cbn [omap list_omap]. rewrite Hw1, Hw2, IH1, IH2. done.
Qed.

Lemma packets_ips hs mapping_dict ips packets :
  Forall2 (fun ip p => packet_line hs mapping_dict ip = Ok p) ips packets ->
  status_ips packets = [] /\ packet_ips packets = ips.
Proof.
  induction 1 as [|ip p ips packets Hline _ [IH1 IH2]]; [done |].
  apply packet_line_inv in Hline as (r & a & b & c & ->).
  unfold status_ips, packet_ips in *. cbn. by rewrite IH1, IH2.
Qed.

(** X14: both tables of the screen list every key of [ping_data] exactly
    once, in ascending order of name, the status table first. *)
Theorem tables_list_targets_in_order sys ping_data hs ip_mappings out :
  print_ping_results sys ping_data hs ip_mappings = Ok out ->
  status_ips out = sorted (dict_keys ping_data) /\
  packet_ips out = sorted (dict_keys ping_data) /\
  Permutation (sorted (dict_keys ping_data)) (dict_keys ping_data) /\
  StronglySorted (fun a b => String.leb a b = true)
                 (sorted (dict_keys ping_data)) /\
  exists top bottom,
    out = top ++ bottom /\ packet_ips top = [] /\ status_ips bottom = [].
Proof.
  intros Hrun. apply print_ping_results_tables in Hrun as [_ Hrun].
  unfold print_tables in Hrun.
  apply bind_Ok_inv in Hrun as (rows & Hrows & Hrun).
  apply bind_Ok_inv in Hrun as (packets & Hpackets & Hrun).
  injection Hrun as <-.
  apply mapM_Ok_inv in Hrows. apply mapM_Ok_inv in Hpackets.
  destruct (rows_ips _ _ _ _ _ Hrows) as [Hr1 Hr2].
  destruct (packets_ips _ _ _ _ Hpackets) as [Hp1 Hp2].
  split; [| split; [| split; [| split]]].
  - unfold status_ips in *. rewrite omap_app, Hr1, Hp1. apply app_nil_r.
  - unfold packet_ips in *. rewrite omap_app, Hr2, Hp2. done.
  - apply sorted_Permutation.
  - apply sorted_ascending.
  - exists (concat rows), packets. done.
Qed.

Lemma tables_list_targets_in_order_witness :
  print_ping_results literal_system edge_ping_data edge_histories
                     edge_mappings
  = Ok edge_screen /\
  status_ips edge_screen = ["edge.example"; "slow.example"] /\
  packet_ips edge_screen = ["edge.example"; "slow.example"].
Proof.
  assert (Hrun : print_ping_results literal_system edge_ping_data
                   edge_histories edge_mappings
                 = Ok edge_screen) by (vm_compute; reflexivity).
  destruct (tables_list_targets_in_order _ _ _ _ _ Hrun) as (Hs & Hp & _).
  split; [exact Hrun |]. split; [exact Hs | exact Hp].
Defined.

Lemma print_packet_rows ping_data hs ip_mappings out ip r a b c :
  print_tables ping_data hs ip_mappings = Ok out ->
  PacketRow ip r a b c ∈ out ->
  exists h,
    hs !! ip = Some h /\ a = total_packets h /\
    b = success_packets h /\ c = failed_packets h.
Proof.
  unfold print_tables. intros Hrun Hin.
  apply bind_Ok_inv in Hrun as (rows & Hrows & Hrun).
  apply bind_Ok_inv in Hrun as (packets & Hpackets & Hrun).
  injection Hrun as <-.
  apply mapM_Ok_inv in Hrows. apply mapM_Ok_inv in Hpackets.
  apply elem_of_app in Hin as [Hin | Hin].
  - apply elem_of_concat in Hin as (row & Hrow & Hin).
    destruct (Forall2_elem_of_r _ _ _ _ Hrows Hrow) as (ip' & _ & Hline).
    apply status_lines_inv in Hline as (h & t & r' & _ & _ & ->).
    apply elem_of_cons in Hin as [Hin | Hin]; [done |].
    unfold warnings in Hin. apply elem_of_app in Hin as [Hin | Hin].
    + destruct (Qlt_bool LOSS_THRESHOLD _);
        [by apply list_elem_of_singleton in Hin | by apply elem_of_nil in Hin].
    + destruct t as [t|]; [| by apply elem_of_nil in Hin].
      destruct (Qlt_bool LATENCY_THRESHOLD t);
        [by apply list_elem_of_singleton in Hin | by apply elem_of_nil in Hin].
  - destruct (Forall2_elem_of_r _ _ _ _ Hpackets Hin) as (ip' & _ & Hline).
    unfold packet_line, getitem, mapping_getitem in Hline.
    destruct (hs !! ip') as [h|] eqn:Hh; [| done]. cbn in Hline.
    destruct (dict_getitem ip' (dict_of_items ip_mappings)); [| done].
    cbn in Hline. injection Hline as <- <- <- <- <-. eauto.
Qed.

(** X15: at every point of a run the packet table on the screen shows, for
    each target listed, the current lifetime counters of its history, each
    in its column, and they add up: total = success + failed, with total
    at most the number of rounds. *)
Theorem screen_counters_add_up fuel sys net args ip_mappings :
  (dependable sys args ->
   exists st,
     main_loop fuel sys net args ip_mappings
               (Monitor 0 (init_histories ip_mappings) []) = Ok st) /\
  forall st,
    main_loop fuel sys net args ip_mappings
              (Monitor 0 (init_histories ip_mappings) []) = Ok st ->
    forall ip r a b c,
      PacketRow ip r a b c ∈ screen st ->
      a = (b + c)%Z /\ (0 <= b)%Z /\ (0 <= c)%Z /\ (a <= ping_count st)%Z /\
      exists h,
        histories st !! ip = Some h /\
        a = total_packets h /\
        b = success_packets h /\
        c = failed_packets h.
Proof.
  split; [apply main_loop_starts |]. intros st Hrun.
  destruct (main_loop_invariant
              (fun st =>
                 (forall o h, histories st !! o = Some h ->
                              (total_packets h <= ping_count st)%Z) /\
                 forall ip r a b c,
                   PacketRow ip r a b c ∈ screen st ->
                   exists h, histories st !! ip = Some h /\
                             a = total_packets h /\ b = success_packets h /\
                             c = failed_packets h)
              fuel sys net args ip_mappings
              (Monitor 0 (init_histories ip_mappings) []) st)
    as ([_ Hrec] & Hbound & Hscreen); [| apply reachable_init | | exact Hrun |].
  - intros st1 st2 shell [Htr _] [Hbound _] Hround. split.
    + intros o h2 Hh2.
      destruct (round_keeps_keys _ _ _ _ _ _ Htr Hround) as [Hpc Hstep].
      specialize (Hstep o). rewrite Hh2 in Hstep.
      inversion Hstep as [h1 ? Hcase Hh1 |]; subst.
      symmetry in Hh1. specialize (Hbound o h1 Hh1).
      destruct Hcase as [-> | [res ->]]; rewrite ?record_result_total; lia.
    + intros ip r a b c Hin.
      apply round_inv in Hround as (t & mapped & _ & _ & _ & Hprint & _).
      by eapply print_packet_rows.
  - split.
    + intros o h. cbn. unfold init_histories.
      rewrite init_histories_lookup, lookup_empty.
      case_decide; [| done]. intros [= <-]. cbn. lia.
    + intros ip r a b c Hin. cbn in Hin. by apply elem_of_nil in Hin.
  - intros ip r a b c Hin.
    destruct (Hscreen ip r a b c Hin) as (h & Hh & -> & -> & ->).
    destruct (Hrec ip h Hh) as [log Hlog].
    pose proof (replay_counters new_history log (proj1 new_history_ok)) as Hc.
    unfold counters_ok in Hc.
    pose proof (Hbound _ _ Hh) as Hle.
    assert (Hs : (0 <= success_packets h)%Z).
    { rewrite Hlog, replay_success. cbn. lia. }
    assert (Hf : (0 <= failed_packets h)%Z).
    { rewrite Hlog, replay_failed. cbn. lia. }
    rewrite <- Hlog in Hc.
    repeat split; try lia. by exists h.
Qed.

(** ** The latency bar and the colours *)

Lemma string_length_app (s1 s2 : string) :
  String.length (s1 +:+ s2) = (String.length s1 + String.length s2)%nat.
Proof.
  induction s1 as [|c s1 IH]; [done |].
  change (String c s1 +:+ s2) with (String c (s1 +:+ s2)).
  cbn [String.length]. by rewrite IH.
Qed.

Lemma string_app_nil_r (s : string) : s +:+ "" = s.
Proof.
  induction s as [|c s IH]; [done |].
  change (String c s +:+ "") with (String c (s +:+ "")). by rewrite IH.
Qed.

Lemma str_mul_length s n :
  String.length (str_mul s n) = (Z.to_nat n * String.length s)%nat.
Proof.
  unfold str_mul. induction (Z.to_nat n) as [|k IH]; [done |].
  rewrite Nat.iter_succ, string_length_app, IH. lia.
Qed.

Lemma str_mul_nonpositive s n : (n <= 0)%Z -> str_mul s n = "".
Proof.
  intros Hn. unfold str_mul. by replace (Z.to_nat n) with 0%nat by lia.
Qed.

Lemma Qdiv_5 t : (t / 5 == t * (1 # 5))%Q.
Proof. unfold Qdiv. reflexivity. Qed.

Lemma int_of_float_mono x y : (x <= y)%Q -> (int_of_float x <= int_of_float y)%Z.
Proof.
  intros Hxy.
  destruct (int_of_float_bounds x) as [Hxp Hxn].
  destruct (int_of_float_bounds y) as [Hyp Hyn].
  destruct (Qlt_le_dec x 0) as [Hx | Hx].
  - destruct (Hxn ltac:(lra)) as (Hx0 & Hxlo & Hxhi).
    destruct (Qlt_le_dec y 0) as [Hy | Hy].
    + destruct (Hyn ltac:(lra)) as (Hy0 & Hylo & Hyhi).
      assert (Hlt : (inject_Z (int_of_float x) < inject_Z (int_of_float y + 1))%Q)
        by (rewrite inject_Z_plus; change (inject_Z 1) with 1%Q; lra).
      rewrite <- Zlt_Qlt in Hlt. lia.
    + destruct (Hyp Hy) as (Hy0 & _). lia.
  - destruct (Hxp Hx) as (Hx0 & Hxlo & Hxhi).
    destruct (Hyp ltac:(lra)) as (Hy0 & Hylo & Hyhi).
    assert (Hlt : (inject_Z (int_of_float x) < inject_Z (int_of_float y + 1))%Q)
      by (rewrite inject_Z_plus; change (inject_Z 1) with 1%Q; lra).
    rewrite <- Zlt_Qlt in Hlt. lia.
Qed.

Lemma int_of_float_ge x n :
  (inject_Z n <= x)%Q -> (0 <= n)%Z -> (n <= int_of_float x)%Z.
Proof.
  intros Hn Hn0.
  assert (H0 : (0 <= x)%Q).
  { apply Qle_trans with (inject_Z n); [| done].
    change 0%Q with (inject_Z 0). rewrite <- Zle_Qle. lia. }
  destruct (int_of_float_bounds x) as [Hxp _].
  destruct (Hxp H0) as (_ & _ & Hhi).
  assert (Hlt : (inject_Z n < inject_Z (int_of_float x + 1))%Q)
    by (rewrite inject_Z_plus; change (inject_Z 1) with 1%Q; lra).
  rewrite <- Zlt_Qlt in Hlt. lia.
Qed.

Lemma bar_length_positive t m :
  (0 < t)%Q ->
  bar_length t m
  = (if (Z.min (int_of_float (t / 5)) m =? 0)%Z then 1
     else Z.min (int_of_float (t / 5)) m)%Z.
Proof.
  intros Ht. unfold bar_length.
  apply Qlt_bool_iff in Ht. by rewrite Ht.
Qed.

Lemma bar_length_nonpositive t m :
  (t <= 0)%Q -> bar_length t m = Z.min (int_of_float (t / 5)) m.
Proof.
  intros Ht. unfold bar_length.
  destruct (Qlt_bool 0 t) eqn:Hlt; [| done].
  apply Qlt_bool_iff in Hlt. lra.
Qed.

Lemma bar_length_full t m :
  (1 <= m)%Z -> (5 * inject_Z m <= t)%Q -> bar_length t m = m.
Proof.
  intros Hm Ht. pose proof (Qdiv_5 t) as Hdiv.
  assert (H1 : (1 <= inject_Z m)%Q).
  { change 1%Q with (inject_Z 1). rewrite <- Zle_Qle. lia. }
  rewrite bar_length_positive by lra.
  assert (Hge : (m <= int_of_float (t / 5))%Z).
  { apply int_of_float_ge; [lra | lia]. }
  rewrite Z.min_r by lia.
  destruct (Z.eqb_spec m 0); lia.
Qed.

(** X16: the bar of a reply has one step per whole 5 ms: none when the time
    is not positive, at least one for any positive time, the whole steps of
    t/5 in between, and all [max_length] of them from 5 * max_length ms
    on; a slower reply never has a shorter bar. *)
Theorem bar_counts_whole_steps (t : Q) (max_length : Z) :
  (1 <= max_length)%Z ->
  ((t <= 0)%Q -> get_ping_bar (Some t) false max_length = "") /\
  ((0 < t)%Q -> (1 <= bar_length t max_length <= max_length)%Z) /\
  ((5 <= t)%Q -> (t < 5 * inject_Z max_length)%Q ->
   (5 * inject_Z (bar_length t max_length) <= t)%Q /\
   (t < 5 * inject_Z (bar_length t max_length) + 5)%Q) /\
  ((5 * inject_Z max_length <= t)%Q -> bar_length t max_length = max_length) /\
  (forall t' : Q,
      (t <= t')%Q -> (bar_length t max_length <= bar_length t' max_length)%Z).
Proof.
  intros Hm.
  pose proof (Qdiv_5 t) as Hdiv.
  destruct (int_of_float_bounds (t / 5)) as [Hpos Hneg].
  split; [| split; [| split; [| split]]].
  - intros Ht. unfold get_ping_bar, get_time_color. cbn [negb].
    rewrite str_mul_nonpositive; [done |].
    rewrite bar_length_nonpositive by done.
    destruct (Hneg ltac:(lra)) as (? & _). lia.
  - intros Ht. rewrite bar_length_positive by done.
    destruct (Hpos ltac:(lra)) as (? & _).
    destruct (Z.eqb_spec (Z.min (int_of_float (t / 5)) max_length) 0); lia.
  - intros Ht Hhi. rewrite bar_length_positive by lra.
    destruct (Hpos ltac:(lra)) as (H0 & Hlo & Hup).
    assert (H1 : (1 <= int_of_float (t / 5))%Z).
    { apply int_of_float_ge; [| lia]. change (inject_Z 1) with 1%Q. lra. }
    assert (Hlt : (int_of_float (t / 5) < max_length)%Z).
    { rewrite Zlt_Qlt. lra. }
    rewrite Z.min_l by lia.
    destruct (Z.eqb_spec (int_of_float (t / 5)) 0); [lia |].
    split; lra.
  - intros Ht. by apply bar_length_full.
  - intros t' Hle.
    assert (Hmono : (int_of_float (t / 5) <= int_of_float (t' / 5))%Z).
    { apply int_of_float_mono. pose proof (Qdiv_5 t'). lra. }
    destruct (Qlt_le_dec 0 t) as [Ht | Ht].
    + rewrite !bar_length_positive by lra.
      destruct (Z.eqb_spec (Z.min (int_of_float (t / 5)) max_length) 0);
        destruct (Z.eqb_spec (Z.min (int_of_float (t' / 5)) max_length) 0);
        lia.
    + rewrite (bar_length_nonpositive t) by done.
      destruct (Hneg ltac:(lra)) as (? & _).
      destruct (Qlt_le_dec 0 t') as [Ht' | Ht'].
      * rewrite bar_length_positive by done.
        destruct (Z.eqb_spec (Z.min (int_of_float (t' / 5)) max_length) 0);
          [lia |].
        destruct (int_of_float_bounds (t' / 5)) as [Hpos' _].
        pose proof (Qdiv_5 t').
        destruct (Hpos' ltac:(lra)) as (? & _). lia.
      * rewrite bar_length_nonpositive by done. lia.
Qed.

Lemma bar_counts_whole_steps_witness :
  bar_length 7 20 = 1%Z /\ (1 <= bar_length 7 20 <= 20)%Z.
Proof.
  split; [reflexivity |].
  apply (bar_counts_whole_steps 7 20); [lia | reflexivity].
Defined.

(** X17: without colours the bar is two characters per step, so up to
    twice [max_length] characters, and more than 20 characters from
    55 ms on at the default length; with colours the same bar stands
    between the colour of the time and the reset code. *)
Theorem plain_bar_is_two_characters_a_step (t : Q) (max_length : Z) :
  String.length (get_ping_bar (Some t) false max_length)
  = (2 * Z.to_nat (bar_length t max_length))%nat /\
  ((55 <= t)%Q ->
   (20 < String.length (get_ping_bar (Some t) false 20))%nat) /\
  get_ping_bar (Some t) true max_length
  = get_time_color (Some t) true +:+ BOLD
      +:+ get_ping_bar (Some t) false max_length +:+ RESET /\
  get_ping_bar None false max_length = "N/A".
Proof.
  assert (Hplain : forall m,
             get_ping_bar (Some t) false m = str_mul "||" (bar_length t m)).
  { intros m. unfold get_ping_bar, get_time_color. cbn [negb].
    cbn [String.append]. apply string_app_nil_r. }
  split; [| split; [| split]].
  - rewrite Hplain, str_mul_length. cbn [String.length]. lia.
  - intros Ht. rewrite Hplain, str_mul_length. cbn [String.length].
    assert (H11 : (11 <= int_of_float (t / 5))%Z).
    { apply int_of_float_ge; [| lia]. pose proof (Qdiv_5 t).
      change (inject_Z 11) with 11%Q. lra. }
    rewrite bar_length_positive by lra.
    destruct (Z.eqb_spec (Z.min (int_of_float (t / 5)) 20) 0); lia.
  - rewrite Hplain. unfold get_ping_bar. reflexivity.
  - reflexivity.
Qed.

(** X18: every warning on the screen goes with a red value: the loss of a
    loss warning is in the red band of [get_loss_color], the time of a
    latency warning is in the red band of [get_time_color] and has the full
    bar; red starts earlier than the warnings, at a loss of 20 and a time of
    100, where no warning is printed. *)
Theorem warnings_go_with_red sys ping_data hs ip_mappings out :
  print_ping_results sys ping_data hs ip_mappings = Ok out ->
  (forall ip l, LossWarning ip l ∈ out -> get_loss_color l true = RED) /\
  (forall ip t,
      LatencyWarning ip t ∈ out ->
      get_time_color (Some t) true = RED /\ bar_length t 20 = 20%Z) /\
  (forall ip l,
      (20 <= l)%Q -> (l <= LOSS_THRESHOLD)%Q ->
      get_loss_color l true = RED /\ LossWarning ip l ∉ out) /\
  (forall ip t,
      (100 <= t)%Q -> (t <= LATENCY_THRESHOLD)%Q ->
      get_time_color (Some t) true = RED /\ LatencyWarning ip t ∉ out).
Proof.
  intros Hrun. apply print_ping_results_tables in Hrun as [_ Hrun].
  pose proof (print_tables_inv _ _ _ _ Hrun) as Hinv.
  assert (Hloss : forall ip l, LossWarning ip l ∈ out -> (LOSS_THRESHOLD < l)%Q).
  { intros ip l Hin. apply Hinv in Hin as (ip' & h & t & _ & _ & _ & Hw);
      [| done | done].
    by apply warnings_loss in Hw as (_ & _ & Hlt). }
  assert (Hlat : forall ip t,
             LatencyWarning ip t ∈ out -> (LATENCY_THRESHOLD < t)%Q).
  { intros ip t Hin. apply Hinv in Hin as (ip' & h & ct & _ & _ & _ & Hw);
      [| done | done].
    by apply warnings_latency in Hw as (_ & _ & Hlt). }
  assert (Hred_loss : forall l, (20 <= l)%Q -> get_loss_color l true = RED).
  { intros l Hl. unfold get_loss_color. cbn [negb].
    destruct (Qlt_bool l 5) eqn:H5; [apply Qlt_bool_iff in H5; lra |].
    destruct (Qlt_bool l 20) eqn:H20; [apply Qlt_bool_iff in H20; lra |].
    done. }
  assert (Hred_time : forall t, (100 <= t)%Q ->
                                get_time_color (Some t) true = RED).
  { intros t Ht. unfold get_time_color. cbn [negb].
    destruct (Qlt_bool t 50) eqn:H50; [apply Qlt_bool_iff in H50; lra |].
    destruct (Qlt_bool t 100) eqn:H100; [apply Qlt_bool_iff in H100; lra |].
    done. }
  unfold LOSS_THRESHOLD, LATENCY_THRESHOLD in *.
  split; [| split; [| split]].
  - intros ip l Hin. apply Hred_loss. specialize (Hloss ip l Hin). lra.
  - intros ip t Hin. specialize (Hlat ip t Hin).
    split; [apply Hred_time; lra |].
    apply bar_length_full; [lia |]. change (inject_Z 20) with 20%Q. lra.
  - intros ip l Hlo Hhi. split; [by apply Hred_loss |].
    intros Hin. specialize (Hloss ip l Hin). lra.
  - intros ip t Hlo Hhi. split; [by apply Hred_time |].
    intros Hin. specialize (Hlat ip t Hin). lra.
Qed.

Lemma warnings_go_with_red_witness :
  print_ping_results literal_system edge_ping_data edge_histories
                     edge_mappings
  = Ok edge_screen /\
  LatencyWarning "slow.example" 250 ∈ edge_screen /\
  get_time_color (Some 250%Q) true = RED.
Proof.
  assert (Hrun : print_ping_results literal_system edge_ping_data
                   edge_histories edge_mappings
                 = Ok edge_screen) by (vm_compute; reflexivity).
  assert (Hin : LatencyWarning "slow.example" 250 ∈ edge_screen)
    by (vm_compute; repeat first [left | right]).
  destruct (warnings_go_with_red _ _ _ _ _ Hrun) as (_ & Hlat & _).
  split; [exact Hrun |]. split; [exact Hin |].
  exact (proj1 (Hlat _ _ Hin)).
Defined.

(** ** The name column *)

Lemma py_max_key_all_small (first : nat) (rest : list nat) :
  Forall (fun x => x <= 15)%nat (first :: rest) ->
  py_max_key (fun x => if (15 <? x)%nat then x else 15%nat) 15%nat
             (first :: rest) = first.
Proof.
  intros Hall. apply Forall_cons in Hall as [Hfirst Hrest]. cbn [py_max_key].
  induction Hrest as [|y rest Hy _ IH]; [done |].
  cbn [foldl].
  destruct (Nat.ltb_spec 15 first); [lia |].
  destruct (Nat.ltb_spec 15 y); [lia |].
  cbn. exact IH.
Qed.

Lemma foldl_max_key (m : nat) (xs : list nat) :
  let key := fun x => if (15 <? x)%nat then x else 15%nat in
  key (foldl (fun m y => if (key m <? key y)%nat then y else m) m xs)
  = Nat.max 15 (max_list (m :: xs)).
Proof.
  intros key. revert m. induction xs as [|y xs IH]; intros m.
  - cbn [foldl max_list_with]. unfold key, id.
    destruct (Nat.ltb_spec 15 m); lia.
  - cbn [foldl]. rewrite IH. cbn [max_list_with].
    unfold key, id.
    destruct (Nat.ltb_spec 15 m); destruct (Nat.ltb_spec 15 y);
      match goal with
      | |- context [(?a <? ?b)%nat] => destruct (Nat.ltb_spec a b)
      end; cbn [max_list_with]; unfold id; lia.
Qed.

(** X19: the width of the name column is 17 when there is no target; the
    longest displayed name plus 2 when some displayed name is longer than
    15 characters; and otherwise the length of the first target's displayed
    name plus 2, however long the names after it are. *)
Theorem column_width_cases (ip_mappings : list (string * string)) :
  let lengths :=
    (fun m : string * string => String.length (display_ip m.1 m.2))
      <$> ip_mappings in
  (ip_mappings = [] -> ip_column_width ip_mappings = 17%nat) /\
  (Exists (fun x => 15 < x)%nat lengths ->
   ip_column_width ip_mappings = (max_list lengths + 2)%nat /\
   Forall (fun x => x + 2 <= ip_column_width ip_mappings)%nat lengths) /\
  (forall first rest,
      lengths = first :: rest ->
      Forall (fun x => x <= 15)%nat lengths ->
      ip_column_width ip_mappings = (first + 2)%nat).
Proof.
  intros lengths. unfold ip_column_width. fold lengths.
  split; [| split].
  - intros ->. reflexivity.
  - intros Hlong.
    assert (Hmax : (15 < max_list lengths)%nat).
    { apply Exists_exists in Hlong as (x & Hx & Hlt).
      pose proof (max_list_elem_of_le x lengths Hx). lia. }
    assert (Hwidth :
              py_max_key (fun x => if (15 <? x)%nat then x else 15%nat) 15%nat
                         lengths = max_list lengths).
    { destruct lengths as [|x xs]; [cbn in Hmax; lia |].
      cbn [py_max_key].
      pose proof (foldl_max_key x xs) as Hkey. cbv beta zeta in Hkey |- *.
      set (r := foldl _ x xs) in *.
      destruct (Nat.ltb_spec 15 r); lia. }
    rewrite Hwidth. split; [done |].
    apply Forall_forall. intros x Hx.
    pose proof (max_list_elem_of_le x lengths Hx). lia.
  - intros first rest Heq Hall. rewrite Heq in *.
    by rewrite py_max_key_all_small.
Qed.

(** ** Targets read from a file *)

Lemma filter_all {A : Type} (P : A -> Prop) `{forall x, Decision (P x)}
    (l : list A) :
  Forall P l -> filter P l = l.
Proof.
  induction 1 as [|x l Hx _ IH]; [done |].
  rewrite filter_cons_True by done. by rewrite IH.
Qed.

Lemma mapM_cons_result {A B : Type} (f : A -> result B) (x : A) (l : list A) :
  mapM f (x :: l)
  = match f x with
    | Ok y => match mapM f l with
              | Ok k => Ok (y :: k)
              | Raise e => Raise e
              end
    | Raise e => Raise e
    end.
Proof.
  change (mapM f (x :: l)) with (y ← f x; k ← mapM f l; Ok (y :: k)).
  destruct (f x) as [y|e]; [| done]. cbn. by destruct (mapM f l).
Qed.

(** A line of the file adds its stripped text exactly when that text is an
    entry to keep, and raises exactly when it is neither blank nor a
    comment and [validate_ip] raises on it. *)
Lemma read_line_cases sys line :
  match read_line sys line with
  | Ok (Some entry) => entry = strip line /\ keeps_entry sys (strip line) = true
  | Ok None =>
      keeps_entry sys (strip line) = false /\
      (strip line <> "" -> String.prefix "#" (strip line) = false ->
       exists r, validate_ip sys (strip line) = Ok r)
  | Raise e =>
      strip line <> "" /\ String.prefix "#" (strip line) = false /\
      validate_ip sys (strip line) = Raise e
  end.
Proof.
  unfold read_line, keeps_entry, valid_input.
  destruct (String.eqb_spec (strip line) "") as [Hblank | Hblank]; cbn.
  { split; [done |]. intros Hne. by destruct Hne. }
  destruct (String.prefix "#" (strip line)) eqn:Hcomment; cbn.
  { split; [done |]. intros _ Hno. done. }
  destruct (validate_ip sys (strip line)) as [r|e]; cbn; [| done].
  destruct (truthy r) eqn:Ht; [done |]. split; [done |]. eauto.
Qed.

(** The loop of lines 104-110 over the whole file. *)
Lemma read_lines_cases sys lines :
  match mapM (read_line sys) lines with
  | Ok entries =>
      omap id entries
      = filter (fun entry => keeps_entry sys entry = true) (strip <$> lines) /\
      forall line, line ∈ lines -> exists r, read_line sys line = Ok r
  | Raise e => exists line, line ∈ lines /\ read_line sys line = Raise e
  end.
Proof.
  induction lines as [|line lines IH].
  - cbn. split; [done |]. intros line Hin. by apply elem_of_nil in Hin.
  - rewrite mapM_cons_result.
    pose proof (read_line_cases sys line) as Hline.
    destruct (read_line sys line) as [r|e] eqn:Hr.
    + destruct (mapM (read_line sys) lines) as [entries|e].
      * destruct IH as [IH Hall]. cbn [fmap list_fmap]. split.
        -- destruct r as [entry|].
           ++ destruct Hline as [-> Hkeep].
              rewrite filter_cons_True by done. cbn. by rewrite IH.
           ++ destruct Hline as [Hdrop _].
              rewrite filter_cons_False by (by rewrite Hdrop). cbn. done.
        -- intros l Hl. apply elem_of_cons in Hl as [-> | Hl]; eauto.
      * destruct IH as (l & Hl & Hraise). exists l. split; [by right | done].
    + exists line. split; [left | done].
Qed.

(** The entries read from a file are entries to keep. *)
Lemma read_ips_from_file_entries sys name :
  Forall (fun entry => keeps_entry sys entry = true)
         (read_ips_from_file sys name).
Proof.
  unfold read_ips_from_file.
  destruct (file_system sys name) as [|lines|]; [constructor | | constructor].
  pose proof (read_lines_cases sys lines) as Hcases.
  destruct (mapM (read_line sys) lines) as [entries|e]; [| constructor].
  destruct Hcases as [-> _].
  apply Forall_forall. intros entry Hin.
  by apply list_elem_of_filter in Hin as [Hkeep _].
Qed.

Lemma keeps_entry_valid sys entry :
  keeps_entry sys entry = true ->
  entry <> "" /\ String.prefix "#" entry = false /\
  valid_input sys entry = true.
Proof.
  unfold keeps_entry. intros Hkeep.
  apply andb_true_iff in Hkeep as [Hkeep Hvalid].
  apply andb_true_iff in Hkeep as [Hne Hcomment].
  apply negb_true_iff in Hne, Hcomment.
  apply String.eqb_neq in Hne. done.
Qed.

(** X20: with [-f NAME], the entries read from a readable file are its
    lines without surrounding white space, leaving out blank lines, lines
    that start with [#] and lines that do not validate, in the order of
    the file: every other line becomes an entry.  When [validate_ip]
    raises on one of the lines, the file yields no entry at all, and so
    does a missing or unreadable file.  The targets are the positional
    arguments that validate followed by the entries; startup fails with the
    usage error only when there is neither, and with an exception of the
    resolver only for a positional argument. *)
Theorem file_entries_become_targets sys args name :
  file args = Some name -> name <> "" ->
  let entries := read_ips_from_file sys name in
  (forall lines,
      file_system sys name = Readable lines ->
      ((forall line, line ∈ lines -> exists r, read_line sys line = Ok r) ->
       entries
       = filter (fun entry => keeps_entry sys entry = true) (strip <$> lines)) /\
      ((exists line e, line ∈ lines /\ read_line sys line = Raise e) ->
       entries = [])) /\
  ((forall lines, file_system sys name <> Readable lines) -> entries = []) /\
  Forall (fun entry =>
            entry <> "" /\ String.prefix "#" entry = false /\
            valid_input sys entry = true) entries /\
  match parse_arguments sys args with
  | Ok ip_mappings =>
      ip_mappings.*1
      = filter (fun o => valid_input sys o = true) (ips args) ++ entries
  | Raise (SystemExit status message) =>
      status = 2%Z /\ entries = [] /\
      forall o, o ∈ ips args -> valid_input sys o = false
  | Raise e => exists o, o ∈ ips args /\ validate_ip sys o = Raise e
  end.
Proof.
  intros Hfile Hname entries.
  pose proof (read_ips_from_file_entries sys name) as Hentries.
  fold entries in Hentries.
  assert (Hvalid_entries :
            Forall (fun entry =>
                      entry <> "" /\ String.prefix "#" entry = false /\
                      valid_input sys entry = true) entries).
  { eapply Forall_impl; [exact Hentries |].
    intros entry. apply keeps_entry_valid. }
  assert (Hinputs : input_ips sys args = ips args ++ entries).
  { unfold input_ips. rewrite Hfile.
    apply String.eqb_neq in Hname. by rewrite Hname. }
  assert (Hvalid :
            filter (fun o => valid_input sys o = true) (input_ips sys args)
            = filter (fun o => valid_input sys o = true) (ips args)
              ++ entries).
  { rewrite Hinputs, filter_app. f_equal. apply filter_all.
    eapply Forall_impl; [exact Hvalid_entries |]. by intros entry (_ & _ & Hv). }
  split; [| split; [| split; [exact Hvalid_entries |]]].
  - intros lines Hlines.
    pose proof (read_lines_cases sys lines) as Hcases.
    unfold entries, read_ips_from_file. rewrite Hlines. split.
    + intros Hall.
      destruct (mapM (read_line sys) lines) as [es|e]; [by destruct Hcases |].
      destruct Hcases as (line & Hin & Hraise).
      destruct (Hall line Hin) as [r Hr]. congruence.
    + intros (line & e & Hin & Hraise).
      destruct (mapM (read_line sys) lines) as [es|e']; [| done].
      destruct Hcases as [_ Hall].
      destruct (Hall line Hin) as [r Hr]. congruence.
  - intros Hnone. unfold entries, read_ips_from_file.
    destruct (file_system sys name) as [|lines|] eqn:Hfs; [done | | done].
    by destruct (Hnone lines).
  - destruct (parse_arguments_cases sys args)
      as [(ms & -> & Hb & _) | [(message & -> & Hb) | (e & -> & Hb & He)]].
    + apply build_mappings_Ok_inv in Hb as (_ & -> & _). exact Hvalid.
    + apply build_mappings_Ok_inv in Hb as (_ & Horig & _).
      rewrite Hvalid in Horig. cbn in Horig. symmetry in Horig.
      apply app_eq_nil in Horig as [Hargs Hnil].
      split; [done |]. split; [exact Hnil |].
      intros o Ho. destruct (valid_input sys o) eqn:Ht; [| done].
      assert (Hin : o ∈ filter (fun o => valid_input sys o = true) (ips args)).
      { apply list_elem_of_filter. by split. }
      rewrite Hargs in Hin. by apply elem_of_nil in Hin.
    + apply build_mappings_Raise_inv in Hb
        as (before & o & after & Hin & Ho & _).
      assert (Hmem : o ∈ ips args ++ entries).
      { rewrite <- Hinputs, Hin. apply elem_of_app. right. left. }
      assert (Hargs : o ∈ ips args).
      { apply elem_of_app in Hmem as [Hmem | Hmem]; [done |].
        apply (proj1 (Forall_forall _ _) Hvalid_entries) in Hmem
          as (_ & _ & Hv).
        unfold valid_input in Hv. by rewrite Ho in Hv. }
      destruct He as [-> | ->]; eauto.
Qed.

Lemma file_entries_become_targets_witness :
  file listing_args = Some "targets.txt" /\
  read_ips_from_file listing_system "targets.txt" = ["10.0.0.1"; "10.0.0.2"] /\
  match parse_arguments listing_system listing_args with
  | Ok ip_mappings => ip_mappings.*1 = ["10.0.0.9"; "10.0.0.1"; "10.0.0.2"]
  | Raise _ => False
  end.
Proof.
  split; [reflexivity |].
  destruct (file_entries_become_targets listing_system listing_args
              "targets.txt" eq_refl ltac:(done))
    as (Hlines & _ & _ & Htargets).
  split.
  - destruct (Hlines _ eq_refl) as [Hall _]. rewrite Hall; [reflexivity |].
    intros line Hin.
    repeat (apply elem_of_cons in Hin as [-> | Hin]; [by eexists |]).
    by apply elem_of_nil in Hin.
  - destruct (parse_arguments listing_system listing_args) as [ms|e] eqn:Hp.
    + rewrite Htargets. vm_compute. reflexivity.
    + vm_compute in Hp. discriminate Hp.
Defined.

(** ** The screen and the store *)

Lemma record_round_domain round_items hs hs' :
  record_round round_items hs = Ok hs' ->
  forall o, o ∈ round_items.*1 -> is_Some (hs !! o).
Proof.
  revert hs. induction round_items as [|[k r] rest IH]; intros hs Hrun o Ho.
  - by apply elem_of_nil in Ho.
  - cbn in Hrun, Ho. destruct (hs !! k) as [h|] eqn:Hk; [| done].
    apply elem_of_cons in Ho as [-> | Ho]; [by rewrite Hk |].
    specialize (IH _ Hrun o Ho).
    apply lookup_insert_is_Some' in IH as [<- | IH]; [by rewrite Hk | done].
Qed.

Lemma map_to_originals_NoDup ip_mappings ping_data mapped :
  map_to_originals ip_mappings ping_data = Ok mapped -> NoDup mapped.*1.
Proof.
  unfold map_to_originals.
  destruct (mapM _ (enumerate (dict_values ping_data))) as [xs|e]; [| done].
  cbn. intros [= <-]. apply NoDup_dict_of_items.
Qed.

Lemma last_deque_append {A : Type} (d : deque A) (x : A) :
  (1 <= maxlen d)%nat -> last (items (deque_append d x)) = Some x.
Proof.
  intros Hmax. unfold deque_append. cbn [items].
  destruct (maxlen d <? length (items d ++ [x]))%nat eqn:Hfull.
  - destruct (items d) as [|a l]; cbn in Hfull |- *.
    + apply Nat.leb_le in Hfull. lia.
    + apply last_snoc.
  - apply last_snoc.
Qed.

Lemma print_status_rows ping_data hs ip_mappings out ip r t stats :
  print_tables ping_data hs ip_mappings = Ok out ->
  StatusRow ip r t stats ∈ out ->
  exists h,
    hs !! ip = Some h /\ dict_getitem ip ping_data = Some t /\
    stats = calculate_statistics (items (pings h)).
Proof.
  unfold print_tables. intros Hrun Hin.
  apply bind_Ok_inv in Hrun as (rows & Hrows & Hrun).
  apply bind_Ok_inv in Hrun as (packets & Hpackets & Hrun).
  injection Hrun as <-.
  apply mapM_Ok_inv in Hrows. apply mapM_Ok_inv in Hpackets.
  apply elem_of_app in Hin as [Hin | Hin].
  - apply elem_of_concat in Hin as (row & Hrow & Hin).
    destruct (Forall2_elem_of_r _ _ _ _ Hrows Hrow) as (ip' & _ & Hline).
    apply status_lines_inv in Hline as (h & t' & r' & Hh & Ht & ->).
    apply elem_of_cons in Hin as [Heq | Hin].
    + injection Heq as -> -> -> ->. eauto.
    + unfold warnings in Hin. apply elem_of_app in Hin as [Hin | Hin].
      * destruct (Qlt_bool LOSS_THRESHOLD _);
          [by apply list_elem_of_singleton in Hin | by apply elem_of_nil in Hin].
      * destruct t' as [t'|]; [| by apply elem_of_nil in Hin].
        destruct (Qlt_bool LATENCY_THRESHOLD t');
          [by apply list_elem_of_singleton in Hin | by apply elem_of_nil in Hin].
  - destruct (Forall2_elem_of_r _ _ _ _ Hpackets Hin) as (ip' & _ & Hline).
    by apply packet_line_inv in Hline as (r' & a & b & c & Heq).
Qed.

(** X21: at every point of a run the status table agrees with the store:
    the time shown last for a target is the newest entry of its window, and
    the statistics shown are those of that window. *)
Theorem status_rows_show_the_window fuel sys net args ip_mappings :
  (dependable sys args ->
   exists st,
     main_loop fuel sys net args ip_mappings
               (Monitor 0 (init_histories ip_mappings) []) = Ok st) /\
  forall st,
    main_loop fuel sys net args ip_mappings
              (Monitor 0 (init_histories ip_mappings) []) = Ok st ->
    forall ip r t stats,
      StatusRow ip r t stats ∈ screen st ->
      exists h,
        histories st !! ip = Some h /\
        last (items (pings h)) = Some t /\
        stats = calculate_statistics (items (pings h)).
Proof.
  split; [apply main_loop_starts |]. intros st Hrun.
  apply (main_loop_invariant
           (fun st =>
              forall ip r t stats,
                StatusRow ip r t stats ∈ screen st ->
                exists h,
                  histories st !! ip = Some h /\
                  last (items (pings h)) = Some t /\
                  stats = calculate_statistics (items (pings h)))
           fuel sys net args ip_mappings
           (Monitor 0 (init_histories ip_mappings) []) st);
    [| apply reachable_init | | exact Hrun].
  - intros st1 st2 shell [_ Hrec] _ Hround ip r t stats Hin.
    apply round_inv in Hround as (t0 & mapped & _ & Hmap & Hstore & Hprint & _).
    destruct (print_status_rows _ _ _ _ _ _ _ _ Hprint Hin)
      as (h & Hh & Ht & ->).
    exists h. split; [done |]. split; [| done].
    destruct (record_round_lookup mapped (histories st1)
                (map_to_originals_NoDup _ _ _ Hmap)
                (record_round_domain _ _ _ Hstore))
      as (hs' & Hstore' & Hlook).
    rewrite Hstore in Hstore'. injection Hstore' as <-.
    rewrite Hlook, Ht in Hh.
    destruct (histories st1 !! ip) as [h1|] eqn:Hh1; [| done].
    cbn in Hh. injection Hh as <-.
    cbn [record_result pings]. apply last_deque_append.
    destruct (Hrec ip h1 Hh1) as [log ->].
    destruct (replay_window_ok new_history log (proj2 new_history_ok))
      as [-> _].
    unfold MAX_HISTORY. lia.
  - intros ip r t stats Hin. cbn in Hin. by apply elem_of_nil in Hin.
Qed.
